(** * pytest-bdd: [gherkin_parser.py]

    A shallow embedding of [src/pytest_bdd/gherkin_parser.py]: the typed
    Gherkin document model built from the untyped tree of the external
    parser, the table operations [DataTable.transpose] and
    [DataTable.to_dict], and the classification of parser diagnostics
    ([ERROR_PATTERNS], [handle_gherkin_parser_error],
    [get_gherkin_document]).

    Layout: Part I holds the definitions (Python strings, regular
    expressions, raw values, the node classes, the table operations, the
    classifier and the loader); Part II holds the lemmas and the theorems
    about them; Part III holds further properties of the same code. *)

From Stdlib Require Import ZArith NArith List Ascii String.
From Stdlib Require DecimalString.
From stdpp Require Import base option list gmap.

Set Warnings "-register-all".

(* ===================================================================== *)
(** * Part I: definitions                                                 *)
(* ===================================================================== *)

(** ** Python strings

    A Python [str] is a sequence of Unicode code points.  Code points are
    numbers, so that the line boundaries of [str.splitlines] and the white
    space of [str.strip] beyond Latin-1 are representable. *)

Abbreviation char := N (only parsing).
Abbreviation str := (list N) (only parsing).

(** A literal of the source, written as a Rocq string. *)
Definition pystr (s : string) : str :=
  map N_of_ascii (list_ascii_of_string s).
Arguments pystr s%_string.

Fixpoint str_eqb (a b : str) : bool :=
  match a, b with
  | [], [] => true
  | x :: a', y :: b' => N.eqb x y && str_eqb a' b'
  | _, _ => false
  end.

(** [str(n)] for a non-negative [int]: its decimal numeral. *)
Definition str_of_nat (n : nat) : str :=
  pystr (DecimalString.NilZero.string_of_uint (Nat.to_uint n)).

(** The line boundaries of [str.splitlines]: LF, VT, FF, CR, FS, GS, RS,
    NEL, LS and PS (CR LF counts as one boundary). *)
Definition is_linebreak (c : char) : bool :=
  (N.leb 10 c && N.leb c 13) || (N.leb 28 c && N.leb c 30)
  || N.eqb c 133 || N.eqb c 8232 || N.eqb c 8233.

(** [s.splitlines()]: [line] is the text of the line being read.  A line
    is emitted at each boundary, and at the end of the text when
    characters are pending; a final boundary opens no empty line. *)
Fixpoint splitlines_from (line : str) (s : str) : list str :=
  match s with
  | [] => match line with [] => [] | _ => [line] end
  | c :: s' =>
      if is_linebreak c then
        match s' with
        | d :: s'' =>
            if N.eqb c 13 && N.eqb d 10
            then line :: splitlines_from [] s''
            else line :: splitlines_from [] s'
        | [] => line :: splitlines_from [] s'
        end
      else splitlines_from (line ++ [c]) s'
  end.

Definition splitlines (s : str) : list str := splitlines_from [] s.

(** [s.rstrip(chars)] for a one-character [chars]. *)
Fixpoint rstrip_char (x : char) (s : str) : str :=
  match s with
  | [] => []
  | c :: s' =>
      match rstrip_char x s' with
      | [] => if N.eqb c x then [] else [c]
      | r => c :: r
      end
  end.

(** [str.isspace] on one code point: the Unicode white space that
    [str.strip()] removes. *)
Definition isspace (c : char) : bool :=
  (N.leb 9 c && N.leb c 13) || (N.leb 28 c && N.leb c 32)
  || N.eqb c 133 || N.eqb c 160 || N.eqb c 5760
  || (N.leb 8192 c && N.leb c 8202)
  || N.eqb c 8232 || N.eqb c 8233 || N.eqb c 8239 || N.eqb c 8287
  || N.eqb c 12288.

Fixpoint lstrip (s : str) : str :=
  match s with
  | [] => []
  | c :: s' => if isspace c then lstrip s' else s
  end.

Fixpoint rstrip (s : str) : str :=
  match s with
  | [] => []
  | c :: s' =>
      match rstrip s' with
      | [] => if isspace c then [] else [c]
      | r => c :: r
      end
  end.

(** [s.strip()] *)
Definition strip (s : str) : str := lstrip (rstrip s).

Fixpoint startswith (p s : str) : bool :=
  match p, s with
  | [], _ => true
  | x :: p', y :: s' => N.eqb x y && startswith p' s'
  | _ :: _, [] => false
  end.

(** [s.replace(old, new)] for a non-empty [old]: occurrences are replaced
    from left to right and do not overlap.  [skip] counts the characters
    of an occurrence still to be passed over. *)
Fixpoint replace_from (old new : str) (skip : nat) (s : str) : str :=
  match s with
  | [] => []
  | c :: s' =>
      match skip with
      | S k => replace_from old new k s'
      | O =>
          if startswith old s
          then new ++ replace_from old new (length old - 1) s'
          else c :: replace_from old new 0 s'
      end
  end.

(** [s.replace(old, new)]; an empty [old] matches between all characters
    and at both ends. *)
Definition str_replace (old new s : str) : str :=
  match old with
  | [] => new ++ flat_map (fun c => c :: new) s
  | _ => replace_from old new 0 s
  end.

(** [_to_raw_string] *)
Definition _to_raw_string (normal_string : str) : str :=
  str_replace (pystr "\") (pystr "\\") normal_string.

(** ** Regular expressions

    The fragment of Python's [re] syntax that [ERROR_PATTERNS] uses:
    literal characters, [.], [*], concatenation and [(?:..|..)].  Only the
    truth value of [pattern.search(line)] is observed by the code, and on
    this fragment that is membership of some substring in the language of
    the expression; it is computed here with derivatives. *)

Inductive regex : Type :=
  | Void
  | Eps
  | Sym (p : char -> bool)
  | Cat (r1 r2 : regex)
  | Alt (r1 r2 : regex)
  | Star (r : regex).

(** A literal character. *)
Definition Chr (c : char) : regex := Sym (N.eqb c).

(** [.] without [re.DOTALL]: any character but the newline. *)
Definition Dot : regex := Sym (fun c => negb (N.eqb c 10)).

Fixpoint Lit (s : str) : regex :=
  match s with
  | [] => Eps
  | c :: s' => Cat (Chr c) (Lit s')
  end.

Fixpoint Seq (rs : list regex) : regex :=
  match rs with
  | [] => Eps
  | r :: rs' => Cat r (Seq rs')
  end.

Fixpoint Alts (rs : list regex) : regex :=
  match rs with
  | [] => Void
  | r :: rs' => Alt r (Alts rs')
  end.

Fixpoint nullable (r : regex) : bool :=
  match r with
  | Void => false
  | Eps => true
  | Sym _ => false
  | Cat r1 r2 => nullable r1 && nullable r2
  | Alt r1 r2 => nullable r1 || nullable r2
  | Star _ => true
  end.

Fixpoint deriv (c : char) (r : regex) : regex :=
  match r with
  | Void => Void
  | Eps => Void
  | Sym p => if p c then Eps else Void
  | Cat r1 r2 =>
      if nullable r1
      then Alt (Cat (deriv c r1) r2) (deriv c r2)
      else Cat (deriv c r1) r2
  | Alt r1 r2 => Alt (deriv c r1) (deriv c r2)
  | Star r1 => Cat (deriv c r1) (Star r1)
  end.

(** [pattern.match(s)] is truthy: some prefix of [s] is in the language. *)
Fixpoint match_prefix (r : regex) (s : str) : bool :=
  nullable r ||
  match s with
  | [] => false
  | c :: s' => match_prefix (deriv c r) s'
  end.

(** [pattern.search(s)] is truthy: a match starts at some position. *)
Fixpoint search (r : regex) (s : str) : bool :=
  match_prefix r s ||
  match s with
  | [] => false
  | _ :: s' => search r s'
  end.

(** The language of an expression. *)
Inductive Matches : regex -> str -> Prop :=
  | MEps : Matches Eps []
  | MSym p c : p c = true -> Matches (Sym p) [c]
  | MCat r1 r2 s1 s2 :
      Matches r1 s1 -> Matches r2 s2 -> Matches (Cat r1 r2) (s1 ++ s2)
  | MAltL r1 r2 s : Matches r1 s -> Matches (Alt r1 r2) s
  | MAltR r1 r2 s : Matches r2 s -> Matches (Alt r1 r2) s
  | MStar0 r : Matches (Star r) []
  | MStarS r s1 s2 :
      Matches r s1 -> Matches (Star r) s2 -> Matches (Star r) (s1 ++ s2).

(** ** Exceptions *)

(** Modelled from the spec: the exception classes of [pytest_bdd.exceptions],
    a module of the package that is not part of this unit.  The taxonomy of
    the specification has one category for each class that [ERROR_PATTERNS]
    names, and the generic parse error [GherkinParseError]; the call sites
    in this module construct every class with
    [(message, line, line_content, filename)]. *)
Inductive exception_class : Type :=
  | GherkinParseError
  | FeatureError
  | BackgroundError
  | ScenarioError
  | StepError
  | RuleError
  | TokenError.

(** One sub-error of the external parser: [error.location["line"]]. *)
Record ParserException : Type := {
  pe_line : Z;
}.

(** [gherkin.errors.CompositeParserException]: [e.args[0]] and [e.errors]. *)
Record CompositeParserException : Type := {
  args0 : str;
  errors : list ParserException;
}.

(** What a call raises: a built-in exception of a dictionary, attribute,
    index or file access, or an instance of a class of
    [pytest_bdd.exceptions] with its four arguments and its [__cause__]
    (set by [raise .. from ..]). *)
Inductive exn : Type :=
  | KeyError (key : str)
  | TypeError
  | AttributeError
  | ValueError (msg : str)
  | IndexError
  | OSError
  | GherkinError (cls : exception_class) (message : str) (line : Z)
      (line_content : str) (filename : str)
      (cause : option CompositeParserException).

(** The outcome of a call: a value, or a raised exception. *)
Inductive result (A : Type) : Type :=
  | Ok (a : A)
  | Raise (e : exn).
Arguments Ok {A} a.
Arguments Raise {A} e.

Definition bind {A B : Type} (m : result A) (f : A -> result B) : result B :=
  match m with
  | Ok a => f a
  | Raise e => Raise e
  end.

Notation "x <- m ;; k" := (bind m (fun x => k))
  (at level 100, m at next level, right associativity).

(** A list comprehension [[f(x) for x in l]], stopping at the first
    exception. *)
Definition traverse {A B : Type} (f : A -> result B)
  : list A -> result (list B) :=
  fix go (l : list A) : result (list B) :=
    match l with
    | [] => Ok []
    | x :: l' => y <- f x ;; ys <- go l' ;; Ok (y :: ys)
    end.

(** ** The untyped tree of the external parser

    [Parser().parse] returns nested dictionaries, lists, strings and
    numbers.  A dictionary is kept as the list of its items, in insertion
    order; a key is looked up from the front. *)

Inductive raw : Type :=
  | RNone
  | RBool (b : bool)
  | RInt (z : Z)
  | RStr (s : str)
  | RList (l : list raw)
  | RDict (d : list (str * raw)).

(** Induction on the tree: a list or a dictionary has the property when
    its items have it. *)
Section RawInduction.
Variable P : raw → Prop.
Hypothesis HNone : P RNone.
Hypothesis HBool : ∀ b, P (RBool b).
Hypothesis HInt : ∀ z, P (RInt z).
Hypothesis HStr : ∀ s, P (RStr s).
Hypothesis HList : ∀ l, Forall P l → P (RList l).
Hypothesis HDict : ∀ d, Forall (fun kv => P (snd kv)) d → P (RDict d).

Fixpoint raw_tree_ind (v : raw) : P v :=
  match v with
  | RNone => HNone
  | RBool b => HBool b
  | RInt z => HInt z
  | RStr s => HStr s
  | RList l =>
      HList l ((fix items (l : list raw) : Forall P l :=
                  match l with
                  | [] => @List.Forall_nil _ P
                  | x :: l' =>
                      @List.Forall_cons _ P x l' (raw_tree_ind x) (items l')
                  end) l)
  | RDict d =>
      HDict d ((fix items (d : list (str * raw))
                  : Forall (fun kv => P (snd kv)) d :=
                  match d with
                  | [] => @List.Forall_nil _ _
                  | kv :: d' =>
                      @List.Forall_cons _ (fun kv => P (snd kv)) kv d'
                        (raw_tree_ind (snd kv)) (items d')
                  end) d)
  end.
End RawInduction.

Fixpoint dict_get (k : str) (d : list (str * raw)) : option raw :=
  match d with
  | [] => None
  | (k', v) :: d' => if str_eqb k k' then Some v else dict_get k d'
  end.

(** [data[k]] for a string key [k]: only a dictionary can be subscripted
    with a string. *)
Definition subscript (data : raw) (k : str) : result raw :=
  match data with
  | RDict d =>
      match dict_get k d with
      | Some v => Ok v
      | None => Raise (KeyError k)
      end
  | _ => Raise TypeError
  end.

(** [data.get(k, default)]: only a dictionary has the method. *)
Definition get_default (data : raw) (k : str) (default : raw) : result raw :=
  match data with
  | RDict d =>
      match dict_get k d with
      | Some v => Ok v
      | None => Ok default
      end
  | _ => Raise AttributeError
  end.

(** [data.get(k)] *)
Definition get (data : raw) (k : str) : result raw :=
  get_default data k RNone.

(** The truth value of an object in an [if]. *)
Definition truthy (v : raw) : bool :=
  match v with
  | RNone => false
  | RBool b => b
  | RInt z => negb (Z.eqb z 0)
  | RStr s => match s with [] => false | _ => true end
  | RList l => match l with [] => false | _ => true end
  | RDict d => match d with [] => false | _ => true end
  end.

(** [for x in v]: a list yields its elements, a dictionary its keys, a
    string its characters; nothing else is iterable. *)
Definition iter (v : raw) : result (list raw) :=
  match v with
  | RList l => Ok l
  | RDict d => Ok (map (fun kv => RStr (fst kv)) d)
  | RStr s => Ok (map (fun c => RStr [c]) s)
  | _ => Raise TypeError
  end.

(** [[f(x) for x in v]] *)
Definition for_each {B : Type} (f : raw -> result B) (v : raw)
  : result (list B) :=
  xs <- iter v ;; traverse f xs.

(** [from_dict(data[k]) if data.get(k) else None] *)
Definition optional {A : Type} (from_dict : raw -> result A) (data : raw)
    (k : str) : result (option A) :=
  present <- get data k ;;
  if truthy present
  then item <- subscript data k ;; x <- from_dict item ;; Ok (Some x)
  else Ok None.

(** [v.replace(..)], [v.strip()]: methods of [str] only. *)
Definition as_str (v : raw) : result str :=
  match v with
  | RStr s => Ok s
  | _ => Raise AttributeError
  end.

(** What the module calls outside itself: [textwrap.dedent], reading the
    text of a file ([open(..).read()]), [Parser().parse], which returns the
    tree or raises a [CompositeParserException], and [linecache.getline]. *)
Class Externals : Type := {
  dedent : str -> str;
  read_text : str -> str -> result str;
  parse : str -> raw + CompositeParserException;
  getline : str -> Z -> str;
}.

(** ** The error classifier *)

Record error_pattern : Type := {
  pattern : regex;
  exception : exception_class;
  hint : str;
}.

Definition ERROR_PATTERNS : list error_pattern :=
  [ (* expected:.*got 'Feature.*' *)
    {| pattern := Seq [Lit (pystr "expected:"); Star Dot;
                       Lit (pystr "got 'Feature"); Star Dot; Lit (pystr "'")];
       exception := FeatureError;
       hint := pystr "Multiple features are not allowed in a single feature file." |};
    (* expected:.*got '(?:Given|When|Then|And|But).*' *)
    {| pattern := Seq [Lit (pystr "expected:"); Star Dot; Lit (pystr "got '");
                       Alts [Lit (pystr "Given"); Lit (pystr "When");
                             Lit (pystr "Then"); Lit (pystr "And");
                             Lit (pystr "But")];
                       Star Dot; Lit (pystr "'")];
       exception := FeatureError;
       hint := pystr "Step definition outside of a Scenario or a Background." |};
    (* expected:.*got 'Background.*' *)
    {| pattern := Seq [Lit (pystr "expected:"); Star Dot;
                       Lit (pystr "got 'Background"); Star Dot; Lit (pystr "'")];
       exception := BackgroundError;
       hint := pystr "Multiple 'Background' sections detected. Only one 'Background' is allowed per feature." |};
    (* expected:.*got 'Scenario.*' *)
    {| pattern := Seq [Lit (pystr "expected:"); Star Dot;
                       Lit (pystr "got 'Scenario"); Star Dot; Lit (pystr "'")];
       exception := ScenarioError;
       hint := pystr "Misplaced or incorrect 'Scenario' keyword. Ensure it's correctly placed. There might be a missing Feature section." |};
    (* expected:.*got 'Given.*' *)
    {| pattern := Seq [Lit (pystr "expected:"); Star Dot;
                       Lit (pystr "got 'Given"); Star Dot; Lit (pystr "'")];
       exception := StepError;
       hint := pystr "Improper step keyword detected. Ensure correct order and indentation for steps (Given, When, Then, etc.)." |};
    (* expected:.*got 'Rule.*' *)
    {| pattern := Seq [Lit (pystr "expected:"); Star Dot;
                       Lit (pystr "got 'Rule"); Star Dot; Lit (pystr "'")];
       exception := RuleError;
       hint := pystr "Misplaced or incorrectly formatted 'Rule'. Ensure it follows the feature structure." |};
    (* expected:.*got '.*' *)
    {| pattern := Seq [Lit (pystr "expected:"); Star Dot;
                       Lit (pystr "got '"); Star Dot; Lit (pystr "'")];
       exception := TokenError;
       hint := pystr "Unexpected token found. Check Gherkin syntax near the reported error." |} ].

(** The inner loop of [handle_gherkin_parser_error]: the patterns are
    tried in order on one line, and the first that is found raises.
    [original_exception] is an exception object or [None]; an exception
    object is truthy, so the [from] clause is taken exactly when one is
    given. *)
Fixpoint try_patterns (patterns : list error_pattern) (error_line : str)
    (line : Z) (line_content filename : str)
    (original_exception : option CompositeParserException) : result unit :=
  match patterns with
  | [] => Ok tt
  | p :: patterns' =>
      if search (pattern p) error_line then
        match original_exception with
        | Some e =>
            Raise (GherkinError (exception p) (hint p) line line_content
                     filename (Some e))
        | None =>
            Raise (GherkinError (exception p) (hint p) line line_content
                     filename None)
        end
      else try_patterns patterns' error_line line line_content filename
             original_exception
  end.

(** The outer loop: one diagnostic line after the other. *)
Fixpoint check_lines (patterns : list error_pattern) (error_lines : list str)
    (line : Z) (line_content filename : str)
    (original_exception : option CompositeParserException) : result unit :=
  match error_lines with
  | [] => Ok tt
  | error_line :: error_lines' =>
      _ <- try_patterns patterns error_line line line_content filename
             original_exception ;;
      check_lines patterns error_lines' line line_content filename
        original_exception
  end.

Definition handle_gherkin_parser_error (raw_error : str) (line : Z)
    (line_content filename : str)
    (original_exception : option CompositeParserException) : result unit :=
  let error_lines := splitlines raw_error in
  check_lines ERROR_PATTERNS error_lines line line_content filename
    original_exception.

(** ** The node classes

    One module per dataclass: the record [t] and the class method
    [from_dict].  A field that [from_dict] copies from the tree without
    looking at it holds whatever object the tree has there, so its type is
    [raw]; a field produced by a [str] method is a [str].  Keyword
    arguments are evaluated from left to right, so the first field that
    cannot be read decides the exception. *)

Module Location.
Record t : Type := mk { column : raw; line : raw }.

Definition from_dict (data : raw) : result t :=
  column <- subscript data (pystr "column") ;;
  line <- subscript data (pystr "line") ;;
  Ok {| column := column; line := line |}.
End Location.

Module Comment.
Record t : Type := mk { location : Location.t; text : raw }.

Definition from_dict (data : raw) : result t :=
  location <- (l <- subscript data (pystr "location") ;; Location.from_dict l) ;;
  text <- subscript data (pystr "text") ;;
  Ok {| location := location; text := text |}.
End Comment.

Module Cell.
Record t : Type := mk { location : Location.t; value : str }.

Definition from_dict (data : raw) : result t :=
  location <- (l <- subscript data (pystr "location") ;; Location.from_dict l) ;;
  value <- (v <- subscript data (pystr "value") ;;
            normal_string <- as_str v ;;
            Ok (_to_raw_string normal_string)) ;;
  Ok {| location := location; value := value |}.
End Cell.

Module Row.
Record t : Type := mk {
  id : raw;
  location : Location.t;
  cells : list Cell.t;
}.

Definition from_dict (data : raw) : result t :=
  id <- subscript data (pystr "id") ;;
  location <- (l <- subscript data (pystr "location") ;; Location.from_dict l) ;;
  cells <- (cs <- subscript data (pystr "cells") ;; for_each Cell.from_dict cs) ;;
  Ok {| id := id; location := location; cells := cells |}.
End Row.

Module ExamplesTable.
Record t : Type := mk {
  location : Location.t;
  name : raw;
  table_header : option Row.t;
  table_body : list Row.t;
}.

Definition from_dict (data : raw) : result t :=
  location <- (l <- subscript data (pystr "location") ;; Location.from_dict l) ;;
  name <- get data (pystr "name") ;;
  table_header <- optional Row.from_dict data (pystr "tableHeader") ;;
  table_body <- (rs <- get_default data (pystr "tableBody") (RList []) ;;
                 for_each Row.from_dict rs) ;;
  Ok {| location := location; name := name;
        table_header := table_header; table_body := table_body |}.
End ExamplesTable.

(** [l[i]] for a list and an index [i >= 0]. *)
Definition index {A : Type} (l : list A) (i : nat) : result A :=
  match l !! i with
  | Some x => Ok x
  | None => Raise IndexError
  end.

(** [zip] over the unpacked rows [ls]: one tuple per position, up to the shortest list; each
    round takes the next item of every list in turn and stops as soon as
    one of them has none left. *)
Fixpoint heads {A : Type} (ls : list (list A)) : option (list A) :=
  match ls with
  | [] => Some []
  | l :: ls' =>
      match l with
      | [] => None
      | x :: _ =>
          match heads ls' with
          | Some hs => Some (x :: hs)
          | None => None
          end
      end
  end.

Fixpoint zip_from {A : Type} (first : list A) (others : list (list A))
  : list (list A) :=
  match first with
  | [] => []
  | x :: first' =>
      match heads others with
      | Some hs => (x :: hs) :: zip_from first' (drop 1 <$> others)
      | None => []
      end
  end.

Definition zip_star {A : Type} (ls : list (list A)) : list (list A) :=
  match ls with
  | [] => []
  | first :: others => zip_from first others
  end.

Module DataTable.
Record t : Type := mk { location : Location.t; rows : list Row.t }.

Definition from_dict (data : raw) : result t :=
  location <- (l <- subscript data (pystr "location") ;; Location.from_dict l) ;;
  rows <- (rs <- get_default data (pystr "rows") (RList []) ;;
           for_each Row.from_dict rs) ;;
  Ok {| location := location; rows := rows |}.

(** [Cell(location=Location(0, 0), value="")] *)
Definition empty_cell : Cell.t :=
  Cell.mk (Location.mk (RInt 0) (RInt 0)) [].

(** [max(len(row) for row in cells_matrix)] of a matrix with a first
    row. *)
Definition max_columns (cells_matrix : list (list Cell.t)) : nat :=
  match length <$> cells_matrix with
  | [] => 0
  | n :: ns => foldl Nat.max n ns
  end.

(** The inner loop of [transpose]: [transposed_column] grows by one cell
    per row of the matrix. *)
Fixpoint column_loop (col_idx : nat) (cells_matrix : list (list Cell.t))
    (transposed_column : list Cell.t) : list Cell.t :=
  match cells_matrix with
  | [] => transposed_column
  | row :: cells_matrix' =>
      column_loop col_idx cells_matrix'
        (transposed_column ++
           [if col_idx <? length row
            then default empty_cell (row !! col_idx)
            else empty_cell])
  end.

(** The outer loop over [range(max_columns)]. *)
Fixpoint row_loop (self : t) (cells_matrix : list (list Cell.t))
    (col_idxs : list nat) (transposed_cells : list Row.t) : list Row.t :=
  match col_idxs with
  | [] => transposed_cells
  | col_idx :: col_idxs' =>
      let transposed_column := column_loop col_idx cells_matrix [] in
      let transposed_row :=
        Row.mk (RStr (str_of_nat col_idx)) (location self) transposed_column in
      row_loop self cells_matrix col_idxs' (transposed_cells ++ [transposed_row])
  end.

Definition transpose (self : t) : t :=
  match rows self with
  | [] => self
  | _ :: _ =>
      let cells_matrix := Row.cells <$> rows self in
      let max_columns := max_columns cells_matrix in
      let transposed_cells := row_loop self cells_matrix (seq 0 max_columns) [] in
      {| location := location self; rows := transposed_cells |}
  end.

(** The dictionary comprehension of [to_dict]: the keys are inserted in
    the order of [range(len(header))]; a key met again keeps the later
    value.  The dictionary is kept as a finite map, which records what each
    key holds and not the order of the keys. *)
Fixpoint dict_loop (header : list str) (transposed_values : list (list str))
    (idxs : list nat) (result_dict : gmap str (list str))
  : result (gmap str (list str)) :=
  match idxs with
  | [] => Ok result_dict
  | i :: idxs' =>
      key <- index header i ;;
      values <- index transposed_values i ;;
      dict_loop header transposed_values idxs' (<[key := values]> result_dict)
  end.

Definition to_dict (self : t) : result (gmap str (list str)) :=
  if length (rows self) <? 2 then
    Raise (ValueError (pystr
      "DataTable needs at least two rows: one for headers and one for values"))
  else
    row0 <- index (rows self) 0 ;;
    let header := Cell.value <$> Row.cells row0 in
    let values_rows :=
      (fun row => Cell.value <$> Row.cells row) <$> drop 1 (rows self) in
    let transposed_values := zip_star values_rows in
    dict_loop header transposed_values (seq 0 (length header)) ∅.
End DataTable.

Module DocString.
Record t : Type := mk {
  content : str;
  delimiter : raw;
  location : Location.t;
}.

(** [textwrap.dedent] takes a [str]; it raises [TypeError] otherwise. *)
Definition from_dict `{Externals} (data : raw) : result t :=
  content <- (c <- subscript data (pystr "content") ;;
              match c with
              | RStr text => Ok (dedent text)
              | _ => Raise TypeError
              end) ;;
  delimiter <- subscript data (pystr "delimiter") ;;
  location <- (l <- subscript data (pystr "location") ;; Location.from_dict l) ;;
  Ok {| content := content; delimiter := delimiter; location := location |}.
End DocString.

Module Step.
Record t : Type := mk {
  id : raw;
  keyword : str;
  keyword_type : raw;
  location : Location.t;
  text : raw;
  data_table : option DataTable.t;
  doc_string : option DocString.t;
}.

Definition from_dict `{Externals} (data : raw) : result t :=
  id <- subscript data (pystr "id") ;;
  keyword <- (k <- subscript data (pystr "keyword") ;;
              s <- as_str k ;; Ok (strip s)) ;;
  keyword_type <- subscript data (pystr "keywordType") ;;
  location <- (l <- subscript data (pystr "location") ;; Location.from_dict l) ;;
  text <- subscript data (pystr "text") ;;
  data_table <- optional DataTable.from_dict data (pystr "dataTable") ;;
  doc_string <- optional DocString.from_dict data (pystr "docString") ;;
  Ok {| id := id; keyword := keyword; keyword_type := keyword_type;
        location := location; text := text;
        data_table := data_table; doc_string := doc_string |}.
End Step.

Module Tag.
Record t : Type := mk { id : raw; location : Location.t; name : raw }.

Definition from_dict (data : raw) : result t :=
  id <- subscript data (pystr "id") ;;
  location <- (l <- subscript data (pystr "location") ;; Location.from_dict l) ;;
  name <- subscript data (pystr "name") ;;
  Ok {| id := id; location := location; name := name |}.
End Tag.

Module Scenario.
Record t : Type := mk {
  id : raw;
  keyword : raw;
  location : Location.t;
  name : raw;
  description : raw;
  steps : list Step.t;
  tags : list Tag.t;
  examples : list ExamplesTable.t;
}.

Definition from_dict `{Externals} (data : raw) : result t :=
  id <- subscript data (pystr "id") ;;
  keyword <- subscript data (pystr "keyword") ;;
  location <- (l <- subscript data (pystr "location") ;; Location.from_dict l) ;;
  name <- subscript data (pystr "name") ;;
  description <- subscript data (pystr "description") ;;
  steps <- (xs <- subscript data (pystr "steps") ;; for_each Step.from_dict xs) ;;
  tags <- (xs <- subscript data (pystr "tags") ;; for_each Tag.from_dict xs) ;;
  examples <- (xs <- subscript data (pystr "examples") ;;
               for_each ExamplesTable.from_dict xs) ;;
  Ok {| id := id; keyword := keyword; location := location; name := name;
        description := description; steps := steps; tags := tags;
        examples := examples |}.
End Scenario.

Module Background.
Record t : Type := mk {
  id : raw;
  keyword : raw;
  location : Location.t;
  name : raw;
  description : raw;
  steps : list Step.t;
}.

Definition from_dict `{Externals} (data : raw) : result t :=
  id <- subscript data (pystr "id") ;;
  keyword <- subscript data (pystr "keyword") ;;
  location <- (l <- subscript data (pystr "location") ;; Location.from_dict l) ;;
  name <- subscript data (pystr "name") ;;
  description <- subscript data (pystr "description") ;;
  steps <- (xs <- subscript data (pystr "steps") ;; for_each Step.from_dict xs) ;;
  Ok {| id := id; keyword := keyword; location := location; name := name;
        description := description; steps := steps |}.
End Background.

(** [Rule] and [Child] refer to each other: a rule owns children, a child
    may hold a rule. *)
Inductive Rule_t : Type :=
  | mkRule (id keyword : raw) (location : Location.t) (name description : raw)
      (tags : list Tag.t) (children : list Child_t)
with Child_t : Type :=
  | mkChild (background : option Background.t) (rule : option Rule_t)
      (scenario : option Scenario.t).

(** [present(d[k])] when the dictionary [d] has the key [k], and [absent]
    otherwise.  The two builders below descend into the tree through this
    function, which hands the stored object itself to [present]. *)
Definition with_item {A : Type} (k : str) (absent : A) (present : raw -> A)
  : list (str * raw) -> A :=
  fix go (d : list (str * raw)) : A :=
    match d with
    | [] => absent
    | (k', v) :: d' => if str_eqb k k' then present v else go d'
    end.

(** [Rule.from_dict] and [Child.from_dict].  In [Rule.from_dict] the
    children are the items of [data["children"]]; the items of a
    dictionary or of a string are strings, and [Child.from_dict] of a
    string raises [AttributeError] at its first [data.get]. *)
Fixpoint Rule_from_dict `{Externals} (data : raw) {struct data} : result Rule_t :=
  match data with
  | RDict d =>
      id <- subscript data (pystr "id") ;;
      keyword <- subscript data (pystr "keyword") ;;
      location <- (l <- subscript data (pystr "location") ;; Location.from_dict l) ;;
      name <- subscript data (pystr "name") ;;
      description <- subscript data (pystr "description") ;;
      tags <- (xs <- subscript data (pystr "tags") ;; for_each Tag.from_dict xs) ;;
      children <-
        with_item (pystr "children") (Raise (KeyError (pystr "children")))
          (fun xs =>
             match xs with
             | RList l => traverse Child_from_dict l
             | _ => for_each (fun _ => Raise AttributeError) xs
             end) d ;;
      Ok (mkRule id keyword location name description tags children)
  | _ => Raise TypeError
  end
with Child_from_dict `{Externals} (data : raw) {struct data} : result Child_t :=
  match data with
  | RDict d =>
      background <- optional Background.from_dict data (pystr "background") ;;
      rule <-
        with_item (pystr "rule") (Ok None)
          (fun item =>
             if truthy item
             then x <- Rule_from_dict item ;; Ok (Some x)
             else Ok None) d ;;
      scenario <- optional Scenario.from_dict data (pystr "scenario") ;;
      Ok (mkChild background rule scenario)
  | _ => Raise AttributeError
  end.

Module Rule.
Definition t : Type := Rule_t.
Definition id (r : t) : raw := let (x, _, _, _, _, _, _) := r in x.
Definition keyword (r : t) : raw := let (_, x, _, _, _, _, _) := r in x.
Definition location (r : t) : Location.t := let (_, _, x, _, _, _, _) := r in x.
Definition name (r : t) : raw := let (_, _, _, x, _, _, _) := r in x.
Definition description (r : t) : raw := let (_, _, _, _, x, _, _) := r in x.
Definition tags (r : t) : list Tag.t := let (_, _, _, _, _, x, _) := r in x.
Definition children (r : t) : list Child_t := let (_, _, _, _, _, _, x) := r in x.

Definition from_dict `{Externals} (data : raw) : result t :=
  Rule_from_dict data.
End Rule.

Module Child.
Definition t : Type := Child_t.
Definition background (c : t) : option Background.t := let (x, _, _) := c in x.
Definition rule (c : t) : option Rule.t := let (_, x, _) := c in x.
Definition scenario (c : t) : option Scenario.t := let (_, _, x) := c in x.

Definition from_dict `{Externals} (data : raw) : result t :=
  Child_from_dict data.
End Child.

Module Feature.
Record t : Type := mk {
  keyword : raw;
  location : Location.t;
  tags : list Tag.t;
  name : raw;
  description : raw;
  children : list Child.t;
}.

Definition from_dict `{Externals} (data : raw) : result t :=
  keyword <- subscript data (pystr "keyword") ;;
  location <- (l <- subscript data (pystr "location") ;; Location.from_dict l) ;;
  tags <- (xs <- subscript data (pystr "tags") ;; for_each Tag.from_dict xs) ;;
  name <- subscript data (pystr "name") ;;
  description <- subscript data (pystr "description") ;;
  children <- (xs <- subscript data (pystr "children") ;;
               for_each Child.from_dict xs) ;;
  Ok {| keyword := keyword; location := location; tags := tags; name := name;
        description := description; children := children |}.
End Feature.

Module GherkinDocument.
Record t : Type := mk {
  feature : Feature.t;
  comments : list Comment.t;
}.

Definition from_dict `{Externals} (data : raw) : result t :=
  feature <- (f <- subscript data (pystr "feature") ;; Feature.from_dict f) ;;
  comments <- (xs <- subscript data (pystr "comments") ;;
               for_each Comment.from_dict xs) ;;
  Ok {| feature := feature; comments := comments |}.
End GherkinDocument.

(** ** The loader

    [e.errors[0].location["line"]] is the line of the first sub-error;
    [linecache.getline(..).rstrip("\n")] is the text of that line of the
    file.  When the classifier returns, the generic error is raised. *)
Definition get_gherkin_document `{Externals} (abs_filename : str)
    (encoding : str) : result GherkinDocument.t :=
  feature_file_text <- read_text abs_filename encoding ;;
  match parse feature_file_text with
  | inl gherkin_data => GherkinDocument.from_dict gherkin_data
  | inr e =>
      let message := args0 e in
      error0 <- index (errors e) 0 ;;
      let line := pe_line error0 in
      let line_content := rstrip_char 10 (getline abs_filename line) in
      let filename := abs_filename in
      _ <- handle_gherkin_parser_error message line line_content filename (Some e) ;;
      Raise (GherkinError GherkinParseError
               (pystr "Unknown parsing error: " ++ message)
               line line_content filename (Some e))
  end.

(** The default of the [encoding] parameter. *)
Definition default_encoding : str := pystr "utf-8".

(** ** Views used in the statements *)

(** The values of a table, row by row. *)
Definition grid (T : DataTable.t) : list (list str) :=
  (fun row => Cell.value <$> Row.cells row) <$> DataTable.rows T.

(** All rows have the same number of cells. *)
Definition rectangular (T : DataTable.t) : Prop :=
  ∀ r1 r2, r1 ∈ DataTable.rows T → r2 ∈ DataTable.rows T →
    length (Row.cells r1) = length (Row.cells r2).

(** The cell that [transpose] takes from a row for the column [col_idx]. *)
Definition cell_at (col_idx : nat) (row : list Cell.t) : Cell.t :=
  if col_idx <? length row
  then default DataTable.empty_cell (row !! col_idx)
  else DataTable.empty_cell.

(** The matrix of cells of the transposed table, from the matrix [m] of the
    table. *)
Definition transposed_matrix (m : list (list Cell.t)) : list (list Cell.t) :=
  (fun i => cell_at i <$> m) <$> seq 0 (DataTable.max_columns m).

(** [to_dict] reads the table through its grid of values only. *)
Definition to_dict_of_grid (g : list (list str)) : result (gmap str (list str)) :=
  match g with
  | header :: (_ :: _) =>
      DataTable.dict_loop header (zip_star (drop 1 g)) (seq 0 (length header)) ∅
  | _ =>
      Raise (ValueError (pystr
        "DataTable needs at least two rows: one for headers and one for values"))
  end.

(** Every backslash doubled. *)
Definition escape_backslashes (s : str) : str :=
  flat_map (fun c => if N.eqb c 92 then [92%N; 92%N] else [c]) s.

(** The exception that the rule [p] raises in a call of the classifier. *)
Definition classified (p : error_pattern) (line : Z)
    (line_content filename : str)
    (original_exception : option CompositeParserException) : exn :=
  GherkinError (exception p) (hint p) line line_content filename
    original_exception.

(** The exceptions of a malformed tree: a missing key, an object of the
    wrong kind. *)
Definition structural (e : exn) : bool :=
  match e with
  | KeyError _ | TypeError | AttributeError => true
  | _ => false
  end.

(** The call raises, and what it raises is structural. *)
Definition fails_structurally {A : Type} (r : result A) : Prop :=
  ∃ e, r = Raise e ∧ structural e = true.

(** Whatever the call raises is structural. *)
Definition raises_structurally {A : Type} (r : result A) : Prop :=
  ∀ e, r = Raise e → structural e = true.

(** One optional field of a node, read from the dictionary [d]: absent when
    the key is missing or its object is falsy, built from the object
    otherwise. *)
Definition field_of {A : Type} (from_dict : raw -> result A)
    (d : list (str * raw)) (k : str) : result (option A) :=
  match dict_get k d with
  | Some item =>
      if truthy item then x <- from_dict item ;; Ok (Some x) else Ok None
  | None => Ok None
  end.

(** ** Sample inputs *)

Definition at_ (line column : Z) : Location.t :=
  Location.mk (RInt column) (RInt line).

(** The table [| a | b |] over [| 1 | 2 |]. *)
Definition sample_table : DataTable.t :=
  DataTable.mk (at_ 3 7)
    [ Row.mk (RStr (pystr "4")) (at_ 3 7)
        [Cell.mk (at_ 3 9) (pystr "a"); Cell.mk (at_ 3 13) (pystr "b")];
      Row.mk (RStr (pystr "5")) (at_ 4 7)
        [Cell.mk (at_ 4 9) (pystr "1"); Cell.mk (at_ 4 13) (pystr "2")] ].

(** The table [| a | b |] over [| 1 |]: the data row is short. *)
Definition ragged_table : DataTable.t :=
  DataTable.mk (at_ 3 7)
    [ Row.mk (RStr (pystr "4")) (at_ 3 7)
        [Cell.mk (at_ 3 9) (pystr "a"); Cell.mk (at_ 3 13) (pystr "b")];
      Row.mk (RStr (pystr "5")) (at_ 4 7)
        [Cell.mk (at_ 4 9) (pystr "1")] ].

(** [{"column": column, "line": line}] *)
Definition raw_location (line column : Z) : raw :=
  RDict [(pystr "column", RInt column); (pystr "line", RInt line)].

(** A background, a scenario and a rule of the smallest shape that builds. *)
Definition raw_background : raw :=
  RDict [(pystr "id", RStr (pystr "1")); (pystr "keyword", RStr (pystr "Background"));
         (pystr "location", raw_location 2 3); (pystr "name", RStr []);
         (pystr "description", RStr []); (pystr "steps", RList [])].

Definition raw_scenario : raw :=
  RDict [(pystr "id", RStr (pystr "2")); (pystr "keyword", RStr (pystr "Scenario"));
         (pystr "location", raw_location 4 3); (pystr "name", RStr (pystr "s"));
         (pystr "description", RStr []); (pystr "steps", RList []);
         (pystr "tags", RList []); (pystr "examples", RList [])].

Definition raw_rule : raw :=
  RDict [(pystr "id", RStr (pystr "3")); (pystr "keyword", RStr (pystr "Rule"));
         (pystr "location", raw_location 6 3); (pystr "name", RStr (pystr "r"));
         (pystr "description", RStr []); (pystr "tags", RList []);
         (pystr "children", RList [])].

(** A table of one row that has no cells. *)
Definition cellless_table : DataTable.t :=
  DataTable.mk (at_ 3 7) [Row.mk (RStr (pystr "4")) (at_ 3 7) []].

(** A diagnostic that no rule recognises, and a world in which the file
    holds one line and the parser rejects it with that diagnostic. *)
Definition unrecognised_failure : CompositeParserException := {|
  args0 := pystr "Parser errors:" ++ [10%N]
             ++ pystr "(1:1): inconsistent cell count within the table";
  errors := [{| pe_line := 1 |}];
|}.

Definition failing_world : Externals := {|
  dedent := fun text => text;
  read_text := fun _ _ => Ok (pystr "Feature");
  parse := fun _ => inr unrecognised_failure;
  getline := fun _ _ => pystr "Feature" ++ [10%N];
|}.

(** ** Further views *)

(** A row of cells extended with placeholder cells to a width. *)
Definition pad_row (width : nat) (row : list Cell.t) : list Cell.t :=
  row ++ replicate (width - length row) DataTable.empty_cell.

(** The rows that [transpose] builds, from their cells. *)
Definition numbered_rows (location : Location.t) (m : list (list Cell.t))
  : list Row.t :=
  imap (fun i cells => Row.mk (RStr (str_of_nat i)) location cells) m.

(** The table with the cells of every data row beyond the width of the
    header row removed. *)
Definition truncate_data_rows (T : DataTable.t) : DataTable.t :=
  match DataTable.rows T with
  | [] => T
  | header_row :: data_rows =>
      DataTable.mk (DataTable.location T)
        (header_row ::
           ((fun row => Row.mk (Row.id row) (Row.location row)
                          (take (length (Row.cells header_row)) (Row.cells row)))
              <$> data_rows))
  end.

(** The table [| a |] over [| 1 | 2 |]: the data row is long. *)
Definition long_row_table : DataTable.t :=
  DataTable.mk (at_ 3 7)
    [ Row.mk (RStr (pystr "4")) (at_ 3 7) [Cell.mk (at_ 3 9) (pystr "a")];
      Row.mk (RStr (pystr "5")) (at_ 4 7)
        [Cell.mk (at_ 4 9) (pystr "1"); Cell.mk (at_ 4 13) (pystr "2")] ].

(** The keywords that each pattern of [ERROR_PATTERNS] accepts after
    [got '], in the order of the list: the alternatives of the group, the
    one keyword, or nothing in the last pattern. *)
Definition rule_keywords : list (list str) :=
  [ [pystr "Feature"];
    [pystr "Given"; pystr "When"; pystr "Then"; pystr "And"; pystr "But"];
    [pystr "Background"];
    [pystr "Scenario"];
    [pystr "Given"];
    [pystr "Rule"];
    [[]] ].

(** The shape of a diagnostic line that a rule with the keyword [kw]
    looks for: [expected:], later [got '] and the keyword, later a quote,
    with no newline in the two stretches in between. *)
Definition expected_got_shape (kw : str) (error_line : str) : Prop :=
  ∃ a b c d,
    error_line
    = a ++ pystr "expected:" ++ b ++ pystr "got '" ++ kw ++ c ++ pystr "'" ++ d ∧
    (10%N ∉ b) ∧ (10%N ∉ c).

(** A list field of a node built from the dictionary [d]: the key [k] is
    present, its object is iterable, and the field holds what [from_dict]
    builds from the items, one for one and in their order. *)
Definition items_built {A : Type} (from_dict : raw -> result A)
    (d : list (str * raw)) (k : str) (field : list A) : Prop :=
  ∃ xs items,
    dict_get k d = Some xs ∧ iter xs = Ok items ∧
    Forall2 (fun x y => from_dict x = Ok y) items field.

(** The location of a node built from the dictionary [d]. *)
Definition location_built (d : list (str * raw)) (location : Location.t) : Prop :=
  ∃ item,
    dict_get (pystr "location") d = Some item ∧
    Location.from_dict item = Ok location.

(** Undoes [_to_raw_string]: a pair of backslashes becomes one. *)
Fixpoint unescape_backslashes (s : str) : str :=
  match s with
  | [] => []
  | c :: s' =>
      match s' with
      | c' :: s'' =>
          if N.eqb c 92 && N.eqb c' 92
          then 92%N :: unescape_backslashes s''
          else c :: unescape_backslashes s'
      | [] => [c]
      end
  end.

(** The number of backslashes of a string. *)
Definition count_backslashes (s : str) : nat :=
  length (filter (fun c => c = 92%N) s).

(** A feature with a background and a scenario, in a document with one
    comment. *)
Definition raw_feature : raw :=
  RDict [(pystr "keyword", RStr (pystr "Feature"));
         (pystr "location", raw_location 1 1);
         (pystr "tags", RList []);
         (pystr "name", RStr (pystr "f"));
         (pystr "description", RStr []);
         (pystr "children",
          RList [RDict [(pystr "background", raw_background)];
                 RDict [(pystr "scenario", raw_scenario)]])].

Definition raw_document : raw :=
  RDict [(pystr "feature", raw_feature);
         (pystr "comments",
          RList [RDict [(pystr "location", raw_location 5 1);
                        (pystr "text", RStr (pystr "# note"))]])].

(** A world in which the parser accepts the file and returns
    [raw_document]. *)
Definition parsing_world : Externals := {|
  dedent := fun text => text;
  read_text := fun _ _ => Ok (pystr "Feature: f");
  parse := fun _ => inl raw_document;
  getline := fun _ _ => [];
|}.

(** The items of a step whose keyword has white space at its end, as the
    parser delivers it. *)
Definition raw_step_items : list (str * raw) :=
  [(pystr "id", RStr (pystr "0")); (pystr "keyword", RStr (pystr "Given "));
   (pystr "keywordType", RStr (pystr "Context"));
   (pystr "location", raw_location 5 5);
   (pystr "text", RStr (pystr "a step"))].

(** The table [| a | 1 | 2 |] over [| b | 3 | 4 |]: the keys stand in the
    first column. *)
Definition vertical_table : DataTable.t :=
  DataTable.mk (at_ 3 7)
    [ Row.mk (RStr (pystr "4")) (at_ 3 7)
        [Cell.mk (at_ 3 9) (pystr "a"); Cell.mk (at_ 3 13) (pystr "1");
         Cell.mk (at_ 3 17) (pystr "2")];
      Row.mk (RStr (pystr "5")) (at_ 4 7)
        [Cell.mk (at_ 4 9) (pystr "b"); Cell.mk (at_ 4 13) (pystr "3");
         Cell.mk (at_ 4 17) (pystr "4")] ].

(** The items of a data table of one row with one cell, and of a tag. *)
Definition raw_table_items : list (str * raw) :=
  [(pystr "location", raw_location 3 7);
   (pystr "rows",
    RList [RDict [(pystr "id", RStr (pystr "4"));
                  (pystr "location", raw_location 3 7);
                  (pystr "cells",
                   RList [RDict [(pystr "location", raw_location 3 9);
                                 (pystr "value", RStr (pystr "a"))]])]])].

Definition raw_tag_items : list (str * raw) :=
  [(pystr "id", RStr (pystr "7")); (pystr "location", raw_location 1 1);
   (pystr "name", RStr (pystr "@slow"))].

Definition raw_background_items : list (str * raw) :=
  [(pystr "id", RStr (pystr "1")); (pystr "keyword", RStr (pystr "Background"));
   (pystr "location", raw_location 2 3); (pystr "name", RStr []);
   (pystr "description", RStr []); (pystr "steps", RList [RDict raw_step_items])].

(** ** The fields read by subscript

    A builder evaluates the keyword arguments of its [cls(..)] call from
    left to right.  Each argument that subscripts the dictionary is one
    read: [data[k]] is looked up, and the object found is stored as it is,
    or handed to a function, or built item by item. *)

(** The exception of a call that raises. *)
Definition exception_of {A : Type} (r : result A) : option exn :=
  match r with
  | Ok _ => None
  | Raise e => Some e
  end.

(** One read: the key, and the exception, if any, of what the builder does
    with the object found under the key. *)
Definition field_read : Type := str * (raw -> option exn).

(** [data[k]] *)
Definition plain (k : str) : field_read := (k, fun _ => None).

(** [f(data[k])] *)
Definition built {A : Type} (k : str) (f : raw -> result A) : field_read :=
  (k, fun item => exception_of (f item)).

(** [[from_dict(x) for x in data[k]]] *)
Definition listed {A : Type} (k : str) (from_dict : raw -> result A)
  : field_read :=
  (k, fun items => exception_of (for_each from_dict items)).

(** The reads by subscript of each [from_dict], in the order of the
    source.  The reads with [data.get] ([name], [tableHeader], [tableBody],
    [rows], [dataTable], [docString], and the three fields of [Child]) are
    not among them; in every class they come after the reads listed
    here. *)
Definition Location_reads : list field_read :=
  [plain (pystr "column"); plain (pystr "line")].

Definition Comment_reads : list field_read :=
  [built (pystr "location") Location.from_dict; plain (pystr "text")].

Definition Cell_reads : list field_read :=
  [built (pystr "location") Location.from_dict; built (pystr "value") as_str].

Definition Row_reads : list field_read :=
  [plain (pystr "id"); built (pystr "location") Location.from_dict;
   listed (pystr "cells") Cell.from_dict].

Definition ExamplesTable_reads : list field_read :=
  [built (pystr "location") Location.from_dict].

Definition DataTable_reads : list field_read :=
  [built (pystr "location") Location.from_dict].

Definition DocString_reads `{Externals} : list field_read :=
  [built (pystr "content")
     (fun c => match c with
               | RStr text => Ok (dedent text)
               | _ => Raise TypeError
               end);
   plain (pystr "delimiter");
   built (pystr "location") Location.from_dict].

Definition Step_reads : list field_read :=
  [plain (pystr "id"); built (pystr "keyword") as_str;
   plain (pystr "keywordType"); built (pystr "location") Location.from_dict;
   plain (pystr "text")].

Definition Tag_reads : list field_read :=
  [plain (pystr "id"); built (pystr "location") Location.from_dict;
   plain (pystr "name")].

Definition Scenario_reads `{Externals} : list field_read :=
  [plain (pystr "id"); plain (pystr "keyword");
   built (pystr "location") Location.from_dict;
   plain (pystr "name"); plain (pystr "description");
   listed (pystr "steps") Step.from_dict; listed (pystr "tags") Tag.from_dict;
   listed (pystr "examples") ExamplesTable.from_dict].

Definition Rule_reads `{Externals} : list field_read :=
  [plain (pystr "id"); plain (pystr "keyword");
   built (pystr "location") Location.from_dict;
   plain (pystr "name"); plain (pystr "description");
   listed (pystr "tags") Tag.from_dict;
   listed (pystr "children") Child.from_dict].

Definition Background_reads `{Externals} : list field_read :=
  [plain (pystr "id"); plain (pystr "keyword");
   built (pystr "location") Location.from_dict;
   plain (pystr "name"); plain (pystr "description");
   listed (pystr "steps") Step.from_dict].

Definition Feature_reads `{Externals} : list field_read :=
  [plain (pystr "keyword"); built (pystr "location") Location.from_dict;
   listed (pystr "tags") Tag.from_dict;
   plain (pystr "name"); plain (pystr "description");
   listed (pystr "children") Child.from_dict].

Definition GherkinDocument_reads `{Externals} : list field_read :=
  [built (pystr "feature") Feature.from_dict;
   listed (pystr "comments") Comment.from_dict].

(** The exception of the first of the reads that fails on the dictionary
    [d]: [KeyError] for a key that [d] lacks, and otherwise the exception
    of what is done with the object. *)
Fixpoint first_failure (reads : list field_read) (d : list (str * raw))
  : option exn :=
  match reads with
  | [] => None
  | (k, check) :: reads' =>
      match dict_get k d with
      | None => Some (KeyError k)
      | Some item =>
          match check item with
          | Some e => Some e
          | None => first_failure reads' d
          end
      end
  end.

(** The reads that come before the read of the key [k]. *)
Fixpoint reads_before (k : str) (reads : list field_read) : list field_read :=
  match reads with
  | [] => []
  | (k', check) :: reads' =>
      if str_eqb k k' then [] else (k', check) :: reads_before k reads'
  end.

(** The outcome of a builder with the reads [reads] on a dictionary [d]
    that lacks the key [k]: a structural exception, namely that of the
    first read before [k] that fails, and [KeyError k] when all of them
    return. *)
Definition raises_for_missing {A : Type} (outcome : result A)
    (reads : list field_read) (k : str) (d : list (str * raw)) : Prop :=
  fails_structurally outcome ∧
  outcome
  = Raise (default (KeyError k) (first_failure (reads_before k reads) d)).

(** A row that lacks [cells], once with a location, once with a number in
    its place; a child whose background lacks [id]. *)
Definition raw_row_without_cells : list (str * raw) :=
  [(pystr "id", RStr (pystr "4")); (pystr "location", raw_location 3 7)].

Definition raw_row_misplaced : list (str * raw) :=
  [(pystr "id", RStr (pystr "4")); (pystr "location", RInt 3)].

Definition raw_child_malformed : list (str * raw) :=
  [(pystr "background", RDict [(pystr "keyword", RStr (pystr "Background"))]);
   (pystr "scenario", raw_scenario)].

(** ** Proof automation *)

(** Reads the entry of [ERROR_PATTERNS] named by a lookup, leaving the
    literals of the entry folded. *)
Ltac pattern_entry H :=
  unfold ERROR_PATTERNS in H; cbn [lookup list_lookup] in H;
  apply (inj Some) in H.

(* ===================================================================== *)
(** * Part II: lemmas and theorems                                        *)
(* ===================================================================== *)

(** ** Python strings *)

Example str_of_nat_ex : str_of_nat 0 = pystr "0" ∧ str_of_nat 12 = pystr "12".
Proof. split; reflexivity. Qed.

Example str_replace_ex :
  str_replace (pystr "aa") (pystr "b") (pystr "aaa") = pystr "ba" ∧
  str_replace [] (pystr "-") (pystr "abc") = pystr "-a-b-c-" ∧
  rstrip_char 10 (pystr "x" ++ [10%N; 10%N]) = pystr "x" ∧
  strip ([32%N; 9%N] ++ pystr "Given" ++ [32%N]) = pystr "Given".
Proof. repeat split; reflexivity. Qed.

Example zip_star_ex :
  zip_star [[1; 2; 3]; [4]; [5; 6]] = [[1; 4; 5]] ∧
  zip_star [[1; 2]] = [[1]; [2]].
Proof. split; reflexivity. Qed.

Example splitlines_ex :
  splitlines (pystr "ab" ++ [10%N; 13%N; 10%N] ++ pystr "c" ++ [10%N])
  = [pystr "ab"; []; pystr "c"].
Proof. reflexivity. Qed.

Lemma rstrip_char_snoc (x : N) (s : str) :
  rstrip_char x (s ++ [x]) = rstrip_char x s.
Proof.
  induction s as [|c s IH]; simpl.
  - by rewrite N.eqb_refl.
  - by rewrite IH.
Qed.

(** [rstrip_char] leaves a text alone that does not end in the character. *)
Lemma rstrip_char_id (x c : N) (s : str) :
  c ≠ x → rstrip_char x (s ++ [c]) = s ++ [c].
Proof.
  intros Hc. induction s as [|d s IH]; simpl.
  - by apply N.eqb_neq in Hc as ->.
  - rewrite IH. by destruct s.
Qed.

(** No line of [splitlines] holds a line boundary; in particular none
    holds a newline, the one character that [.] does not match. *)
Lemma splitlines_from_no_linebreak (line s : str) :
  Forall (fun c => is_linebreak c = false) line →
  Forall (Forall (fun c => is_linebreak c = false)) (splitlines_from line s).
Proof.
  revert line. induction s as [s IH] using (induction_ltof1 _ (@length N)).
  unfold ltof in IH.
  intros line Hline. destruct s as [|c s]; cbn [splitlines_from].
  - destruct line as [|c line]; [apply List.Forall_nil|].
    apply List.Forall_cons; [done | apply List.Forall_nil].
  - destruct (is_linebreak c) eqn:Hc.
    + destruct s as [|d s].
      * constructor; [done|]. apply IH; [simpl; lia | done].
      * destruct (_ && _); (constructor; [done|]);
          (apply IH; [simpl; lia | done]).
    + apply IH; [simpl; lia|]. apply Forall_app. by repeat constructor.
Qed.

Lemma splitlines_no_newline (s error_line : str) :
  error_line ∈ splitlines s → 10%N ∉ error_line.
Proof.
  intros Hin Hnl.
  pose proof (splitlines_from_no_linebreak [] s (@List.Forall_nil _ _)) as Hall.
  rewrite Forall_forall in Hall. specialize (Hall _ Hin).
  rewrite Forall_forall in Hall. by specialize (Hall _ Hnl).
Qed.

(** ** Regular expressions: the matcher decides the language *)

Section RegexLanguage.
Implicit Types (r : regex) (s : str) (c : N).

Lemma Matches_Void_inv s : Matches Void s → False.
Proof. inversion 1. Qed.

Lemma Matches_Eps_inv s : Matches Eps s → s = [].
Proof. by inversion 1. Qed.

Lemma Matches_Sym_inv p s : Matches (Sym p) s → ∃ c, s = [c] ∧ p c = true.
Proof. inversion 1; subst; eauto. Qed.

Lemma Matches_Cat_inv r1 r2 s :
  Matches (Cat r1 r2) s →
  ∃ s1 s2, s = s1 ++ s2 ∧ Matches r1 s1 ∧ Matches r2 s2.
Proof. inversion 1; subst; eauto. Qed.

Lemma Matches_Alt_inv r1 r2 s :
  Matches (Alt r1 r2) s → Matches r1 s ∨ Matches r2 s.
Proof. inversion 1; subst; eauto. Qed.

Lemma Matches_Cat_intro r1 r2 s1 s2 s :
  Matches r1 s1 → Matches r2 s2 → s = s1 ++ s2 → Matches (Cat r1 r2) s.
Proof. intros H1 H2 ->. by constructor. Qed.

(** A non-empty word of a starred language starts with a non-empty word
    of the language. *)
Lemma Matches_Star_cons r c s :
  Matches (Star r) (c :: s) →
  ∃ s1 s2, s = s1 ++ s2 ∧ Matches r (c :: s1) ∧ Matches (Star r) s2.
Proof.
  intros H. remember (Star r) as r' eqn:Hr. remember (c :: s) as w eqn:Hw.
  revert s Hw. induction H as [| | | | | |r0 s1 s2 H1 _ H2 IH2];
    intros t Hw; try discriminate.
  injection Hr as ->. destruct s1 as [|c1 s1]; simpl in Hw.
  - by apply IH2.
  - injection Hw as -> <-. eauto.
Qed.

Lemma nullable_spec r : nullable r = true ↔ Matches r [].
Proof.
  induction r as [| |p|r1 IH1 r2 IH2|r1 IH1 r2 IH2|r IH]; simpl.
  - split; [done | by intros ?%Matches_Void_inv].
  - split; [constructor | done].
  - split; [done | by intros (c & ? & _)%Matches_Sym_inv].
  - rewrite andb_true_iff, IH1, IH2. split.
    + intros [H1 H2]. by apply (MCat _ _ [] []).
    + intros (s1 & s2 & Hs & H1 & H2)%Matches_Cat_inv.
      symmetry in Hs. apply app_eq_nil in Hs as [-> ->]. done.
  - rewrite orb_true_iff, IH1, IH2. split.
    + intros [H|H]; [by apply MAltL | by apply MAltR].
    + by intros ?%Matches_Alt_inv.
  - split; [constructor | done].
Qed.

Lemma deriv_spec r c s : Matches (deriv c r) s ↔ Matches r (c :: s).
Proof.
  revert s. induction r as [| |p|r1 IH1 r2 IH2|r1 IH1 r2 IH2|r IH];
    intros s; simpl.
  - split; intros H; by apply Matches_Void_inv in H.
  - split; [by intros ?%Matches_Void_inv | by intros ?%Matches_Eps_inv].
  - split.
    + destruct (p c) eqn:Hp; [|by intros ?%Matches_Void_inv].
      intros ->%Matches_Eps_inv. by constructor.
    + intros (c' & [= -> ->] & Hp)%Matches_Sym_inv. rewrite Hp. constructor.
  - split.
    + intros H.
      assert (Matches (Cat (deriv c r1) r2) s → Matches (Cat r1 r2) (c :: s))
        as Hcat.
      { intros (s1 & s2 & -> & H1 & H2)%Matches_Cat_inv.
        apply IH1 in H1. by apply (MCat _ _ (c :: s1) s2). }
      destruct (nullable r1) eqn:Hn; [|by apply Hcat].
      apply Matches_Alt_inv in H as [H|H]; [by apply Hcat|].
      apply nullable_spec in Hn. apply IH2 in H.
      by apply (MCat _ _ [] (c :: s)).
    + intros (s1 & s2 & Hs & H1 & H2)%Matches_Cat_inv.
      destruct s1 as [|c1 s1]; simpl in Hs.
      * subst s2. apply nullable_spec in H1. rewrite H1.
        apply MAltR. by apply IH2.
      * injection Hs as <- ->. apply IH1 in H1.
        pose proof (MCat _ _ _ _ H1 H2) as H.
        destruct (nullable r1); [by apply MAltL | done].
  - split.
    + intros [H|H]%Matches_Alt_inv;
        [apply MAltL, IH1, H | apply MAltR, IH2, H].
    + intros [H|H]%Matches_Alt_inv;
        [apply MAltL, IH1, H | apply MAltR, IH2, H].
  - split.
    + intros (s1 & s2 & -> & H1 & H2)%Matches_Cat_inv.
      apply IH in H1. by apply (MStarS _ (c :: s1) s2).
    + intros (s1 & s2 & -> & H1 & H2)%Matches_Star_cons.
      apply IH in H1. by constructor.
Qed.

Lemma match_prefix_spec r s :
  match_prefix r s = true ↔ ∃ s1 s2, s = s1 ++ s2 ∧ Matches r s1.
Proof.
  revert r. induction s as [|c s IH]; intros r; simpl.
  - rewrite orb_false_r, nullable_spec. split.
    + intros H. by exists [], [].
    + intros (s1 & s2 & Hs & H). symmetry in Hs.
      apply app_eq_nil in Hs as [-> _]. done.
  - rewrite orb_true_iff, nullable_spec, IH. split.
    + intros [H|(s1 & s2 & -> & H)].
      * by exists [], (c :: s).
      * exists (c :: s1), s2. split; [done|]. by apply deriv_spec.
    + intros (s1 & s2 & Hs & H). destruct s1 as [|c1 s1]; simpl in Hs.
      * by left.
      * injection Hs as <- ->. right. exists s1, s2. split; [done|].
        by apply deriv_spec.
Qed.

(** [search] is truthy exactly on the lines with a substring in the
    language. *)
Lemma search_spec r s :
  search r s = true ↔ ∃ s0 s1 s2, s = s0 ++ s1 ++ s2 ∧ Matches r s1.
Proof.
  induction s as [|c s IH].
  - change (search r []) with (match_prefix r [] || false).
    rewrite orb_false_r, match_prefix_spec. split.
    + intros (s1 & s2 & Hs & H). by exists [], s1, s2.
    + intros (s0 & s1 & s2 & Hs & H). symmetry in Hs.
      apply app_eq_nil in Hs as [-> Hs]. eauto.
  - change (search r (c :: s)) with (match_prefix r (c :: s) || search r s).
    rewrite orb_true_iff, match_prefix_spec, IH. split.
    + intros [(s1 & s2 & Hs & H)|(s0 & s1 & s2 & -> & H)].
      * by exists [], s1, s2.
      * by exists (c :: s0), s1, s2.
    + intros (s0 & s1 & s2 & Hs & H). destruct s0 as [|c0 s0]; simpl in Hs.
      * left. eauto.
      * injection Hs as <- ->. right. eauto.
Qed.

Lemma search_mono r r' s :
  (∀ w, Matches r w → Matches r' w) → search r s = true → search r' s = true.
Proof.
  intros Hsub (s0 & s1 & s2 & -> & H)%search_spec.
  apply search_spec. exists s0, s1, s2. auto.
Qed.

Lemma Matches_Lit s w : Matches (Lit s) w ↔ w = s.
Proof.
  revert w. induction s as [|c s IH]; intros w; simpl.
  - split; [by intros ?%Matches_Eps_inv | intros ->; constructor].
  - split.
    + intros (s1 & s2 & -> & (c' & -> & Hc)%Matches_Sym_inv & H2)%Matches_Cat_inv.
      apply IH in H2 as ->. apply N.eqb_eq in Hc as ->. done.
    + intros ->. apply (MCat _ _ [c] s); [|by apply IH].
      constructor. apply N.eqb_refl.
Qed.
End RegexLanguage.

(** ** The error classifier *)

Section Classifier.
Context (line : Z) (line_content filename : str)
        (original_exception : option CompositeParserException).
Implicit Types (patterns : list error_pattern) (p : error_pattern)
               (error_line : str) (error_lines : list str).
Abbreviation raised p :=
  (classified p line line_content filename original_exception).

Lemma try_patterns_cons p patterns error_line :
  try_patterns (p :: patterns) error_line line line_content filename
    original_exception
  = if search (pattern p) error_line then Raise (raised p)
    else try_patterns patterns error_line line line_content filename
           original_exception.
Proof.
  unfold classified. cbn [try_patterns].
  destruct (search (pattern p) error_line); [|done].
  by destruct original_exception.
Qed.

Lemma try_patterns_unmatched patterns error_line :
  (∀ p, p ∈ patterns → search (pattern p) error_line = false) →
  try_patterns patterns error_line line line_content filename
    original_exception = Ok tt.
Proof.
  induction patterns as [|p patterns IH]; intros Hno; [done|].
  rewrite try_patterns_cons, (Hno p) by apply list_elem_of_here.
  apply IH. intros p' Hp'. apply Hno. by apply list_elem_of_further.
Qed.

Lemma try_patterns_first_match patterns error_line j p :
  patterns !! j = Some p →
  search (pattern p) error_line = true →
  (∀ j' p', j' < j → patterns !! j' = Some p' →
     search (pattern p') error_line = false) →
  try_patterns patterns error_line line line_content filename
    original_exception = Raise (raised p).
Proof.
  revert j. induction patterns as [|q patterns IH]; intros j Hj Hp Hbefore;
    [done|].
  rewrite try_patterns_cons. destruct j as [|j]; simpl in Hj.
  - injection Hj as ->. by rewrite Hp.
  - rewrite (Hbefore 0 q) by (done || lia).
    apply (IH j); [done..|]. intros j' p' Hlt Hj'.
    apply (Hbefore (S j') p'); [lia | done].
Qed.

(** Whatever the inner loop raises is the exception of the first rule
    found in the line. *)
Lemma try_patterns_raise patterns error_line e :
  try_patterns patterns error_line line line_content filename
    original_exception = Raise e →
  ∃ j p, patterns !! j = Some p ∧ search (pattern p) error_line = true ∧
    (∀ j' p', j' < j → patterns !! j' = Some p' →
       search (pattern p') error_line = false) ∧
    e = raised p.
Proof.
  induction patterns as [|q patterns IH]; [done|].
  rewrite try_patterns_cons. destruct (search (pattern q) error_line) eqn:Hq.
  - intros [= <-]. exists 0, q. repeat split; [done..|]. intros; lia.
  - intros (j & p & Hj & Hp & Hbefore & ->)%IH. exists (S j), p.
    repeat split; [done..|]. intros [|j'] p' Hlt Hj'; simpl in Hj'.
    + by injection Hj' as <-.
    + apply (Hbefore j'); [lia | done].
Qed.

Lemma check_lines_unmatched patterns error_lines :
  (∀ error_line p, error_line ∈ error_lines → p ∈ patterns →
     search (pattern p) error_line = false) →
  check_lines patterns error_lines line line_content filename
    original_exception = Ok tt.
Proof.
  induction error_lines as [|l error_lines IH]; intros Hno; [done|].
  cbn [check_lines]. rewrite try_patterns_unmatched.
  - apply IH. intros l' p Hl' Hp. apply Hno; [by apply list_elem_of_further | done].
  - intros p Hp. apply Hno; [apply list_elem_of_here | done].
Qed.

Lemma check_lines_first_match patterns error_lines i j error_line p :
  error_lines !! i = Some error_line →
  patterns !! j = Some p →
  search (pattern p) error_line = true →
  (∀ j' p', j' < j → patterns !! j' = Some p' →
     search (pattern p') error_line = false) →
  (∀ i' l' p', i' < i → error_lines !! i' = Some l' → p' ∈ patterns →
     search (pattern p') l' = false) →
  check_lines patterns error_lines line line_content filename
    original_exception = Raise (raised p).
Proof.
  revert i. induction error_lines as [|l error_lines IH];
    intros i Hi Hj Hp Hrules Hlines; [done|].
  cbn [check_lines]. destruct i as [|i]; simpl in Hi.
  - injection Hi as ->.
    by rewrite (try_patterns_first_match _ _ j p).
  - rewrite try_patterns_unmatched.
    + apply (IH i); [done..|]. intros i' l' p' Hlt Hi' Hp'.
      apply (Hlines (S i') l' p'); [lia | done..].
    + intros p' Hp'. apply (Hlines 0 l p'); [lia | done..].
Qed.

Lemma check_lines_raise patterns error_lines e :
  check_lines patterns error_lines line line_content filename
    original_exception = Raise e →
  ∃ error_line, error_line ∈ error_lines ∧
    try_patterns patterns error_line line line_content filename
      original_exception = Raise e.
Proof.
  induction error_lines as [|l error_lines IH]; [done|].
  cbn [check_lines].
  destruct (try_patterns patterns l line line_content filename
              original_exception) as [[]|e'] eqn:Hl; simpl.
  - intros (l' & Hl' & He)%IH. exists l'. split; [|done].
    by apply list_elem_of_further.
  - intros [= <-]. exists l. split; [apply list_elem_of_here | done].
Qed.
End Classifier.

(** The step-structure pattern finds nothing that the step-outside-scenario
    pattern does not find. *)
Lemma step_pattern_included (p2 p5 : error_pattern) (error_line : str) :
  ERROR_PATTERNS !! 1 = Some p2 →
  ERROR_PATTERNS !! 4 = Some p5 →
  search (pattern p5) error_line = true →
  search (pattern p2) error_line = true.
Proof.
  intros H2 H5. pattern_entry H2. pattern_entry H5. subst p2 p5.
  cbn [pattern]. apply search_mono. intros w. cbn [Seq Alts].
  intros (w1 & ? & -> & H1 & H)%Matches_Cat_inv.
  apply Matches_Cat_inv in H as (w2 & ? & -> & H2 & H).
  apply Matches_Cat_inv in H as (w3 & ? & -> & H3 & H).
  apply Matches_Cat_inv in H as (w4 & w5 & -> & H4 & H5).
  apply Matches_Lit in H3 as ->.
  apply (MCat _ _ w1); [done|]. apply (MCat _ _ w2); [done|].
  apply (Matches_Cat_intro _ _ (pystr "got '") (pystr "Given" ++ w4 ++ w5));
    [by apply Matches_Lit | | done].
  apply (MCat _ _ (pystr "Given")); [|by apply (MCat _ _ w4)].
  apply MAltL. by apply Matches_Lit.
Qed.

Lemma step_error_position (j : nat) (p : error_pattern) :
  ERROR_PATTERNS !! j = Some p → exception p = StepError → j = 4.
Proof.
  intros Hj Hp.
  do 7 (destruct j as [|j]; [pattern_entry Hj; subst p; done || discriminate Hp|]).
  done.
Qed.

Lemma unmatched_by_search (patterns : list error_pattern) (error_line : str) :
  forallb (fun p => negb (search (pattern p) error_line)) patterns = true →
  ∀ p, p ∈ patterns → search (pattern p) error_line = false.
Proof.
  intros Hall p Hp. rewrite forallb_forall in Hall.
  apply list_elem_of_In, Hall, negb_true_iff in Hp. done.
Qed.

(** C5: the classifier splits the diagnostic into lines and scans them in
    order, trying on each line the rules in the order multiple-features,
    step-outside-scenario, duplicate-background, scenario-structure,
    step-structure, rule-structure, unexpected-token.  For the first line
    [i] on which some rule is found, and the first rule [j] found on it, it
    raises the exception class of that rule with the rule's fixed hint, the
    given line number, the given source-line text and the file name, with
    the original exception as its cause. *)
Theorem classifier_first_match (raw_error : str) (line : Z)
    (line_content filename : str) (original : CompositeParserException)
    (i j : nat) (error_line : str) (p : error_pattern) :
  splitlines raw_error !! i = Some error_line →
  ERROR_PATTERNS !! j = Some p →
  search (pattern p) error_line = true →
  (∀ j' p', j' < j → ERROR_PATTERNS !! j' = Some p' →
     search (pattern p') error_line = false) →
  (∀ i' l' p', i' < i → splitlines raw_error !! i' = Some l' →
     p' ∈ ERROR_PATTERNS → search (pattern p') l' = false) →
  map exception ERROR_PATTERNS
    = [FeatureError; FeatureError; BackgroundError; ScenarioError;
       StepError; RuleError; TokenError] ∧
  handle_gherkin_parser_error raw_error line line_content filename
    (Some original)
  = Raise (GherkinError (exception p) (hint p) line line_content filename
             (Some original)).
Proof.
  intros Hi Hj Hp Hrules Hlines. split; [reflexivity|].
  unfold handle_gherkin_parser_error.
  by apply (check_lines_first_match _ _ _ _ _ _ i j error_line p).
Qed.

(** A diagnostic of two lines: nothing is found in the first, and the
    second is classified by the step-outside-scenario rule. *)
Lemma classifier_first_match_witness :
  handle_gherkin_parser_error
    (pystr "Parser errors:" ++ [10%N] ++ pystr "(2:1): expected: #EOF, got 'Given x'")
    2 (pystr "Given x") (pystr "a.feature")
    (Some {| args0 := pystr "Parser errors:"; errors := [{| pe_line := 2 |}] |})
  = Raise (GherkinError FeatureError
             (pystr "Step definition outside of a Scenario or a Background.")
             2 (pystr "Given x") (pystr "a.feature")
             (Some {| args0 := pystr "Parser errors:";
                      errors := [{| pe_line := 2 |}] |})).
Proof.
  refine (proj2 (classifier_first_match _ 2 _ _ _ 1 1
                   (pystr "(2:1): expected: #EOF, got 'Given x'")
                   {| pattern := _; exception := FeatureError; hint := _ |}
                   _ _ _ _ _)).
  - vm_compute. reflexivity.
  - reflexivity.
  - vm_compute. reflexivity.
  - intros [|j'] p' Hlt Hj'; [|lia]. pattern_entry Hj'. subst p'.
    vm_compute. reflexivity.
  - intros [|i'] l' p' Hlt Hi'; [|lia].
    assert (l' = pystr "Parser errors:") as ->.
    { vm_compute in Hi'. injection Hi' as <-. reflexivity. }
    apply unmatched_by_search. vm_compute. reflexivity.
Defined.

(** C9: the step-structure rule is never the one that raises.  Every line
    in which the step-structure pattern (the fifth rule, of class
    [StepError]) is found is a line in which the step-outside-scenario
    pattern (the second rule) is found, and the earlier rule wins; so no
    diagnostic makes the classifier raise [StepError]. *)
Theorem step_error_unreachable (raw_error : str) (line : Z)
    (line_content filename : str)
    (original_exception : option CompositeParserException) :
  (∀ p2 p5 error_line,
     ERROR_PATTERNS !! 1 = Some p2 → ERROR_PATTERNS !! 4 = Some p5 →
     exception p5 = StepError ∧
     (search (pattern p5) error_line = true →
      search (pattern p2) error_line = true)) ∧
  (∀ p, p ∈ ERROR_PATTERNS → exception p = StepError →
     ERROR_PATTERNS !! 4 = Some p) ∧
  ∀ message l lc fn cause,
    handle_gherkin_parser_error raw_error line line_content filename
      original_exception
    ≠ Raise (GherkinError StepError message l lc fn cause).
Proof.
  split; [|split].
  - intros p2 p5 error_line H2 H5. split.
    + pattern_entry H5. by subst p5.
    + by apply step_pattern_included.
  - intros p (j & Hj)%list_elem_of_lookup Hp.
    by rewrite <- (step_error_position j p Hj Hp).
  - intros message l lc fn cause Hraise.
    unfold handle_gherkin_parser_error in Hraise.
    apply check_lines_raise in Hraise as (error_line & _ & Hraise).
    apply try_patterns_raise in Hraise as (j & p & Hj & Hp & Hbefore & He).
    injection He as He _ _ _ _ _. symmetry in He.
    pose proof (step_error_position j p Hj He) as ->.
    assert (∃ p2, ERROR_PATTERNS !! 1 = Some p2) as [p2 H2]
      by (eexists; reflexivity).
    pose proof (step_pattern_included p2 p error_line H2 Hj Hp) as Hfound.
    rewrite (Hbefore 1 p2) in Hfound; [done | lia | done].
Qed.

(** ** The loader *)

(** C6: when the external parser fails and no line of its diagnostic is
    matched by any rule, the classifier returns without raising, and the
    loader raises the generic [GherkinParseError] whose message wraps the
    original message, with the line number of the first sub-error, the text
    of that line of the file, and the path, its cause being the composite
    exception of the parser. *)
Theorem unclassified_failure_is_generic `{Externals}
    (abs_filename encoding feature_file_text : str)
    (e : CompositeParserException) (error0 : ParserException)
    (more : list ParserException) :
  read_text abs_filename encoding = Ok feature_file_text →
  parse feature_file_text = inr e →
  errors e = error0 :: more →
  (∀ error_line p, error_line ∈ splitlines (args0 e) → p ∈ ERROR_PATTERNS →
     search (pattern p) error_line = false) →
  let line := pe_line error0 in
  let line_content := rstrip_char 10 (getline abs_filename line) in
  handle_gherkin_parser_error (args0 e) line line_content abs_filename (Some e)
    = Ok tt ∧
  get_gherkin_document abs_filename encoding
    = Raise (GherkinError GherkinParseError
               (pystr "Unknown parsing error: " ++ args0 e)
               line line_content abs_filename (Some e)).
Proof.
  intros Hread Hparse Herrors Hno line line_content.
  assert (handle_gherkin_parser_error (args0 e) line line_content
            abs_filename (Some e) = Ok tt) as Hhandle.
  { unfold handle_gherkin_parser_error. by apply check_lines_unmatched. }
  split; [done|].
  unfold get_gherkin_document. rewrite Hread. cbn [bind].
  rewrite Hparse, Herrors. cbn [index lookup list_lookup bind].
  fold line. fold line_content. by rewrite Hhandle.
Qed.

Lemma unclassified_failure_is_generic_witness :
  @get_gherkin_document failing_world (pystr "a.feature") default_encoding
  = Raise (GherkinError GherkinParseError
             (pystr "Unknown parsing error: Parser errors:" ++ [10%N]
                ++ pystr "(1:1): inconsistent cell count within the table")
             1 (pystr "Feature") (pystr "a.feature")
             (Some unrecognised_failure)).
Proof.
  refine (proj2 (@unclassified_failure_is_generic failing_world
                   (pystr "a.feature") default_encoding (pystr "Feature")
                   unrecognised_failure {| pe_line := 1 |} [] _ _ _ _)).
  - reflexivity.
  - reflexivity.
  - reflexivity.
  - intros error_line p Hline. revert p. apply unmatched_by_search.
    vm_compute in Hline.
    apply elem_of_cons in Hline as [->|Hline]; [by vm_compute|].
    apply elem_of_cons in Hline as [->|Hline]; [by vm_compute|].
    by apply not_elem_of_nil in Hline.
Defined.

(** ** [DataTable.transpose] *)

Section Transpose.
Implicit Types (T : DataTable.t) (m : list (list Cell.t)) (row : list Cell.t).

Lemma cell_at_lookup row i :
  cell_at i row = default DataTable.empty_cell (row !! i).
Proof.
  unfold cell_at. destruct (Nat.ltb_spec i (length row)) as [Hlt|Hge]; [done|].
  by rewrite lookup_ge_None_2.
Qed.

Lemma column_loop_spec i m acc :
  DataTable.column_loop i m acc = acc ++ (cell_at i <$> m).
Proof.
  revert acc. induction m as [|row m IH]; intros acc; simpl.
  - by rewrite app_nil_r.
  - rewrite IH, <- (assoc_L (++)). done.
Qed.

(** The row that [transpose] builds for the column [i]. *)
Lemma row_loop_spec T m idxs acc :
  DataTable.row_loop T m idxs acc
  = acc ++ ((fun i => Row.mk (RStr (str_of_nat i)) (DataTable.location T)
                        (cell_at i <$> m)) <$> idxs).
Proof.
  revert acc. induction idxs as [|i idxs IH]; intros acc; simpl.
  - by rewrite app_nil_r.
  - rewrite IH, <- (assoc_L (++)), column_loop_spec. done.
Qed.

Lemma foldl_max_bounds (n : nat) (ns : list nat) :
  n ≤ foldl Nat.max n ns ∧
  (∀ k, k ∈ ns → k ≤ foldl Nat.max n ns) ∧
  foldl Nat.max n ns ∈ n :: ns.
Proof.
  revert n. induction ns as [|k ns IH]; intros n; simpl.
  - split; [done|]. split; [by intros k ?%elem_of_nil | apply list_elem_of_here].
  - destruct (IH (n `max` k)) as (Hle & Hall & Hin). split; [lia|]. split.
    + intros k' [->|Hk']%elem_of_cons; [lia | by apply Hall].
    + apply elem_of_cons in Hin as [Heq|Hin].
      * rewrite Heq. destruct (Nat.max_spec n k) as [[_ ->]|[_ ->]].
        -- apply list_elem_of_further, list_elem_of_here.
        -- apply list_elem_of_here.
      * by do 2 apply list_elem_of_further.
Qed.

(** [max_columns] is the greatest row length of a matrix with a row. *)
Lemma max_columns_spec m :
  m ≠ [] →
  (∀ row, row ∈ m → length row ≤ DataTable.max_columns m) ∧
  (∃ row, row ∈ m ∧ length row = DataTable.max_columns m).
Proof.
  destruct m as [|row0 m]; [done|]. intros _. unfold DataTable.max_columns.
  rewrite fmap_cons.
  destruct (foldl_max_bounds (length row0) (length <$> m)) as (H0 & Hall & Hin).
  split.
  - intros row [->|Hrow]%elem_of_cons; [done|].
    apply Hall. by apply list_elem_of_fmap_2.
  - apply elem_of_cons in Hin as [Heq|Hin].
    + exists row0. split; [apply list_elem_of_here | done].
    + apply list_elem_of_fmap in Hin as (row & Heq & Hrow).
      exists row. split; [by apply list_elem_of_further | done].
Qed.

Lemma transpose_rows T :
  DataTable.rows T ≠ [] →
  DataTable.transpose T
  = DataTable.mk (DataTable.location T)
      ((fun i => Row.mk (RStr (str_of_nat i)) (DataTable.location T)
                   (cell_at i <$> (Row.cells <$> DataTable.rows T)))
         <$> seq 0 (DataTable.max_columns (Row.cells <$> DataTable.rows T))).
Proof.
  intros Hrows. unfold DataTable.transpose.
  destruct (DataTable.rows T) as [|r rs] eqn:Hr; [done|].
  cbv zeta. by rewrite row_loop_spec.
Qed.
End Transpose.

(** C1: [transpose] returns the table itself when it has no rows.
    Otherwise, with [max_columns] the greatest number of cells of a row,
    the result has one row per column index below [max_columns]; row [i]
    has the decimal numeral of [i] as its [id], the location of the table
    as its [location], and one cell per input row, in the order of the
    rows: the cell of that row at index [i] when the row has one, and a
    cell with the empty value at [Location(0, 0)] when it has not. *)
Theorem transpose_spec (T : DataTable.t) :
  (DataTable.rows T = [] → DataTable.transpose T = T) ∧
  (DataTable.rows T ≠ [] →
   ∃ max_columns,
     (∀ row, row ∈ DataTable.rows T → length (Row.cells row) ≤ max_columns) ∧
     (∃ row, row ∈ DataTable.rows T ∧ length (Row.cells row) = max_columns) ∧
     DataTable.location (DataTable.transpose T) = DataTable.location T ∧
     length (DataTable.rows (DataTable.transpose T)) = max_columns ∧
     ∀ i, i < max_columns →
       ∃ out, DataTable.rows (DataTable.transpose T) !! i = Some out ∧
         Row.id out = RStr (str_of_nat i) ∧
         Row.location out = DataTable.location T ∧
         length (Row.cells out) = length (DataTable.rows T) ∧
         ∀ k row, DataTable.rows T !! k = Some row →
           Row.cells out !! k
           = Some (match Row.cells row !! i with
                   | Some cell => cell
                   | None => Cell.mk (Location.mk (RInt 0) (RInt 0)) []
                   end)).
Proof.
  split.
  - intros Hrows. unfold DataTable.transpose. by rewrite Hrows.
  - intros Hrows. rewrite (transpose_rows T Hrows). cbn [DataTable.location DataTable.rows].
    set (m := Row.cells <$> DataTable.rows T).
    assert (m ≠ []) as Hm by (subst m; by destruct (DataTable.rows T)).
    destruct (max_columns_spec m Hm) as (Hall & row & Hrow & Hlen).
    exists (DataTable.max_columns m). split; [|split; [|split; [|split]]].
    + intros r Hr. apply Hall. subst m. by apply list_elem_of_fmap_2.
    + subst m. apply list_elem_of_fmap in Hrow as (r & -> & Hr). eauto.
    + done.
    + by rewrite length_fmap, length_seq.
    + intros i Hi. eexists. split.
      { rewrite list_lookup_fmap, lookup_seq_lt by done. reflexivity. }
      cbn [Row.id Row.location Row.cells]. split; [done|]. split; [done|]. split.
      { subst m. by rewrite !length_fmap. }
      intros k r Hk. subst m.
      rewrite !list_lookup_fmap, Hk. cbn [fmap option_fmap option_map].
      by rewrite cell_at_lookup.
Qed.

(** *** Transposing twice *)

Section TransposeTwice.
Implicit Types (T : DataTable.t) (m : list (list Cell.t)).

Lemma transpose_matrix T :
  DataTable.rows T ≠ [] →
  Row.cells <$> DataTable.rows (DataTable.transpose T)
  = transposed_matrix (Row.cells <$> DataTable.rows T).
Proof.
  intros Hrows. rewrite (transpose_rows T Hrows). cbn [DataTable.rows].
  unfold transposed_matrix. rewrite <- list_fmap_compose. done.
Qed.

Lemma max_columns_uniform m n :
  m ≠ [] → (∀ row, row ∈ m → length row = n) → DataTable.max_columns m = n.
Proof.
  intros Hm Hall. destruct (max_columns_spec m Hm) as (_ & row & Hrow & <-).
  by apply Hall.
Qed.

(** On a matrix of [n] rows of [c] cells each, with [c] positive,
    transposition is an involution. *)
Lemma transposed_matrix_twice m c :
  m ≠ [] → 0 < c → (∀ row, row ∈ m → length row = c) →
  transposed_matrix (transposed_matrix m) = m.
Proof.
  intros Hm Hc Hall.
  assert (DataTable.max_columns m = c) as Hmax by by apply max_columns_uniform.
  assert (transposed_matrix m ≠ []) as Hm'.
  { unfold transposed_matrix. rewrite Hmax. destruct c; [lia | done]. }
  assert (DataTable.max_columns (transposed_matrix m) = length m) as Hmax'.
  { apply max_columns_uniform; [done|]. unfold transposed_matrix.
    intros row (i & -> & _)%list_elem_of_fmap. by rewrite length_fmap. }
  unfold transposed_matrix at 1. rewrite Hmax'. apply list_eq. intros k.
  rewrite list_lookup_fmap. destruct (m !! k) as [row|] eqn:Hk.
  - rewrite lookup_seq_lt by (by eapply lookup_lt_Some). cbn.
    f_equal. apply list_eq. intros i.
    unfold transposed_matrix. rewrite Hmax, <- list_fmap_compose, list_lookup_fmap.
    assert (length row = c) as Hrow by (by eapply Hall, list_elem_of_lookup_2).
    destruct (row !! i) as [cell|] eqn:Hi.
    + rewrite lookup_seq_lt by (rewrite <- Hrow; by eapply lookup_lt_Some).
      cbn. rewrite !cell_at_lookup, list_lookup_fmap, Hk. cbn.
      by rewrite cell_at_lookup, Hi.
    + rewrite lookup_seq_ge; [done|]. rewrite <- Hrow. by apply lookup_ge_None.
  - rewrite lookup_seq_ge; [done|]. by apply lookup_ge_None.
Qed.
End TransposeTwice.

Lemma grid_cells (T : DataTable.t) :
  grid T = fmap Cell.value <$> (Row.cells <$> DataTable.rows T).
Proof. unfold grid. by rewrite <- list_fmap_compose. Qed.

(** C2, as the code has it: transposing twice restores the cells, and so
    the grid of values, of every rectangular table that has no rows or
    whose rows have at least one cell.  (A table of rows without cells
    transposes to a table without rows.) *)
Theorem transpose_twice_restores_grid (T : DataTable.t) :
  rectangular T →
  (DataTable.rows T = [] ∨ ∃ row, row ∈ DataTable.rows T ∧ Row.cells row ≠ []) →
  Row.cells <$> DataTable.rows (DataTable.transpose (DataTable.transpose T))
    = Row.cells <$> DataTable.rows T ∧
  grid (DataTable.transpose (DataTable.transpose T)) = grid T.
Proof.
  intros Hrect Hshape.
  assert (Row.cells <$> DataTable.rows (DataTable.transpose (DataTable.transpose T))
          = Row.cells <$> DataTable.rows T) as Hcells.
  { destruct Hshape as [Hnil|(row0 & Hrow0 & Hcells0)].
    - assert (DataTable.transpose T = T) as Hsame
        by (unfold DataTable.transpose; by rewrite Hnil).
      by rewrite !Hsame.
    - assert (DataTable.rows T ≠ []) as Hrows
        by (intros Hnil; rewrite Hnil in Hrow0; by apply elem_of_nil in Hrow0).
      set (c := length (Row.cells row0)).
      assert (0 < c) as Hc by (subst c; destruct (Row.cells row0); [done | simpl; lia]).
      assert (∀ row, row ∈ Row.cells <$> DataTable.rows T → length row = c) as Hall.
      { intros row (r & -> & Hr)%list_elem_of_fmap. by apply Hrect. }
      assert (Row.cells <$> DataTable.rows T ≠ []) as Hm
        by (by destruct (DataTable.rows T)).
      assert (DataTable.rows (DataTable.transpose T) ≠ []) as Hrows'.
      { intros Hnil. pose proof (transpose_matrix T Hrows) as Heq.
        rewrite Hnil in Heq. unfold transposed_matrix in Heq.
        rewrite (max_columns_uniform _ c Hm Hall) in Heq.
        destruct c; [lia | done]. }
      rewrite (transpose_matrix _ Hrows'), (transpose_matrix _ Hrows).
      by apply (transposed_matrix_twice _ c). }
  split; [done|]. by rewrite !grid_cells, Hcells.
Qed.

Lemma rectangular_check (T : DataTable.t) (n : nat) :
  forallb (fun row => length (Row.cells row) =? n) (DataTable.rows T) = true →
  rectangular T.
Proof.
  rewrite forallb_forall. intros Hall r1 r2 H1%list_elem_of_In H2%list_elem_of_In.
  apply Hall, Nat.eqb_eq in H1. apply Hall, Nat.eqb_eq in H2. congruence.
Qed.

Lemma transpose_twice_restores_grid_witness :
  grid (DataTable.transpose (DataTable.transpose sample_table))
  = [[pystr "a"; pystr "b"]; [pystr "1"; pystr "2"]].
Proof.
  refine (eq_trans (proj2 (transpose_twice_restores_grid sample_table _ _)) _).
  - by apply (rectangular_check _ 2).
  - right. eexists. split; [apply list_elem_of_here | done].
  - reflexivity.
Defined.

(** The claim as the specification states it, for every rectangular table,
    fails on a table whose only row has no cells: its transpose has no
    rows, and the transpose of that is again the table without rows. *)
Lemma transpose_twice_loses_cellless_rows :
  ¬ (∀ T : DataTable.t, rectangular T →
       grid (DataTable.transpose (DataTable.transpose T)) = grid T).
Proof.
  intros Hclaim. specialize (Hclaim cellless_table).
  assert (rectangular cellless_table) as Hrect by by apply (rectangular_check _ 0).
  apply Hclaim in Hrect. vm_compute in Hrect. discriminate Hrect.
Qed.

Example transpose_ragged :
  grid (DataTable.transpose ragged_table)
  = [[pystr "a"; pystr "1"]; [pystr "b"; []]].
Proof. reflexivity. Qed.

(** ** [DataTable.to_dict] *)

Section Zip.
Context {A : Type}.
Implicit Types (l first : list A) (ls others : list (list A)).

Lemma heads_spec ls : heads ls = mapM (fun l => l !! 0) ls.
Proof.
  induction ls as [|l ls IH]; [done|]. cbn [heads]. rewrite IH.
  destruct l as [|x l]; [done|]. simpl. by destruct (mapM _ ls).
Qed.

Lemma mapM_lookup_drop ls i :
  mapM (fun l => l !! i) (drop 1 <$> ls) = mapM (fun l => l !! S i) ls.
Proof.
  induction ls as [|l ls IH]; [done|]. rewrite fmap_cons. simpl.
  rewrite IH. by rewrite lookup_drop.
Qed.

Lemma mapM_lookup_heads_None ls i :
  mapM (fun l => l !! 0) ls = None → mapM (fun l => l !! i) ls = None.
Proof.
  rewrite !mapM_None. intros Hex. apply (Exists_impl _ _ _ Hex). intros l Hl.
  apply lookup_ge_None in Hl. apply lookup_ge_None. lia.
Qed.

(** The tuple [i] of [zip] holds the items [i] of all the lists, and
    exists exactly when each list has one. *)
Lemma zip_from_lookup first others i :
  zip_from first others !! i = mapM (fun l => l !! i) (first :: others).
Proof.
  revert others i. induction first as [|x first IH]; intros others i; [done|].
  cbn [zip_from]. rewrite heads_spec.
  destruct (mapM (fun l => l !! 0) others) as [hs|] eqn:Hheads.
  - destruct i as [|i].
    + simpl. by rewrite Hheads.
    + simpl. rewrite IH. simpl. by rewrite mapM_lookup_drop.
  - pose proof (mapM_lookup_heads_None others i Hheads) as Hnone.
    simpl. rewrite Hnone. by destruct ((x :: first) !! i).
Qed.

Lemma zip_star_lookup ls i :
  ls ≠ [] → zip_star ls !! i = mapM (fun l => l !! i) ls.
Proof. destruct ls as [|first others]; [done|]. intros _. apply zip_from_lookup. Qed.

Lemma zip_star_lookup_is_Some ls i :
  ls ≠ [] → is_Some (zip_star ls !! i) ↔ ∀ l, l ∈ ls → i < length l.
Proof.
  intros Hls. rewrite zip_star_lookup, mapM_is_Some, Forall_forall by done.
  split; intros Hall l Hl.
  - by apply lookup_lt_is_Some, Hall.
  - by apply lookup_lt_is_Some, Hall.
Qed.
End Zip.

Section DictLoop.
Implicit Types (header : list str) (tv : list (list str)) (idxs : list nat)
               (acc : gmap str (list str)).

Lemma dict_loop_cons header tv i idxs acc key values :
  header !! i = Some key → tv !! i = Some values →
  DataTable.dict_loop header tv (i :: idxs) acc
  = DataTable.dict_loop header tv idxs (<[key := values]> acc).
Proof. intros Hk Hv. cbn [DataTable.dict_loop]. unfold index. by rewrite Hk, Hv. Qed.

(** The loop fails only with [IndexError]. *)
Lemma dict_loop_Raise header tv idxs acc e :
  DataTable.dict_loop header tv idxs acc = Raise e → e = IndexError.
Proof.
  revert acc. induction idxs as [|i idxs IH]; intros acc; [done|].
  cbn [DataTable.dict_loop]. unfold index.
  destruct (header !! i) as [key|]; [|by intros [= <-]]. cbn [bind].
  destruct (tv !! i) as [values|]; [|by intros [= <-]]. cbn [bind].
  apply IH.
Qed.

(** The loop succeeds exactly when every index is in range of both
    lists. *)
Lemma dict_loop_Ok header tv idxs acc :
  (∃ result_dict, DataTable.dict_loop header tv idxs acc = Ok result_dict)
  ↔ ∀ i, i ∈ idxs → is_Some (header !! i) ∧ is_Some (tv !! i).
Proof.
  revert acc. induction idxs as [|i idxs IH]; intros acc.
  - split; [by intros _ i ?%elem_of_nil | by eexists].
  - cbn [DataTable.dict_loop]. unfold index. split.
    + intros [m Hm] j Hj.
      destruct (header !! i) as [key|] eqn:Hk; [|done]. cbn [bind] in Hm.
      destruct (tv !! i) as [values|] eqn:Hv; [|done]. cbn [bind] in Hm.
      apply elem_of_cons in Hj as [->|Hj].
      * by rewrite Hk, Hv.
      * eapply IH; [by eexists | done].
    + intros Hall.
      destruct (Hall i) as [[key Hk] [values Hv]]; [apply list_elem_of_here|].
      rewrite Hk, Hv. cbn [bind]. apply IH. intros j Hj.
      apply Hall. by apply list_elem_of_further.
Qed.

(** What the resulting dictionary holds: a key that no index names keeps
    its entry, and a key named by some index holds the values of the last
    index that names it. *)
Lemma dict_loop_lookup header tv idxs acc result_dict :
  DataTable.dict_loop header tv idxs acc = Ok result_dict →
  (∀ key, (∀ i, i ∈ idxs → header !! i ≠ Some key) →
     result_dict !! key = acc !! key) ∧
  (∀ key before i after, idxs = before ++ i :: after →
     header !! i = Some key →
     (∀ j, j ∈ after → header !! j ≠ Some key) →
     result_dict !! key = tv !! i).
Proof.
  revert acc. induction idxs as [|i0 idxs IH]; intros acc Hloop.
  - injection Hloop as <-. split; [done|].
    intros key [|? ?] i after Heq; discriminate Heq.
  - cbn [DataTable.dict_loop] in Hloop. unfold index in Hloop.
    destruct (header !! i0) as [key0|] eqn:Hk0; [|done]. cbn [bind] in Hloop.
    destruct (tv !! i0) as [values0|] eqn:Hv0; [|done]. cbn [bind] in Hloop.
    destruct (IH _ Hloop) as [IHa IHb]. split.
    + intros key Hfresh. rewrite IHa.
      * apply lookup_insert_ne. intros ->.
        by apply (Hfresh i0); [apply list_elem_of_here|].
      * intros i Hi. apply Hfresh. by apply list_elem_of_further.
    + intros key [|i' before] i after Heq Hk Hafter; simpl in Heq.
      * injection Heq as <- <-. rewrite IHa by done.
        rewrite Hk0 in Hk. injection Hk as ->.
        by rewrite lookup_insert_eq.
      * injection Heq as <- ->. by eapply IHb.
Qed.
End DictLoop.

Lemma to_dict_grid (T : DataTable.t) :
  DataTable.to_dict T = to_dict_of_grid (grid T).
Proof.
  unfold DataTable.to_dict, grid.
  destruct (DataTable.rows T) as [|row0 [|row1 rows]]; [done..|].
  cbn [length Nat.ltb Nat.leb index lookup list_lookup bind].
  rewrite !fmap_cons. cbn [to_dict_of_grid drop]. by rewrite length_fmap.
Qed.

Lemma to_dict_rows (T : DataTable.t) (row0 row1 : Row.t) (rows : list Row.t) :
  DataTable.rows T = row0 :: row1 :: rows →
  DataTable.to_dict T
  = DataTable.dict_loop (Cell.value <$> Row.cells row0)
      (zip_star ((fun row => Cell.value <$> Row.cells row) <$> row1 :: rows))
      (seq 0 (length (Row.cells row0))) ∅.
Proof.
  intros Hrows. unfold DataTable.to_dict. rewrite Hrows.
  cbn [length Nat.ltb Nat.leb index lookup list_lookup bind drop].
  by rewrite length_fmap.
Qed.

(** C3: [to_dict] fails exactly on the tables of a bad shape.  With fewer
    than two rows it raises [ValueError]; with a data row (a row after the
    first) of fewer cells than the header row it raises [IndexError], and
    pads nothing; and it returns a dictionary whenever there are at least
    two rows and every data row has at least as many cells as the header
    row. *)
Theorem to_dict_failure_modes (T : DataTable.t) :
  (length (DataTable.rows T) < 2 →
     ∃ msg, DataTable.to_dict T = Raise (ValueError msg)) ∧
  (∀ header_row,
     2 ≤ length (DataTable.rows T) → DataTable.rows T !! 0 = Some header_row →
     ((∃ row, row ∈ drop 1 (DataTable.rows T) ∧
              length (Row.cells row) < length (Row.cells header_row)) →
        DataTable.to_dict T = Raise IndexError) ∧
     ((∀ row, row ∈ drop 1 (DataTable.rows T) →
              length (Row.cells header_row) ≤ length (Row.cells row)) →
        ∃ result_dict, DataTable.to_dict T = Ok result_dict)).
Proof.
  split.
  - intros Hlen. unfold DataTable.to_dict.
    destruct (Nat.ltb_spec (length (DataTable.rows T)) 2); [by eexists | lia].
  - intros header_row Hlen Hheader.
    destruct (DataTable.rows T) as [|row0 [|row1 rows]] eqn:Hrows;
      [simpl in Hlen; lia..|].
    injection Hheader as ->. rewrite (to_dict_rows T _ _ _ Hrows). cbn [drop].
    set (header := Cell.value <$> Row.cells header_row).
    set (values_rows := (fun row => Cell.value <$> Row.cells row) <$> row1 :: rows).
    assert (values_rows ≠ []) as Hne by done.
    assert (∀ i, is_Some (zip_star values_rows !! i)
                 ↔ ∀ row, row ∈ row1 :: rows → i < length (Row.cells row)) as Hzip.
    { intros i. rewrite (zip_star_lookup_is_Some _ _ Hne). subst values_rows. split.
      - intros Hall row Hrow.
        specialize (Hall _ (list_elem_of_fmap_2 _ _ _ Hrow)). cbv beta in Hall.
        by rewrite length_fmap in Hall.
      - intros Hall l (row & -> & Hrow)%list_elem_of_fmap.
        rewrite length_fmap. by apply Hall. }
    split.
    + intros (row & Hrow & Hshort).
      destruct (DataTable.dict_loop header (zip_star values_rows)
                  (seq 0 (length (Row.cells header_row))) ∅) as [m|e] eqn:Hloop.
      * assert (∃ m, DataTable.dict_loop header (zip_star values_rows)
                       (seq 0 (length (Row.cells header_row))) ∅ = Ok m) as Hok
          by by eexists.
        rewrite dict_loop_Ok in Hok.
        destruct (Hok (length (Row.cells row))) as [_ Hsome].
        { apply elem_of_seq. lia. }
        pose proof (proj1 (Hzip _) Hsome row Hrow). lia.
      * by rewrite (dict_loop_Raise _ _ _ _ _ Hloop).
    + intros Hlong. apply dict_loop_Ok. intros i [_ Hi]%elem_of_seq. split.
      * apply lookup_lt_is_Some. subst header. rewrite length_fmap. lia.
      * apply (proj2 (Hzip i)). intros row Hrow. specialize (Hlong row Hrow). lia.
Qed.

Lemma to_dict_failure_modes_witness :
  (∃ msg, DataTable.to_dict cellless_table = Raise (ValueError msg)) ∧
  DataTable.to_dict ragged_table = Raise IndexError ∧
  (∃ result_dict, DataTable.to_dict sample_table = Ok result_dict).
Proof.
  split; [|split].
  - apply (proj1 (to_dict_failure_modes cellless_table)). simpl. lia.
  - eapply (proj2 (to_dict_failure_modes ragged_table)); [simpl; lia | reflexivity |].
    eexists. split; [apply list_elem_of_here | simpl; lia].
  - eapply (proj2 (to_dict_failure_modes sample_table)); [simpl; lia | reflexivity |].
    intros row Hrow. apply list_elem_of_singleton in Hrow as ->. simpl. lia.
Defined.


Lemma last_occurrence (l : list (list N)) (key : list N) :
  key ∈ l → ∃ before after, l = before ++ key :: after ∧ key ∉ after.
Proof.
  induction l as [|x l IH]; [by intros ?%elem_of_nil|].
  intros Hin. destruct (decide (key ∈ l)) as [Hl|Hl].
  - destruct (IH Hl) as (before & after & -> & Hafter).
    by exists (x :: before), after.
  - apply elem_of_cons in Hin as [->|Hin]; [|done]. by exists [], l.
Qed.

Lemma seq_split_at (h i : nat) :
  i < h → seq 0 h = seq 0 i ++ i :: seq (S i) (h - S i).
Proof.
  intros Hi. replace h with (i + S (h - S i)) at 1 by lia.
  by rewrite seq_app.
Qed.

(** C4: on a rectangular table of at least two rows, [to_dict] returns a
    dictionary whose keys are the values of the header cells (row 0), and
    which sends the value of a header cell to the values of the cells of
    its column in the rows 1 to N, in the order of the rows; of several
    header cells with the same value, the last one supplies the column.
    In particular the grid [a b / 1 2] yields [{a: [1], b: [2]}]. *)
Theorem to_dict_rectangular (T : DataTable.t) :
  rectangular T → 2 ≤ length (DataTable.rows T) →
  ∃ header_row result_dict,
    DataTable.rows T !! 0 = Some header_row ∧
    DataTable.to_dict T = Ok result_dict ∧
    (∀ key, is_Some (result_dict !! key)
            ↔ ∃ cell, cell ∈ Row.cells header_row ∧ Cell.value cell = key) ∧
    (∀ i cell, Row.cells header_row !! i = Some cell →
       (∀ j cell', i < j → Row.cells header_row !! j = Some cell' →
          Cell.value cell' ≠ Cell.value cell) →
       ∃ column, result_dict !! Cell.value cell = Some column ∧
         length column = length (DataTable.rows T) - 1 ∧
         ∀ k row, DataTable.rows T !! S k = Some row →
           column !! k = Cell.value <$> (Row.cells row !! i)) ∧
    (grid T = [[pystr "a"; pystr "b"]; [pystr "1"; pystr "2"]] →
       result_dict = <[pystr "b" := [pystr "2"]]> (<[pystr "a" := [pystr "1"]]> ∅)).
Proof.
  intros Hrect Hlen.
  destruct (DataTable.rows T) as [|row0 [|row1 rows]] eqn:Hrows;
    [simpl in Hlen; lia..|].
  set (header := Cell.value <$> Row.cells row0).
  set (values_rows := (fun row => Cell.value <$> Row.cells row) <$> row1 :: rows).
  set (h := length (Row.cells row0)).
  assert (length header = h) as Hheader by (subst header; by rewrite length_fmap).
  assert (values_rows ≠ []) as Hne by done.
  assert (∀ l, l ∈ values_rows → length l = h) as Hwidth.
  { intros l (row & -> & Hrow)%list_elem_of_fmap. rewrite length_fmap.
    apply Hrect; rewrite Hrows.
    - by apply list_elem_of_further.
    - apply list_elem_of_here. }
  assert (∀ i, i < h → ∃ column,
             zip_star values_rows !! i = Some column ∧
             length column = length (row0 :: row1 :: rows) - 1 ∧
             ∀ k row, (row0 :: row1 :: rows) !! S k = Some row →
               column !! k = Cell.value <$> (Row.cells row !! i)) as Hcolumn.
  { intros i Hi.
    destruct (proj2 (zip_star_lookup_is_Some values_rows i Hne)) as [column Hc].
    { intros l Hl. rewrite (Hwidth l Hl). done. }
    exists column. split; [done|].
    rewrite zip_star_lookup in Hc by done. apply mapM_Some in Hc. split.
    - rewrite <- (Forall2_length _ _ _ Hc). subst values_rows.
      rewrite length_fmap. simpl. lia.
    - intros k row Hk. change ((row1 :: rows) !! k = Some row) in Hk.
      assert (values_rows !! k = Some (Cell.value <$> Row.cells row)) as Hvk.
      { subst values_rows. by rewrite list_lookup_fmap, Hk. }
      destruct (Forall2_lookup_l _ _ _ _ _ Hc Hvk) as (y & -> & Hy).
      by rewrite <- list_lookup_fmap, Hy. }
  assert (∃ result_dict,
            DataTable.dict_loop header (zip_star values_rows) (seq 0 h) ∅
            = Ok result_dict) as [result_dict Hloop].
  { apply dict_loop_Ok. intros i [_ Hi]%elem_of_seq. split.
    - apply lookup_lt_is_Some. lia.
    - destruct (Hcolumn i) as (column & -> & _); [lia | done]. }
  assert (DataTable.to_dict T = Ok result_dict) as Hdict
    by (by rewrite (to_dict_rows T _ _ _ Hrows)).
  destruct (dict_loop_lookup _ _ _ _ _ Hloop) as [Hfresh Hlast].
  assert (∀ i key, header !! i = Some key →
            (∀ j, i < j → header !! j ≠ Some key) →
            result_dict !! key = zip_star values_rows !! i) as Hlast'.
  { intros i key Hi Hafter.
    assert (i < h) as Hlt by (rewrite <- Hheader; by eapply lookup_lt_Some).
    apply (Hlast key (seq 0 i) i (seq (S i) (h - S i))); [|done|].
    - by apply seq_split_at.
    - intros j [Hj _]%elem_of_seq. apply Hafter. lia. }
  exists row0, result_dict. split; [done|]. split; [done|]. split; [|split].
  - intros key. split.
    + intros Hsome. destruct (decide (key ∈ header)) as [Hin|Hout].
      * subst header. apply list_elem_of_fmap in Hin as (cell & -> & Hcell). eauto.
      * rewrite Hfresh, lookup_empty in Hsome; [by destruct Hsome|].
        intros i _ Hi. apply Hout. by eapply list_elem_of_lookup_2.
    + intros (cell & Hcell & <-).
      assert (Cell.value cell ∈ header) as Hin
        by (subst header; by apply list_elem_of_fmap_2).
      destruct (last_occurrence _ _ Hin) as (before & after & Heq & Hafter).
      rewrite (Hlast' (length before) (Cell.value cell)).
      * destruct (Hcolumn (length before)) as (column & -> & _); [|done].
        rewrite <- Hheader, Heq, length_app. simpl. lia.
      * rewrite Heq. by rewrite list_lookup_middle.
      * intros j Hj Hjk. apply Hafter. rewrite Heq in Hjk.
        rewrite lookup_app_r in Hjk by lia.
        destruct (j - length before) as [|n] eqn:Hn; [lia|].
        simpl in Hjk. by eapply list_elem_of_lookup_2.
  - intros i cell Hi Hafter.
    assert (i < h) as Hlt by (by eapply lookup_lt_Some).
    destruct (Hcolumn i Hlt) as (column & Hc & Hlen' & Hcells).
    exists column. split; [|done].
    rewrite (Hlast' i (Cell.value cell)); [done| |].
    + subst header. by rewrite list_lookup_fmap, Hi.
    + intros j Hj Hjk. subst header.
      apply list_lookup_fmap_Some in Hjk as (cell' & Hcell' & Hval).
      by apply (Hafter j cell').
  - intros Hgrid. rewrite to_dict_grid, Hgrid in Hdict.
    vm_compute in Hdict. injection Hdict as <-. vm_compute. reflexivity.
Qed.

Lemma to_dict_rectangular_witness :
  DataTable.to_dict sample_table
  = Ok (<[pystr "b" := [pystr "2"]]> (<[pystr "a" := [pystr "1"]]> ∅)).
Proof.
  destruct (to_dict_rectangular sample_table) as (row0 & m & _ & Hdict & _ & _ & Hab).
  - by apply (rectangular_check _ 2).
  - simpl. lia.
  - rewrite Hdict. f_equal. apply Hab. reflexivity.
Defined.

(** The later of two header cells with the same value supplies the
    column. *)
Example to_dict_duplicate_header :
  to_dict_of_grid [[pystr "a"; pystr "a"]; [pystr "1"; pystr "2"]]
  = Ok (<[pystr "a" := [pystr "2"]]> ∅).
Proof. vm_compute. reflexivity. Qed.

(** ** The builders *)

Section BuilderEquations.
Context `{Externals}.

Lemma with_item_spec {A : Type} (k : str) (absent : A) (present : raw → A)
    (d : list (str * raw)) :
  with_item k absent present d
  = match dict_get k d with Some v => present v | None => absent end.
Proof.
  induction d as [|[k' v] d IH]; [done|]. cbn [with_item dict_get].
  by destruct (str_eqb k k').
Qed.

Lemma traverse_ext {A B : Type} (f g : A → result B) (l : list A) :
  (∀ x, x ∈ l → f x = g x) → traverse f l = traverse g l.
Proof.
  induction l as [|x l IH]; intros Hfg; [done|]. cbn [traverse].
  rewrite (Hfg x) by apply list_elem_of_here.
  fold (traverse f l). fold (traverse g l). rewrite IH; [done|].
  intros y Hy. apply Hfg. by apply list_elem_of_further.
Qed.

Lemma bind_ext {A B : Type} (m : result A) (f g : A → result B) :
  (∀ a, f a = g a) → bind m f = bind m g.
Proof. intros Hfg. destruct m; [apply Hfg | done]. Qed.

Lemma optional_spec {A : Type} (from_dict : raw → result A)
    (d : list (str * raw)) (k : str) :
  optional from_dict (RDict d) k = field_of from_dict d k.
Proof.
  unfold optional, field_of, get, get_default, subscript.
  destruct (dict_get k d) as [v|]; cbn [bind]; [|done].
  by destruct (truthy v).
Qed.

(** [Child.from_dict], as the source has it. *)
Lemma Child_from_dict_eq (d : list (str * raw)) :
  Child.from_dict (RDict d)
  = (background <- optional Background.from_dict (RDict d) (pystr "background") ;;
     rule <- optional Rule.from_dict (RDict d) (pystr "rule") ;;
     scenario <- optional Scenario.from_dict (RDict d) (pystr "scenario") ;;
     Ok (mkChild background rule scenario)).
Proof.
  unfold Child.from_dict. cbn [Child_from_dict].
  by rewrite with_item_spec, (optional_spec Rule.from_dict).
Qed.

Lemma Child_from_dict_not_dict (data : raw) :
  (∀ d, data ≠ RDict d) → Child.from_dict data = Raise AttributeError.
Proof. intros Hd. destruct data; try done. by destruct (Hd d). Qed.

(** [Rule.from_dict], as the source has it. *)
Lemma Rule_from_dict_eq (data : raw) :
  Rule.from_dict data
  = (id <- subscript data (pystr "id") ;;
     keyword <- subscript data (pystr "keyword") ;;
     location <- (l <- subscript data (pystr "location") ;; Location.from_dict l) ;;
     name <- subscript data (pystr "name") ;;
     description <- subscript data (pystr "description") ;;
     tags <- (xs <- subscript data (pystr "tags") ;; for_each Tag.from_dict xs) ;;
     children <- (xs <- subscript data (pystr "children") ;;
                  for_each Child.from_dict xs) ;;
     Ok (mkRule id keyword location name description tags children)).
Proof.
  unfold Rule.from_dict. destruct data as [| | | | |d]; try done.
  cbn [Rule_from_dict]. rewrite with_item_spec.
  do 6 (apply bind_ext; intros ?). f_equal.
  unfold subscript. destruct (dict_get (pystr "children") d) as [xs|]; [|done].
  cbn [bind]. unfold for_each.
  destruct xs as [| | |s|l|d']; cbn [iter bind]; try done.
  - apply traverse_ext. by intros x (c & <- & _)%list_elem_of_In%in_map_iff.
  - apply traverse_ext. by intros x (c & <- & _)%list_elem_of_In%in_map_iff.
Qed.
End BuilderEquations.

(** *** What the builders raise *)

Create HintDb structural discriminated.

Lemma Ok_structural {A : Type} (a : A) : raises_structurally (Ok a).
Proof. by intros e. Qed.

Lemma Raise_structural {A : Type} (e : exn) :
  structural e = true → raises_structurally (@Raise A e).
Proof. by intros He e' [= <-]. Qed.

Lemma bind_structural {A B : Type} (m : result A) (f : A → result B) :
  raises_structurally m → (∀ a, raises_structurally (f a)) →
  raises_structurally (bind m f).
Proof.
  unfold raises_structurally. intros Hm Hf e.
  destruct m as [a|e']; cbn [bind]; [apply Hf|].
  intros [= <-]. by apply Hm.
Qed.

Lemma subscript_structural (data : raw) (k : str) :
  raises_structurally (subscript data k).
Proof.
  intros e. unfold subscript. destruct data; try by intros [= <-].
  destruct (dict_get k d); [done | by intros [= <-]].
Qed.

Lemma get_default_structural (data : raw) (k : str) (default : raw) :
  raises_structurally (get_default data k default).
Proof.
  intros e. unfold get_default. destruct data; try by intros [= <-].
  by destruct (dict_get k d).
Qed.

Lemma get_structural (data : raw) (k : str) : raises_structurally (get data k).
Proof. apply get_default_structural. Qed.

Lemma as_str_structural (v : raw) : raises_structurally (as_str v).
Proof. intros e. destruct v; try done; by intros [= <-]. Qed.

Lemma traverse_structural {A B : Type} (f : A → result B) (l : list A) :
  (∀ x, x ∈ l → raises_structurally (f x)) → raises_structurally (traverse f l).
Proof.
  induction l as [|x l IH]; intros Hf; [by intros e|].
  cbn [traverse]. fold (traverse f l). apply bind_structural.
  - apply Hf, list_elem_of_here.
  - intros y. apply bind_structural; [|by intros ys e].
    apply IH. intros z Hz. by apply Hf, list_elem_of_further.
Qed.

Lemma for_each_structural {B : Type} (f : raw → result B) (v : raw) :
  (∀ x, raises_structurally (f x)) → raises_structurally (for_each f v).
Proof.
  intros Hf. unfold for_each. apply bind_structural.
  - intros e. destruct v; try done; by intros [= <-].
  - intros xs. by apply traverse_structural.
Qed.

Lemma optional_structural {A : Type} (f : raw → result A) (data : raw) (k : str) :
  (∀ x, raises_structurally (f x)) → raises_structurally (optional f data k).
Proof.
  intros Hf. unfold optional. apply bind_structural; [apply get_structural|].
  intros present. destruct (truthy present); [|by intros e].
  apply bind_structural; [apply subscript_structural|]. intros item.
  apply bind_structural; [apply Hf | by intros x e].
Qed.

#[local] Hint Resolve Ok_structural bind_structural subscript_structural
  get_default_structural get_structural as_str_structural
  for_each_structural optional_structural : structural.

Lemma Location_structural data : raises_structurally (Location.from_dict data).
Proof. unfold Location.from_dict. auto 10 with structural. Qed.
#[local] Hint Resolve Location_structural : structural.

Lemma Comment_structural data : raises_structurally (Comment.from_dict data).
Proof. unfold Comment.from_dict. auto 10 with structural. Qed.

Lemma Cell_structural data : raises_structurally (Cell.from_dict data).
Proof. unfold Cell.from_dict. auto 10 with structural. Qed.
#[local] Hint Resolve Comment_structural Cell_structural : structural.

Lemma Row_structural data : raises_structurally (Row.from_dict data).
Proof. unfold Row.from_dict. auto 10 with structural. Qed.
#[local] Hint Resolve Row_structural : structural.

Lemma ExamplesTable_structural data :
  raises_structurally (ExamplesTable.from_dict data).
Proof. unfold ExamplesTable.from_dict. auto 10 with structural. Qed.

Lemma DataTable_structural data : raises_structurally (DataTable.from_dict data).
Proof. unfold DataTable.from_dict. auto 10 with structural. Qed.

Lemma DocString_structural `{Externals} data : raises_structurally (DocString.from_dict data).
Proof.
  unfold DocString.from_dict. apply bind_structural; [|auto 10 with structural].
  apply bind_structural; [apply subscript_structural|].
  intros c e. destruct c; try done; by intros [= <-].
Qed.
#[local] Hint Resolve ExamplesTable_structural DataTable_structural
  DocString_structural : structural.

Lemma Step_structural `{Externals} data : raises_structurally (Step.from_dict data).
Proof. unfold Step.from_dict. auto 20 with structural. Qed.

Lemma Tag_structural data : raises_structurally (Tag.from_dict data).
Proof. unfold Tag.from_dict. auto 10 with structural. Qed.
#[local] Hint Resolve Step_structural Tag_structural : structural.

Lemma Scenario_structural `{Externals} data : raises_structurally (Scenario.from_dict data).
Proof. unfold Scenario.from_dict. auto 20 with structural. Qed.

Lemma Background_structural `{Externals} data :
  raises_structurally (Background.from_dict data).
Proof. unfold Background.from_dict. auto 20 with structural. Qed.
#[local] Hint Resolve Scenario_structural Background_structural : structural.

Lemma dict_get_elem (k : str) (d : list (str * raw)) (v : raw) :
  dict_get k d = Some v → ∃ k', (k', v) ∈ d.
Proof.
  induction d as [|[k' v'] d IH]; [done|]. cbn [dict_get].
  destruct (str_eqb k k').
  - intros [= ->]. exists k'. apply list_elem_of_here.
  - intros (k'' & Hin)%IH. exists k''. by apply list_elem_of_further.
Qed.

(** [Child.from_dict] and [Rule.from_dict], and the comprehension over
    children, raise structural exceptions only. *)
Lemma tree_structural `{Externals} (v : raw) :
  raises_structurally (Child.from_dict v) ∧
  raises_structurally (Rule.from_dict v) ∧
  raises_structurally (for_each Child.from_dict v).
Proof.
  induction v as [|b|z|s|l IH|d IH] using raw_tree_ind;
    try (split; [|split]; by intros e [= <-]).
  - split; [|split]; [by intros e [= <-]..|].
    unfold for_each. cbn [iter bind]. apply traverse_structural.
    intros x (c & <- & _)%list_elem_of_In%in_map_iff. by intros e [= <-].
  - split; [|split]; [by intros e [= <-]..|].
    unfold for_each. cbn [iter bind]. apply traverse_structural.
    intros x Hx. rewrite Forall_forall in IH. by apply IH.
  - rewrite Forall_forall in IH.
    assert (∀ k v, dict_get k d = Some v →
              raises_structurally (Rule.from_dict v) ∧
              raises_structurally (for_each Child.from_dict v)) as Hitem.
    { intros k v (k' & Hin)%dict_get_elem. by apply (IH (k', v)). }
    split; [|split].
    + rewrite Child_from_dict_eq, !optional_spec.
      apply bind_structural; [rewrite <- optional_spec; auto with structural|].
      intros background. apply bind_structural.
      { unfold field_of. destruct (dict_get (pystr "rule") d) as [item|] eqn:Hitem';
          [|by intros e].
        destruct (truthy item); [|by intros e].
        apply bind_structural; [by apply (Hitem _ _ Hitem') | by intros x e]. }
      intros rule. apply bind_structural;
        [rewrite <- optional_spec; auto with structural | by intros x e].
    + rewrite Rule_from_dict_eq.
      do 6 (apply bind_structural; [auto 10 with structural | intros ?]).
      apply bind_structural; [|by intros x e].
      unfold subscript. destruct (dict_get (pystr "children") d) as [xs|] eqn:Hxs;
        [|by intros e [= <-]].
      cbn [bind]. by apply (Hitem _ _ Hxs).
    + unfold for_each. cbn [iter bind]. apply traverse_structural.
      intros x (c & <- & _)%list_elem_of_In%in_map_iff. by intros e [= <-].
Qed.

Lemma Child_structural `{Externals} data :
  raises_structurally (Child.from_dict data).
Proof. apply tree_structural. Qed.

Lemma Rule_structural `{Externals} data :
  raises_structurally (Rule.from_dict data).
Proof. apply tree_structural. Qed.
#[local] Hint Resolve Child_structural Rule_structural : structural.

Lemma Feature_structural `{Externals} data :
  raises_structurally (Feature.from_dict data).
Proof. unfold Feature.from_dict. auto 20 with structural. Qed.
#[local] Hint Resolve Feature_structural : structural.

Lemma GherkinDocument_structural `{Externals} data :
  raises_structurally (GherkinDocument.from_dict data).
Proof. unfold GherkinDocument.from_dict. auto 20 with structural. Qed.

(** *** A missing key *)

Lemma str_eqb_eq (a b : str) : str_eqb a b = true ↔ a = b.
Proof.
  revert b. induction a as [|x a IH]; intros [|y b]; cbn [str_eqb]; try done.
  rewrite andb_true_iff, N.eqb_eq, IH.
  split; [by intros [-> ->] | by intros [= -> ->]].
Qed.

(** On a dictionary that lacks the key of one of the reads, the first
    failure is that of a read before the key, or the missing key itself. *)
Lemma first_failure_missing (reads : list field_read) (k : str)
    (d : list (str * raw)) :
  dict_get k d = None → k ∈ reads.*1 →
  first_failure reads d
  = Some (default (KeyError k) (first_failure (reads_before k reads) d)).
Proof.
  intros Hk. induction reads as [|[k' check] reads IH];
    [by intros ?%elem_of_nil|].
  cbn [fmap list_fmap fst]. intros Hin. cbn [first_failure reads_before].
  destruct (str_eqb k k') eqn:Heq.
  - apply str_eqb_eq in Heq as <-. by rewrite Hk.
  - cbn [first_failure]. destruct (dict_get k' d) as [item|]; [|done].
    destruct (check item); [done|]. apply IH.
    apply elem_of_cons in Hin as [->|Hin]; [|done].
    by rewrite (proj2 (str_eqb_eq k' k') eq_refl) in Heq.
Qed.

Lemma raises_for_missing_intro {A : Type} (outcome : result A)
    (reads : list field_read) (k : str) (d : list (str * raw)) :
  dict_get k d = None → k ∈ reads.*1 →
  raises_structurally outcome →
  (∀ e, first_failure reads d = Some e → outcome = Raise e) →
  raises_for_missing outcome reads k d.
Proof.
  intros Hk Hin Hs Hfirst.
  pose proof (Hfirst _ (first_failure_missing reads k d Hk Hin)) as Hout.
  split; [|done]. eexists. split; [done|]. by apply Hs.
Qed.

(** Walks down the reads of a builder next to [first_failure]: a key is
    missing, or what is done with its object raises, or the walk goes on
    to the next read. *)
Ltac first_failing_read d :=
  unfold plain, built, listed, subscript; cbn [first_failure];
  repeat first
    [ match goal with
      | |- context [dict_get ?k d] =>
          destruct (dict_get k d) as [?|]; cbn [bind exception_of];
          [| by intros ? [= <-]]
      end
    | match goal with
      | |- context [exception_of ?m] =>
          destruct m as [?|?]; cbn [bind exception_of];
          [| by intros ? [= <-]]
      end ];
  by intros ?.

Section FirstFailure.
Context `{Externals}.
Implicit Types (d : list (str * raw)) (e : exn).

Lemma Location_first_failure d e :
  first_failure Location_reads d = Some e →
  Location.from_dict (RDict d) = Raise e.
Proof.
  revert e. unfold Location.from_dict, Location_reads. first_failing_read d.
Qed.

Lemma Comment_first_failure d e :
  first_failure Comment_reads d = Some e →
  Comment.from_dict (RDict d) = Raise e.
Proof.
  revert e. unfold Comment.from_dict, Comment_reads. first_failing_read d.
Qed.

Lemma Cell_first_failure d e :
  first_failure Cell_reads d = Some e → Cell.from_dict (RDict d) = Raise e.
Proof. revert e. unfold Cell.from_dict, Cell_reads. first_failing_read d. Qed.

Lemma Row_first_failure d e :
  first_failure Row_reads d = Some e → Row.from_dict (RDict d) = Raise e.
Proof. revert e. unfold Row.from_dict, Row_reads. first_failing_read d. Qed.

Lemma ExamplesTable_first_failure d e :
  first_failure ExamplesTable_reads d = Some e →
  ExamplesTable.from_dict (RDict d) = Raise e.
Proof.
  revert e. unfold ExamplesTable.from_dict, ExamplesTable_reads.
  first_failing_read d.
Qed.

Lemma DataTable_first_failure d e :
  first_failure DataTable_reads d = Some e →
  DataTable.from_dict (RDict d) = Raise e.
Proof.
  revert e. unfold DataTable.from_dict, DataTable_reads. first_failing_read d.
Qed.

Lemma DocString_first_failure d e :
  first_failure DocString_reads d = Some e →
  DocString.from_dict (RDict d) = Raise e.
Proof.
  revert e. unfold DocString.from_dict, DocString_reads. first_failing_read d.
Qed.

Lemma Step_first_failure d e :
  first_failure Step_reads d = Some e → Step.from_dict (RDict d) = Raise e.
Proof. revert e. unfold Step.from_dict, Step_reads. first_failing_read d. Qed.

Lemma Tag_first_failure d e :
  first_failure Tag_reads d = Some e → Tag.from_dict (RDict d) = Raise e.
Proof. revert e. unfold Tag.from_dict, Tag_reads. first_failing_read d. Qed.

Lemma Scenario_first_failure d e :
  first_failure Scenario_reads d = Some e →
  Scenario.from_dict (RDict d) = Raise e.
Proof.
  revert e. unfold Scenario.from_dict, Scenario_reads. first_failing_read d.
Qed.

Lemma Rule_first_failure d e :
  first_failure Rule_reads d = Some e → Rule.from_dict (RDict d) = Raise e.
Proof.
  revert e. rewrite Rule_from_dict_eq. unfold Rule_reads.
  first_failing_read d.
Qed.

Lemma Background_first_failure d e :
  first_failure Background_reads d = Some e →
  Background.from_dict (RDict d) = Raise e.
Proof.
  revert e. unfold Background.from_dict, Background_reads.
  first_failing_read d.
Qed.

Lemma Feature_first_failure d e :
  first_failure Feature_reads d = Some e →
  Feature.from_dict (RDict d) = Raise e.
Proof.
  revert e. unfold Feature.from_dict, Feature_reads. first_failing_read d.
Qed.

Lemma GherkinDocument_first_failure d e :
  first_failure GherkinDocument_reads d = Some e →
  GherkinDocument.from_dict (RDict d) = Raise e.
Proof.
  revert e. unfold GherkinDocument.from_dict, GherkinDocument_reads.
  first_failing_read d.
Qed.
End FirstFailure.

(** C7, as the code has it: on a dictionary that lacks a key which the
    class reads by subscript, [from_dict] of every node class raises, and
    the order of the reads decides what: [KeyError] for the missing key
    when every field read before it is present and builds, and otherwise
    the exception of the first field before it that is missing or does not
    build; either way a [KeyError], a [TypeError] or an [AttributeError].
    Those keys are the required fields of the data model but for two:
    [DataTable.from_dict] reads [rows], and [ExamplesTable.from_dict] reads
    [tableBody], with the default [[]], so that a dictionary without the
    key builds a node whose sequence is empty. *)
Theorem missing_required_field `{Externals} (d : list (str * raw)) (k : str) :
  dict_get k d = None →
  (k ∈ [pystr "column"; pystr "line"] →
     raises_for_missing (Location.from_dict (RDict d)) Location_reads k d) ∧
  (k ∈ [pystr "location"; pystr "text"] →
     raises_for_missing (Comment.from_dict (RDict d)) Comment_reads k d) ∧
  (k ∈ [pystr "location"; pystr "value"] →
     raises_for_missing (Cell.from_dict (RDict d)) Cell_reads k d) ∧
  (k ∈ [pystr "id"; pystr "location"; pystr "cells"] →
     raises_for_missing (Row.from_dict (RDict d)) Row_reads k d) ∧
  (k ∈ [pystr "location"] →
     raises_for_missing (ExamplesTable.from_dict (RDict d))
       ExamplesTable_reads k d) ∧
  (k ∈ [pystr "location"] →
     raises_for_missing (DataTable.from_dict (RDict d)) DataTable_reads k d) ∧
  (k ∈ [pystr "content"; pystr "delimiter"; pystr "location"] →
     raises_for_missing (DocString.from_dict (RDict d)) DocString_reads k d) ∧
  (k ∈ [pystr "id"; pystr "keyword"; pystr "keywordType"; pystr "location";
        pystr "text"] →
     raises_for_missing (Step.from_dict (RDict d)) Step_reads k d) ∧
  (k ∈ [pystr "id"; pystr "location"; pystr "name"] →
     raises_for_missing (Tag.from_dict (RDict d)) Tag_reads k d) ∧
  (k ∈ [pystr "id"; pystr "keyword"; pystr "location"; pystr "name";
        pystr "description"; pystr "steps"; pystr "tags"; pystr "examples"] →
     raises_for_missing (Scenario.from_dict (RDict d)) Scenario_reads k d) ∧
  (k ∈ [pystr "id"; pystr "keyword"; pystr "location"; pystr "name";
        pystr "description"; pystr "tags"; pystr "children"] →
     raises_for_missing (Rule.from_dict (RDict d)) Rule_reads k d) ∧
  (k ∈ [pystr "id"; pystr "keyword"; pystr "location"; pystr "name";
        pystr "description"; pystr "steps"] →
     raises_for_missing (Background.from_dict (RDict d)) Background_reads k d) ∧
  (k ∈ [pystr "keyword"; pystr "location"; pystr "tags"; pystr "name";
        pystr "description"; pystr "children"] →
     raises_for_missing (Feature.from_dict (RDict d)) Feature_reads k d) ∧
  (k ∈ [pystr "feature"; pystr "comments"] →
     raises_for_missing (GherkinDocument.from_dict (RDict d))
       GherkinDocument_reads k d) ∧
  (k = pystr "rows" →
     ∀ item location,
       dict_get (pystr "location") d = Some item →
       Location.from_dict item = Ok location →
       DataTable.from_dict (RDict d) = Ok (DataTable.mk location [])) ∧
  (k = pystr "tableBody" →
     ∀ item location table_header,
       dict_get (pystr "location") d = Some item →
       Location.from_dict item = Ok location →
       optional Row.from_dict (RDict d) (pystr "tableHeader") = Ok table_header →
       ExamplesTable.from_dict (RDict d)
       = Ok (ExamplesTable.mk location (default RNone (dict_get (pystr "name") d))
               table_header [])).
Proof.
  intros Hk. repeat apply conj.
  - intros Hin. apply raises_for_missing_intro;
      [done | exact Hin | apply Location_structural
      | apply Location_first_failure].
  - intros Hin. apply raises_for_missing_intro;
      [done | exact Hin | apply Comment_structural
      | apply Comment_first_failure].
  - intros Hin. apply raises_for_missing_intro;
      [done | exact Hin | apply Cell_structural | apply Cell_first_failure].
  - intros Hin. apply raises_for_missing_intro;
      [done | exact Hin | apply Row_structural | apply Row_first_failure].
  - intros Hin. apply raises_for_missing_intro;
      [done | exact Hin | apply ExamplesTable_structural
      | apply ExamplesTable_first_failure].
  - intros Hin. apply raises_for_missing_intro;
      [done | exact Hin | apply DataTable_structural
      | apply DataTable_first_failure].
  - intros Hin. apply raises_for_missing_intro;
      [done | exact Hin | apply DocString_structural
      | apply DocString_first_failure].
  - intros Hin. apply raises_for_missing_intro;
      [done | exact Hin | apply Step_structural | apply Step_first_failure].
  - intros Hin. apply raises_for_missing_intro;
      [done | exact Hin | apply Tag_structural | apply Tag_first_failure].
  - intros Hin. apply raises_for_missing_intro;
      [done | exact Hin | apply Scenario_structural
      | apply Scenario_first_failure].
  - intros Hin. apply raises_for_missing_intro;
      [done | exact Hin | apply Rule_structural | apply Rule_first_failure].
  - intros Hin. apply raises_for_missing_intro;
      [done | exact Hin | apply Background_structural
      | apply Background_first_failure].
  - intros Hin. apply raises_for_missing_intro;
      [done | exact Hin | apply Feature_structural
      | apply Feature_first_failure].
  - intros Hin. apply raises_for_missing_intro;
      [done | exact Hin | apply GherkinDocument_structural
      | apply GherkinDocument_first_failure].
  - intros -> item location Hitem Hlocation.
    unfold DataTable.from_dict, subscript, get_default.
    rewrite Hitem, Hk. cbn [bind]. by rewrite Hlocation.
  - intros -> item location table_header Hitem Hlocation Hheader.
    unfold ExamplesTable.from_dict. rewrite Hheader.
    unfold subscript, get, get_default. rewrite Hitem, Hk. cbn [bind].
    rewrite Hlocation. cbn [bind]. by destruct (dict_get (pystr "name") d).
Qed.

(** A row without [cells] raises [KeyError] for that key when its location
    builds, and the [TypeError] of the location when a number stands in
    its place; a table without [rows] is built, with no rows. *)
Lemma missing_required_field_witness :
  Row.from_dict (RDict raw_row_without_cells) = Raise (KeyError (pystr "cells")) ∧
  Row.from_dict (RDict raw_row_misplaced) = Raise TypeError ∧
  DataTable.from_dict (RDict [(pystr "location", raw_location 3 7)])
  = Ok (DataTable.mk (at_ 3 7) []).
Proof.
  split; [|split].
  - destruct (@missing_required_field failing_world raw_row_without_cells
                (pystr "cells") eq_refl) as (_ & _ & _ & HRow & _).
    destruct HRow as [_ ->];
      [do 2 apply list_elem_of_further; apply list_elem_of_here|].
    reflexivity.
  - destruct (@missing_required_field failing_world raw_row_misplaced
                (pystr "cells") eq_refl) as (_ & _ & _ & HRow & _).
    destruct HRow as [_ ->];
      [do 2 apply list_elem_of_further; apply list_elem_of_here|].
    reflexivity.
  - destruct (@missing_required_field failing_world
                [(pystr "location", raw_location 3 7)] (pystr "rows") eq_refl)
      as (_ & _ & _ & _ & _ & _ & _ & _ & _ & _ & _ & _ & _ & _ & HDataTable & _).
    by apply (HDataTable eq_refl (raw_location 3 7)).
Defined.

(** The claim as the specification states it fails for [rows]: a
    dictionary with a location and no [rows] builds a table. *)
Lemma rows_key_is_optional :
  ¬ (∀ d : list (str * raw), dict_get (pystr "rows") d = None →
       ∃ e, DataTable.from_dict (RDict d) = Raise e).
Proof.
  intros Hclaim.
  destruct (Hclaim [(pystr "location", raw_location 3 7)] eq_refl) as [e He].
  vm_compute in He. discriminate He.
Qed.

(** ** [Cell.from_dict] *)

Lemma replace_from_single (x : N) (new s : str) :
  replace_from [x] new 0 s
  = flat_map (fun c => if N.eqb c x then new else [c]) s.
Proof.
  induction s as [|c s IH]; [done|].
  cbn [replace_from startswith length Nat.sub flat_map]. rewrite IH.
  rewrite (N.eqb_sym c x). by destruct (N.eqb x c).
Qed.

Lemma to_raw_string_escapes (s : str) : _to_raw_string s = escape_backslashes s.
Proof.
  unfold _to_raw_string, escape_backslashes.
  change (pystr "\") with [92%N]. change (pystr "\\") with [92%N; 92%N].
  cbn [str_replace]. apply replace_from_single.
Qed.

(** C8: the cell built from a dictionary stores the string found under
    [value] with every backslash replaced by two backslashes: a cell is
    built only from a string value, and it is built whenever the location
    builds.  In particular one backslash is stored as two. *)
Theorem cell_value_escapes_backslashes (d : list (str * raw)) :
  (∀ cell, Cell.from_dict (RDict d) = Ok cell →
     ∃ s, dict_get (pystr "value") d = Some (RStr s) ∧
          Cell.value cell = escape_backslashes s) ∧
  (∀ item location s,
     dict_get (pystr "location") d = Some item →
     Location.from_dict item = Ok location →
     dict_get (pystr "value") d = Some (RStr s) →
     Cell.from_dict (RDict d) = Ok (Cell.mk location (escape_backslashes s))) ∧
  (∀ s1 s2,
     escape_backslashes (s1 ++ pystr "\" ++ s2)
     = escape_backslashes s1 ++ pystr "\\" ++ escape_backslashes s2).
Proof.
  split; [|split].
  - intros cell. unfold Cell.from_dict, subscript.
    destruct (dict_get (pystr "location") d) as [item|]; [|done]. cbn [bind].
    destruct (Location.from_dict item) as [location|]; [|done]. cbn [bind].
    destruct (dict_get (pystr "value") d) as [v|]; [|done]. cbn [bind].
    destruct v as [| | |s| |]; try done. cbn [as_str bind].
    intros [= <-]. exists s. split; [done|]. apply to_raw_string_escapes.
  - intros item location s Hitem Hlocation Hvalue.
    unfold Cell.from_dict, subscript. rewrite Hitem, Hvalue. cbn [bind].
    rewrite Hlocation. cbn [bind as_str]. by rewrite to_raw_string_escapes.
  - intros s1 s2. unfold escape_backslashes. by rewrite !flat_map_app.
Qed.

Example cell_with_backslash :
  Cell.from_dict (RDict [(pystr "location", raw_location 3 9);
                         (pystr "value", RStr (pystr "a\b"))])
  = Ok (Cell.mk (at_ 3 9) (pystr "a\\b")).
Proof. reflexivity. Qed.

(** ** [Child.from_dict] *)

(** An optional field fails exactly with what the builder of its class
    raises on a populated entry. *)
Lemma field_of_Raise {A : Type} (from_dict : raw → result A)
    (d : list (str * raw)) (k : str) (e : exn) :
  field_of from_dict d k = Raise e
  ↔ ∃ item, dict_get k d = Some item ∧ truthy item = true ∧
            from_dict item = Raise e.
Proof.
  unfold field_of. destruct (dict_get k d) as [item|];
    [|split; [done | by intros (? & [=] & _)]].
  destruct (truthy item) eqn:Ht.
  - destruct (from_dict item) as [x|e'] eqn:Hitem; cbn [bind].
    + split; [done|]. intros (? & [= <-] & _ & Hraise). congruence.
    + split; [intros [= <-]; by exists item|].
      intros (? & [= <-] & _ & Hraise). congruence.
  - split; [done|]. intros (? & [= <-] & Ht' & _). congruence.
Qed.

(** C10, as the code has it: [Child.from_dict] checks no exclusivity.  The
    three fields are read one after the other and independently of each
    other: a field is absent when its key is missing or holds a falsy
    object, and is otherwise built from the object by the builder of its
    class.  The call returns exactly when each of the three reads returns,
    with all the fields so read; when all three keys hold objects that
    build, all three fields are populated.  The call raises exactly what
    the builder of a populated entry raises, for the first entry that does
    not build in the order background, rule, scenario. *)
Theorem child_fields_independent `{Externals} (d : list (str * raw)) :
  (∀ background rule scenario,
     field_of Background.from_dict d (pystr "background") = Ok background →
     field_of Rule.from_dict d (pystr "rule") = Ok rule →
     field_of Scenario.from_dict d (pystr "scenario") = Ok scenario →
     Child.from_dict (RDict d) = Ok (mkChild background rule scenario)) ∧
  (∀ child, Child.from_dict (RDict d) = Ok child →
     field_of Background.from_dict d (pystr "background")
       = Ok (Child.background child) ∧
     field_of Rule.from_dict d (pystr "rule") = Ok (Child.rule child) ∧
     field_of Scenario.from_dict d (pystr "scenario")
       = Ok (Child.scenario child)) ∧
  (∀ vb vr vs b r s,
     dict_get (pystr "background") d = Some vb → truthy vb = true →
     Background.from_dict vb = Ok b →
     dict_get (pystr "rule") d = Some vr → truthy vr = true →
     Rule.from_dict vr = Ok r →
     dict_get (pystr "scenario") d = Some vs → truthy vs = true →
     Scenario.from_dict vs = Ok s →
     Child.from_dict (RDict d) = Ok (mkChild (Some b) (Some r) (Some s))) ∧
  (∀ e, Child.from_dict (RDict d) = Raise e ↔
     (∃ item,
        dict_get (pystr "background") d = Some item ∧ truthy item = true ∧
        Background.from_dict item = Raise e) ∨
     (∃ background item,
        field_of Background.from_dict d (pystr "background") = Ok background ∧
        dict_get (pystr "rule") d = Some item ∧ truthy item = true ∧
        Rule.from_dict item = Raise e) ∨
     (∃ background rule item,
        field_of Background.from_dict d (pystr "background") = Ok background ∧
        field_of Rule.from_dict d (pystr "rule") = Ok rule ∧
        dict_get (pystr "scenario") d = Some item ∧ truthy item = true ∧
        Scenario.from_dict item = Raise e)).
Proof.
  assert (∀ background rule scenario,
            field_of Background.from_dict d (pystr "background") = Ok background →
            field_of Rule.from_dict d (pystr "rule") = Ok rule →
            field_of Scenario.from_dict d (pystr "scenario") = Ok scenario →
            Child.from_dict (RDict d) = Ok (mkChild background rule scenario))
    as Hbuild.
  { intros background rule scenario Hb Hr Hs.
    rewrite Child_from_dict_eq, !optional_spec. by rewrite Hb, Hr, Hs. }
  split; [done|]. split; [|split].
  - intros child. rewrite Child_from_dict_eq, !optional_spec.
    destruct (field_of Background.from_dict d _) as [background|]; [|done].
    destruct (field_of Rule.from_dict d _) as [rule|]; [|done].
    destruct (field_of Scenario.from_dict d _) as [scenario|]; [|done].
    cbn [bind]. by intros [= <-].
  - intros vb vr vs b r s Hvb Htb Hb Hvr Htr Hr Hvs Hts Hs. apply Hbuild.
    + unfold field_of. by rewrite Hvb, Htb, Hb.
    + unfold field_of. by rewrite Hvr, Htr, Hr.
    + unfold field_of. by rewrite Hvs, Hts, Hs.
  - intros e. rewrite Child_from_dict_eq, !optional_spec.
    pose proof (field_of_Raise Background.from_dict d (pystr "background") e)
      as Hb.
    pose proof (field_of_Raise Rule.from_dict d (pystr "rule") e) as Hr.
    pose proof (field_of_Raise Scenario.from_dict d (pystr "scenario") e) as Hs.
    destruct (field_of Background.from_dict d _) as [background|eb]; cbn [bind].
    2:{ split; [intros [= <-]; left; by apply Hb|].
        by intros [[= ->]%Hb|[(? & ? & ? & _)|(? & ? & ? & ? & _)]]. }
    assert (¬ ∃ item, dict_get (pystr "background") d = Some item ∧
                      truthy item = true ∧ Background.from_dict item = Raise e)
      as Hbuilt by (by intros ?%Hb).
    destruct (field_of Rule.from_dict d _) as [rule|er]; cbn [bind].
    2:{ split.
        - intros [= <-]. destruct (proj1 Hr eq_refl) as (item & Hitem).
          right. left. by exists background, item.
        - intros [?|[(? & item & _ & Hitem)|(? & ? & ? & _ & ? & _)]];
            [done | | done].
          assert (@Raise (option Rule.t) er = Raise e) as [= ->]; [|done].
          apply Hr. by exists item. }
    assert (¬ ∃ item, dict_get (pystr "rule") d = Some item ∧
                      truthy item = true ∧ Rule.from_dict item = Raise e)
      as Hruled by (by intros ?%Hr).
    destruct (field_of Scenario.from_dict d _) as [scenario|es]; cbn [bind].
    + split; [done|].
      intros [?|[(? & item & _ & Hitem)|(? & ? & item & _ & _ & Hitem)]];
        [done | destruct Hruled; by exists item |].
      assert (Ok scenario = Raise e) as Hscenario; [|done].
      apply Hs. by exists item.
    + split.
      * intros [= <-]. destruct (proj1 Hs eq_refl) as (item & Hitem).
        right. right. by exists background, rule, item.
      * intros [?|[(? & item & _ & Hitem)|(? & ? & item & _ & _ & Hitem)]];
          [done | destruct Hruled; by exists item |].
        assert (@Raise (option Scenario.t) es = Raise e) as [= ->]; [|done].
        apply Hs. by exists item.
Qed.

(** A child with a background, a rule and a scenario at once; and a child
    whose background lacks [id], next to a scenario that builds. *)
Lemma child_fields_independent_witness :
  (∃ b r s,
     @Child.from_dict failing_world
       (RDict [(pystr "background", raw_background); (pystr "rule", raw_rule);
               (pystr "scenario", raw_scenario)])
     = Ok (mkChild (Some b) (Some r) (Some s))) ∧
  @Child.from_dict failing_world (RDict raw_child_malformed)
  = Raise (KeyError (pystr "id")).
Proof.
  split.
  - do 3 eexists.
    by eapply (proj1 (proj2 (proj2 (@child_fields_independent failing_world _)))
                 raw_background raw_rule raw_scenario).
  - apply (proj2 (proj2 (proj2 (@child_fields_independent failing_world
                                   raw_child_malformed)))).
    left. by eexists.
Defined.

(** The claim as the specification states it, that the call succeeds on
    every dictionary, fails on a child whose background lacks its
    fields. *)
Lemma child_with_malformed_background :
  ¬ (∀ (E : Externals) (d : list (str * raw)),
       ∃ child, @Child.from_dict E (RDict d) = Ok child).
Proof.
  intros Hclaim.
  destruct (Hclaim failing_world
              [(pystr "background",
                RDict [(pystr "keyword", RStr (pystr "Background"))])])
    as [child Hchild].
  vm_compute in Hchild. discriminate Hchild.
Qed.

(* ===================================================================== *)
(** * Part III: further properties of the code                            *)
(* ===================================================================== *)

(** ** [DataTable.transpose]: shape of the result *)

Section TransposeShape.
Implicit Types (T : DataTable.t) (m : list (list Cell.t)).

Lemma transposed_matrix_lookup m i :
  i < DataTable.max_columns m →
  transposed_matrix m !! i = Some (cell_at i <$> m).
Proof.
  intros Hi. unfold transposed_matrix.
  by rewrite list_lookup_fmap, lookup_seq_lt.
Qed.

Lemma transposed_matrix_length m :
  length (transposed_matrix m) = DataTable.max_columns m.
Proof. unfold transposed_matrix. by rewrite length_fmap, length_seq. Qed.

Lemma transposed_matrix_width m row :
  row ∈ transposed_matrix m → length row = length m.
Proof.
  unfold transposed_matrix. intros (i & -> & _)%list_elem_of_fmap.
  by rewrite length_fmap.
Qed.

(** The rows of a transposed table are its cell matrix, numbered. *)
Lemma transpose_numbered T :
  DataTable.rows T ≠ [] →
  DataTable.transpose T
  = DataTable.mk (DataTable.location T)
      (numbered_rows (DataTable.location T)
         (transposed_matrix (Row.cells <$> DataTable.rows T))).
Proof.
  intros Hrows. rewrite (transpose_rows T Hrows). f_equal.
  unfold numbered_rows, transposed_matrix. apply list_eq. intros i.
  rewrite list_lookup_imap, !list_lookup_fmap.
  destruct (seq 0 _ !! i) as [j|] eqn:Hj; [|done].
  apply lookup_seq in Hj as [-> _]. done.
Qed.

Lemma transpose_no_rows T : DataTable.rows T = [] → DataTable.transpose T = T.
Proof. intros Hrows. unfold DataTable.transpose. by rewrite Hrows. Qed.

Lemma max_columns_zero m :
  m ≠ [] → DataTable.max_columns m = 0 → transposed_matrix m = [].
Proof. intros _ Hmax. unfold transposed_matrix. by rewrite Hmax. Qed.

Lemma numbered_rows_cells location m :
  Row.cells <$> numbered_rows location m = m.
Proof.
  unfold numbered_rows. apply list_eq. intros i.
  rewrite list_lookup_fmap, list_lookup_imap. by destruct (m !! i).
Qed.

(** Transposing the matrix twice pads every row to the greatest width. *)
Lemma transposed_matrix_twice_pads m :
  m ≠ [] → 0 < DataTable.max_columns m →
  transposed_matrix (transposed_matrix m)
  = pad_row (DataTable.max_columns m) <$> m.
Proof.
  intros Hm Hc. set (c := DataTable.max_columns m) in *.
  assert (transposed_matrix m ≠ []) as Hm'.
  { intros Hnil. pose proof (transposed_matrix_length m) as Hlen.
    rewrite Hnil in Hlen. simpl in Hlen. lia. }
  assert (DataTable.max_columns (transposed_matrix m) = length m) as Hmax'.
  { apply max_columns_uniform; [done|]. apply transposed_matrix_width. }
  destruct (max_columns_spec m Hm) as [Hbound _].
  unfold transposed_matrix at 1. rewrite Hmax'. apply list_eq. intros k.
  rewrite !list_lookup_fmap. destruct (m !! k) as [row|] eqn:Hk.
  - rewrite lookup_seq_lt by (by eapply lookup_lt_Some). cbn. f_equal.
    assert (length row ≤ c) as Hrow
      by (by eapply Hbound, list_elem_of_lookup_2).
    apply list_eq. intros i. rewrite list_lookup_fmap. unfold pad_row.
    destruct (decide (i < c)) as [Hi|Hi].
    + rewrite (transposed_matrix_lookup m i Hi). cbn.
      rewrite cell_at_lookup, list_lookup_fmap, Hk. cbn.
      rewrite cell_at_lookup. destruct (row !! i) as [cell|] eqn:Hcell.
      * by rewrite (lookup_app_l_Some _ _ _ _ Hcell).
      * apply lookup_ge_None in Hcell. rewrite lookup_app_r by done.
        rewrite lookup_replicate_2; [done | lia].
    + rewrite (lookup_ge_None_2 (transposed_matrix m))
        by (rewrite transposed_matrix_length; fold c; lia).
      cbn. symmetry. apply lookup_ge_None.
      rewrite length_app, length_replicate. lia.
  - rewrite lookup_seq_ge; [done|]. by apply lookup_ge_None.
Qed.
End TransposeShape.

(** X1: every row of a transposed table has one cell per row of the
    table, whatever the lengths of those rows: the result is rectangular. *)
Theorem transpose_is_rectangular (T : DataTable.t) :
  Forall (fun out => length (Row.cells out) = length (DataTable.rows T))
    (DataTable.rows (DataTable.transpose T)) ∧
  rectangular (DataTable.transpose T).
Proof.
  assert (Forall (fun out => length (Row.cells out) = length (DataTable.rows T))
            (DataTable.rows (DataTable.transpose T))) as Hall.
  { destruct (decide (DataTable.rows T = [])) as [Hnil|Hrows].
    - rewrite (transpose_no_rows T Hnil), Hnil. constructor.
    - rewrite (transpose_rows T Hrows). cbn [DataTable.rows].
      apply Forall_forall. intros out (i & -> & _)%list_elem_of_fmap.
      cbn [Row.cells]. by rewrite !length_fmap. }
  split; [done|]. rewrite Forall_forall in Hall.
  intros r1 r2 H1 H2. by rewrite (Hall r1 H1), (Hall r2 H2).
Qed.

(** X2: transposing twice keeps the number of rows and pads every row
    with placeholder cells to the greatest row length, when some row has a
    cell. *)
Theorem transpose_twice_pads (T : DataTable.t) :
  (∃ row, row ∈ DataTable.rows T ∧ Row.cells row ≠ []) →
  Row.cells <$> DataTable.rows (DataTable.transpose (DataTable.transpose T))
  = pad_row (DataTable.max_columns (Row.cells <$> DataTable.rows T))
      <$> (Row.cells <$> DataTable.rows T).
Proof.
  intros (row0 & Hrow0 & Hcells0).
  assert (DataTable.rows T ≠ []) as Hrows
    by (intros Hnil; rewrite Hnil in Hrow0; by apply elem_of_nil in Hrow0).
  set (m := Row.cells <$> DataTable.rows T).
  assert (m ≠ []) as Hm by (subst m; by destruct (DataTable.rows T)).
  assert (0 < DataTable.max_columns m) as Hc.
  { destruct (max_columns_spec m Hm) as [Hbound _].
    specialize (Hbound (Row.cells row0) (list_elem_of_fmap_2 _ _ _ Hrow0)).
    destruct (Row.cells row0); [done | simpl in Hbound; lia]. }
  assert (DataTable.rows (DataTable.transpose T) ≠ []) as Hrows'.
  { intros Hnil. pose proof (transpose_matrix T Hrows) as Heq.
    rewrite Hnil in Heq. fold m in Heq.
    pose proof (transposed_matrix_length m) as Hlen.
    rewrite <- Heq in Hlen. simpl in Hlen. lia. }
  rewrite (transpose_matrix _ Hrows'), (transpose_matrix _ Hrows). fold m.
  by apply transposed_matrix_twice_pads.
Qed.

Lemma transpose_twice_pads_witness :
  grid (DataTable.transpose (DataTable.transpose ragged_table))
  = [[pystr "a"; pystr "b"]; [pystr "1"; []]].
Proof.
  rewrite grid_cells, (transpose_twice_pads ragged_table); [reflexivity|].
  eexists. split; [apply list_elem_of_here | done].
Defined.

(** X3: a third transposition changes nothing: the transposed table is
    rectangular, and transposition is an involution on the tables that
    transposition produces. *)
Theorem transpose_thrice (T : DataTable.t) :
  DataTable.transpose (DataTable.transpose (DataTable.transpose T))
  = DataTable.transpose T.
Proof.
  destruct (decide (DataTable.rows T = [])) as [Hnil|Hrows].
  { by rewrite !(transpose_no_rows T Hnil). }
  set (m := Row.cells <$> DataTable.rows T).
  assert (m ≠ []) as Hm by (subst m; by destruct (DataTable.rows T)).
  set (T' := DataTable.transpose T).
  assert (DataTable.location T' = DataTable.location T) as Hloc'
    by (subst T'; by rewrite (transpose_numbered T Hrows)).
  assert (Row.cells <$> DataTable.rows T' = transposed_matrix m) as Hm'
    by (subst T'; by apply transpose_matrix).
  destruct (decide (DataTable.max_columns m = 0)) as [Hzero|Hpos].
  { assert (DataTable.rows T' = []) as Hnil'.
    { apply (fmap_nil_inv Row.cells). rewrite Hm'. by apply max_columns_zero. }
    by rewrite !(transpose_no_rows T' Hnil'). }
  assert (DataTable.rows T' ≠ []) as Hrows'.
  { intros Hnil. rewrite Hnil in Hm'.
    pose proof (transposed_matrix_length m) as Hlen.
    rewrite <- Hm' in Hlen. simpl in Hlen. lia. }
  assert (0 < length m) as Hn by (destruct m; [done | simpl; lia]).
  assert (DataTable.max_columns (transposed_matrix m) = length m) as Hmax'.
  { apply max_columns_uniform; [by rewrite <- Hm'; destruct (DataTable.rows T')|].
    apply transposed_matrix_width. }
  set (T'' := DataTable.transpose T').
  assert (Row.cells <$> DataTable.rows T''
          = transposed_matrix (transposed_matrix m)) as Hm''
    by (subst T''; by rewrite (transpose_matrix T' Hrows'), Hm').
  assert (DataTable.location T'' = DataTable.location T) as Hloc''
    by (subst T''; by rewrite (transpose_numbered T' Hrows')).
  assert (DataTable.rows T'' ≠ []) as Hrows''.
  { intros Hnil. rewrite Hnil in Hm''.
    pose proof (transposed_matrix_length (transposed_matrix m)) as Hlen.
    rewrite <- Hm'', Hmax' in Hlen. simpl in Hlen. lia. }
  rewrite (transpose_numbered T'' Hrows''), Hloc'', Hm''.
  subst T'. rewrite (transpose_numbered T Hrows). fold m. do 2 f_equal.
  apply (transposed_matrix_twice _ (length m)).
  - by rewrite <- Hm'; destruct (DataTable.rows (DataTable.transpose T)).
  - done.
  - apply transposed_matrix_width.
Qed.

(** ** [DataTable.to_dict]: tables that are not rectangular *)

Lemma dict_loop_ext (header : list str) (tv tv' : list (list str))
    (idxs : list nat) (acc : gmap str (list str)) :
  (∀ i, i ∈ idxs → tv !! i = tv' !! i) →
  DataTable.dict_loop header tv idxs acc = DataTable.dict_loop header tv' idxs acc.
Proof.
  revert acc. induction idxs as [|i idxs IH]; intros acc Heq; [done|].
  cbn [DataTable.dict_loop]. unfold index.
  rewrite <- (Heq i) by apply list_elem_of_here.
  destruct (header !! i) as [key|]; [|done]. cbn [bind].
  destruct (tv !! i) as [values|]; [|done]. cbn [bind].
  apply IH. intros j Hj. apply Heq. by apply list_elem_of_further.
Qed.

Lemma mapM_lookup_take {A : Type} (ls : list (list A)) (n i : nat) :
  i < n →
  mapM (fun l => l !! i) (take n <$> ls) = mapM (fun l => l !! i) ls.
Proof.
  intros Hi. induction ls as [|l ls IH]; [done|]. rewrite fmap_cons. simpl.
  rewrite IH. by rewrite lookup_take_lt.
Qed.

(** X4: the cells of a data row beyond the width of the header row have
    no influence on the result of [to_dict], a dictionary or an exception:
    it is the result for the table without those cells. *)
Theorem to_dict_ignores_extra_cells (T : DataTable.t) :
  DataTable.to_dict T = DataTable.to_dict (truncate_data_rows T).
Proof.
  unfold truncate_data_rows.
  destruct (DataTable.rows T) as [|row0 [|row1 rows]] eqn:Hrows; [done| |].
  - unfold DataTable.to_dict. by rewrite Hrows.
  - set (trunc := fun row =>
           Row.mk (Row.id row) (Row.location row)
             (take (length (Row.cells row0)) (Row.cells row))).
    rewrite (to_dict_rows T _ _ _ Hrows).
    rewrite (to_dict_rows
               (DataTable.mk (DataTable.location T) (row0 :: (trunc <$> row1 :: rows)))
               row0 (trunc row1) (fmap (M:=list) trunc rows) eq_refl).
    apply dict_loop_ext. intros i [_ Hi]%elem_of_seq.
    change (trunc row1 :: (trunc <$> rows)) with (trunc <$> row1 :: rows).
    rewrite !zip_star_lookup by done.
    rewrite <- (mapM_lookup_take _ (length (Row.cells row0)) i) by lia.
    f_equal. rewrite <- !list_fmap_compose. apply list_fmap_ext.
    intros k row _. cbn. by rewrite fmap_take.
Qed.

Example to_dict_long_row :
  DataTable.to_dict long_row_table = Ok (<[pystr "a" := [pystr "1"]]> ∅).
Proof. vm_compute. reflexivity. Qed.

(** X5: whenever [to_dict] returns, on any table, every entry of the
    dictionary is the column of some header cell with the key as its
    value: it has one value per data row, in the order of the rows, taken
    from the same position in each of them. *)
Theorem to_dict_entries_are_columns (T : DataTable.t)
    (result_dict : gmap str (list str)) (key : str) (column : list str) :
  DataTable.to_dict T = Ok result_dict →
  result_dict !! key = Some column →
  length column = length (DataTable.rows T) - 1 ∧
  ∃ header_row i cell,
    DataTable.rows T !! 0 = Some header_row ∧
    Row.cells header_row !! i = Some cell ∧ Cell.value cell = key ∧
    ∀ k row, DataTable.rows T !! S k = Some row →
      ∃ data_cell, Row.cells row !! i = Some data_cell ∧
                   column !! k = Some (Cell.value data_cell).
Proof.
  intros Hdict Hkey.
  destruct (DataTable.rows T) as [|row0 [|row1 rows]] eqn:Hrows.
  - unfold DataTable.to_dict in Hdict. by rewrite Hrows in Hdict.
  - unfold DataTable.to_dict in Hdict. by rewrite Hrows in Hdict.
  - rewrite (to_dict_rows T _ _ _ Hrows) in Hdict.
    set (header := Cell.value <$> Row.cells row0) in *.
    set (values_rows :=
           (fun row => Cell.value <$> Row.cells row) <$> row1 :: rows) in *.
    destruct (dict_loop_lookup _ _ _ _ _ Hdict) as [Hfresh Hlast].
    assert (key ∈ header) as Hin.
    { destruct (decide (key ∈ header)) as [Hin|Hout]; [done|].
      rewrite Hfresh, lookup_empty in Hkey; [done|].
      intros i _ Hi. apply Hout. by eapply list_elem_of_lookup_2. }
    destruct (last_occurrence _ _ Hin) as (before & after & Heq & Hafter).
    set (i := length before).
    assert (header !! i = Some key) as Hi
      by (rewrite Heq; by apply list_lookup_middle).
    assert (i < length (Row.cells row0)) as Hlt.
    { apply lookup_lt_Some in Hi. subst header. by rewrite length_fmap in Hi. }
    assert (result_dict !! key = zip_star values_rows !! i) as Hcol.
    { apply (Hlast key (seq 0 i) i (seq (S i) (length (Row.cells row0) - S i)));
        [by apply seq_split_at | done |].
      intros j [Hj _]%elem_of_seq Hjk. apply Hafter. rewrite Heq in Hjk.
      rewrite lookup_app_r in Hjk by (fold i; lia).
      destruct (j - length before) as [|n] eqn:Hn; [fold i in Hn; lia|].
      simpl in Hjk. by eapply list_elem_of_lookup_2. }
    rewrite Hkey, zip_star_lookup in Hcol by done. symmetry in Hcol.
    apply mapM_Some in Hcol. split.
    + rewrite <- (Forall2_length _ _ _ Hcol). subst values_rows.
      rewrite length_fmap. simpl. lia.
    + subst header. apply list_lookup_fmap_Some in Hi as (cell & Hval & Hcell).
      exists row0, i, cell. split; [done|]. split; [done|]. split; [done|].
      intros k row Hk. change ((row1 :: rows) !! k = Some row) in Hk.
      assert (values_rows !! k = Some (Cell.value <$> Row.cells row)) as Hvk
        by (subst values_rows; by rewrite list_lookup_fmap, Hk).
      destruct (Forall2_lookup_l _ _ _ _ _ Hcol Hvk) as (y & Hy & Hrow).
      apply list_lookup_fmap_Some in Hrow as (data_cell & -> & Hdata).
      by exists data_cell.
Qed.

Lemma to_dict_entries_are_columns_witness :
  ∃ header_row i cell,
    DataTable.rows long_row_table !! 0 = Some header_row ∧
    Row.cells header_row !! i = Some cell ∧ Cell.value cell = pystr "a" ∧
    ∀ k row, DataTable.rows long_row_table !! S k = Some row →
      ∃ data_cell, Row.cells row !! i = Some data_cell ∧
                   [pystr "1"] !! k = Some (Cell.value data_cell).
Proof.
  refine (proj2 (to_dict_entries_are_columns long_row_table
                   (<[pystr "a" := [pystr "1"]]> ∅) (pystr "a") [pystr "1"] _ _)).
  - vm_compute. reflexivity.
  - vm_compute. reflexivity.
Defined.

(** ** The classifier: what the rules look for *)

Section RuleShape.
Implicit Types (w kw : str).

Lemma Matches_Star_Dot w : Matches (Star Dot) w ↔ 10%N ∉ w.
Proof.
  split.
  - intros H. remember (Star Dot) as r eqn:Hr.
    induction H as [| | | | | |r0 s1 s2 H1 _ H2 IH2]; try discriminate.
    + apply not_elem_of_nil.
    + injection Hr as ->. apply Matches_Sym_inv in H1 as (c & -> & Hc).
      apply negb_true_iff, N.eqb_neq in Hc.
      intros [Heq|Hin]%elem_of_cons; [done | by apply IH2].
  - induction w as [|c w IH]; intros Hnl; [constructor|].
    apply not_elem_of_cons in Hnl as [Hc Hw].
    apply (MStarS _ [c] w); [|by apply IH].
    constructor. apply negb_true_iff, N.eqb_neq. done.
Qed.

Lemma Matches_Alts_Lit (alts : list str) w :
  Matches (Alts (Lit <$> alts)) w ↔ w ∈ alts.
Proof.
  induction alts as [|kw alts IH]; simpl.
  - split; [by intros ?%Matches_Void_inv | by intros ?%elem_of_nil].
  - rewrite elem_of_cons, <- IH, <- Matches_Lit. split.
    + by intros ?%Matches_Alt_inv.
    + intros [H|H]; [by apply MAltL | by apply MAltR].
Qed.

(** The words of a pattern with a group of keywords. *)
Lemma Matches_expected_got_alts (alts : list str) w :
  Matches (Seq [Lit (pystr "expected:"); Star Dot; Lit (pystr "got '");
                Alts (Lit <$> alts); Star Dot; Lit (pystr "'")]) w
  ↔ ∃ kw b c, kw ∈ alts ∧
      w = pystr "expected:" ++ b ++ pystr "got '" ++ kw ++ c ++ pystr "'" ∧
      (10%N ∉ b) ∧ (10%N ∉ c).
Proof.
  cbn [Seq]. split.
  - intros (w1 & ? & -> & H1 & H)%Matches_Cat_inv.
    apply Matches_Cat_inv in H as (b & ? & -> & Hb & H).
    apply Matches_Cat_inv in H as (w3 & ? & -> & H3 & H).
    apply Matches_Cat_inv in H as (kw & ? & -> & Hkw & H).
    apply Matches_Cat_inv in H as (c & ? & -> & Hc & H).
    apply Matches_Cat_inv in H as (w6 & ? & -> & H6 & ->%Matches_Eps_inv).
    apply Matches_Lit in H1 as ->. apply Matches_Lit in H3 as ->.
    apply Matches_Lit in H6 as ->. rewrite app_nil_r.
    exists kw, b, c. split; [by apply Matches_Alts_Lit|]. split; [done|].
    split; by apply Matches_Star_Dot.
  - intros (kw & b & c & Hkw & -> & Hb & Hc).
    apply MCat; [by apply Matches_Lit|]. apply MCat; [by apply Matches_Star_Dot|].
    apply MCat; [by apply Matches_Lit|]. apply MCat; [by apply Matches_Alts_Lit|].
    apply MCat; [by apply Matches_Star_Dot|].
    apply (Matches_Cat_intro _ _ (pystr "'") []);
      [by apply Matches_Lit | constructor | by rewrite app_nil_r].
Qed.

(** The words of a pattern with one keyword, written in one literal with
    [got ']. *)
Lemma Matches_expected_got (lit kw : str) w :
  lit = pystr "got '" ++ kw →
  Matches (Seq [Lit (pystr "expected:"); Star Dot; Lit lit; Star Dot;
                Lit (pystr "'")]) w
  ↔ ∃ b c,
      w = pystr "expected:" ++ b ++ pystr "got '" ++ kw ++ c ++ pystr "'" ∧
      (10%N ∉ b) ∧ (10%N ∉ c).
Proof.
  intros ->. cbn [Seq]. split.
  - intros (w1 & ? & -> & H1 & H)%Matches_Cat_inv.
    apply Matches_Cat_inv in H as (b & ? & -> & Hb & H).
    apply Matches_Cat_inv in H as (w3 & ? & -> & H3 & H).
    apply Matches_Cat_inv in H as (c & ? & -> & Hc & H).
    apply Matches_Cat_inv in H as (w6 & ? & -> & H6 & ->%Matches_Eps_inv).
    apply Matches_Lit in H1 as ->. apply Matches_Lit in H3 as ->.
    apply Matches_Lit in H6 as ->. rewrite app_nil_r, <- (assoc_L (++)).
    exists b, c. split; [done|]. split; by apply Matches_Star_Dot.
  - intros (b & c & -> & Hb & Hc).
    apply MCat; [by apply Matches_Lit|]. apply MCat; [by apply Matches_Star_Dot|].
    rewrite (assoc_L (++) (pystr "got '")).
    apply MCat; [by apply Matches_Lit|].
    apply MCat; [by apply Matches_Star_Dot|].
    apply (Matches_Cat_intro _ _ (pystr "'") []);
      [by apply Matches_Lit | constructor | by rewrite app_nil_r].
Qed.

Lemma search_expected_got (r : regex) (alts : list str) (error_line : str) :
  (∀ w, Matches r w ↔
        ∃ kw b c, kw ∈ alts ∧
          w = pystr "expected:" ++ b ++ pystr "got '" ++ kw ++ c ++ pystr "'" ∧
          (10%N ∉ b) ∧ (10%N ∉ c)) →
  search r error_line = true
  ↔ ∃ kw, kw ∈ alts ∧ expected_got_shape kw error_line.
Proof.
  intros Hr. rewrite search_spec. unfold expected_got_shape. split.
  - intros (a & w & d & -> & (kw & b & c & Hkw & -> & Hb & Hc)%Hr).
    exists kw. split; [done|]. exists a, b, c, d.
    split; [|done]. by rewrite <- !(assoc_L (++)).
  - intros (kw & Hkw & a & b & c & d & -> & Hb & Hc).
    exists a, (pystr "expected:" ++ b ++ pystr "got '" ++ kw ++ c ++ pystr "'"), d.
    split; [by rewrite <- !(assoc_L (++))|]. apply Hr. by exists kw, b, c.
Qed.

Lemma search_expected_got_one (lit kw : str) (error_line : str) :
  lit = pystr "got '" ++ kw →
  search (Seq [Lit (pystr "expected:"); Star Dot; Lit lit; Star Dot;
               Lit (pystr "'")]) error_line = true
  ↔ ∃ kw', kw' ∈ [kw] ∧ expected_got_shape kw' error_line.
Proof.
  intros Hlit. apply search_expected_got. intros w.
  rewrite (Matches_expected_got lit kw w Hlit). split.
  - intros (b & c & H). exists kw, b, c. split; [apply list_elem_of_here | done].
  - intros (kw' & b & c & ->%list_elem_of_singleton & H). by exists b, c.
Qed.
End RuleShape.

(** X6: what each rule of [ERROR_PATTERNS] looks for.  The pattern of a
    rule is found in a line exactly when the line holds [expected:], later
    [got '] followed at once by a keyword of the rule, and later a quote,
    with no newline between these parts; the keywords are, rule by rule,
    [Feature]; [Given], [When], [Then], [And], [But]; [Background];
    [Scenario]; [Given]; [Rule]; and none for the last rule. *)
Theorem rule_found_iff_shape (j : nat) (p : error_pattern)
    (keywords : list str) (error_line : str) :
  ERROR_PATTERNS !! j = Some p →
  rule_keywords !! j = Some keywords →
  search (pattern p) error_line = true
  ↔ ∃ kw, kw ∈ keywords ∧ expected_got_shape kw error_line.
Proof.
  intros Hp Hkw.
  do 7 (destruct j as [|j];
        [pattern_entry Hp; subst p; cbn [pattern];
         injection Hkw as <-;
         first [ by apply search_expected_got_one
               | apply search_expected_got; intros w;
                 apply (Matches_expected_got_alts
                          [pystr "Given"; pystr "When"; pystr "Then";
                           pystr "And"; pystr "But"]) ]|]).
  done.
Qed.

Lemma rule_found_iff_shape_witness :
  search (Seq [Lit (pystr "expected:"); Star Dot; Lit (pystr "got 'Rule");
               Star Dot; Lit (pystr "'")])
    (pystr "(3:1): expected: #EOF, got 'Rule: r'") = true.
Proof.
  refine (proj2 (rule_found_iff_shape 5
                   {| pattern := _; exception := RuleError; hint := _ |}
                   [pystr "Rule"] _ eq_refl eq_refl) _).
  exists (pystr "Rule"). split; [apply list_elem_of_here|].
  exists (pystr "(3:1): "), (pystr " #EOF, "), (pystr ": r"), [].
  split; [reflexivity|]. split; intros H%list_elem_of_In; vm_compute in H;
    repeat (destruct H as [H|H]; [discriminate H|]); done.
Defined.

(** ** The classifier: its outcomes *)

Section ClassifierOutcome.
Context (line : Z) (line_content filename : str)
        (original_exception : option CompositeParserException).

Lemma try_patterns_Ok (patterns : list error_pattern) (error_line : str) :
  try_patterns patterns error_line line line_content filename
    original_exception = Ok tt →
  ∀ p, p ∈ patterns → search (pattern p) error_line = false.
Proof.
  induction patterns as [|q patterns IH]; [by intros _ p ?%elem_of_nil|].
  rewrite try_patterns_cons.
  destruct (search (pattern q) error_line) eqn:Hq; [done|].
  intros Hok p [->|Hp]%elem_of_cons; [done | by apply IH].
Qed.

Lemma check_lines_Ok (patterns : list error_pattern) (error_lines : list str) :
  check_lines patterns error_lines line line_content filename
    original_exception = Ok tt →
  ∀ error_line p, error_line ∈ error_lines → p ∈ patterns →
    search (pattern p) error_line = false.
Proof.
  induction error_lines as [|l error_lines IH];
    [by intros _ error_line p ?%elem_of_nil|].
  cbn [check_lines].
  destruct (try_patterns patterns l line line_content filename
              original_exception) as [[]|e] eqn:Hl; [|done].
  cbn [bind]. intros Hok error_line p [->|Hin]%elem_of_cons Hp.
  - by apply (try_patterns_Ok _ _ Hl).
  - by apply IH.
Qed.
End ClassifierOutcome.

Lemma pattern_class_not_generic (p : error_pattern) :
  p ∈ ERROR_PATTERNS → exception p ≠ GherkinParseError.
Proof.
  intros (j & Hj)%list_elem_of_lookup.
  do 7 (destruct j as [|j]; [pattern_entry Hj; by subst p|]).
  done.
Qed.

(** X7: the outcomes of the classifier.  It returns exactly when no
    pattern is found in any line of the diagnostic.  Whatever it raises
    is the exception of a rule whose pattern is found in a line of the
    diagnostic: of the class and with the hint of that rule, never of the
    generic class [GherkinParseError], and with the line number, the line
    text, the file name and the cause that the caller passed. *)
Theorem classifier_outcomes (raw_error : str) (line : Z)
    (line_content filename : str)
    (original_exception : option CompositeParserException) :
  (handle_gherkin_parser_error raw_error line line_content filename
     original_exception = Ok tt
   ↔ ∀ error_line p, error_line ∈ splitlines raw_error → p ∈ ERROR_PATTERNS →
       search (pattern p) error_line = false) ∧
  (∀ e, handle_gherkin_parser_error raw_error line line_content filename
          original_exception = Raise e →
     ∃ error_line p,
       error_line ∈ splitlines raw_error ∧ p ∈ ERROR_PATTERNS ∧
       search (pattern p) error_line = true ∧
       exception p ≠ GherkinParseError ∧
       e = GherkinError (exception p) (hint p) line line_content filename
             original_exception).
Proof.
  unfold handle_gherkin_parser_error. split; [split|].
  - apply check_lines_Ok.
  - apply check_lines_unmatched.
  - intros e (error_line & Hline & Htry)%check_lines_raise.
    apply try_patterns_raise in Htry as (j & p & Hj & Hp & _ & ->).
    apply list_elem_of_lookup_2 in Hj.
    exists error_line, p. repeat split; try done.
    by apply pattern_class_not_generic.
Qed.

Lemma expected_got_shape_weaken (kw error_line : str) :
  10%N ∉ kw → expected_got_shape kw error_line → expected_got_shape [] error_line.
Proof.
  intros Hkw (a & b & c & d & -> & Hb & Hc). exists a, b, (kw ++ c), d.
  split; [by rewrite <- (assoc_L (++) kw c)|].
  split; [done|]. by intros [?|?]%elem_of_app.
Qed.

Lemma keyword_no_newline (kw : str) :
  forallb (fun c => negb (N.eqb c 10)) kw = true → 10%N ∉ kw.
Proof.
  rewrite forallb_forall. intros Hall Hin%list_elem_of_In.
  apply Hall in Hin. by rewrite N.eqb_refl in Hin.
Qed.

(** Every pattern of the list finds only lines that the last pattern
    finds. *)
Lemma one_keyword_shape (lit kw error_line : str) :
  lit = pystr "got '" ++ kw →
  forallb (fun c => negb (N.eqb c 10)) kw = true →
  search (Seq [Lit (pystr "expected:"); Star Dot; Lit lit; Star Dot;
               Lit (pystr "'")]) error_line = true →
  expected_got_shape [] error_line.
Proof.
  intros Hlit Hkw Hfound.
  apply (search_expected_got_one lit kw) in Hfound
    as (kw' & ->%list_elem_of_singleton & Hshape); [|done].
  apply (expected_got_shape_weaken kw); [by apply keyword_no_newline | done].
Qed.

Lemma step_keywords_shape (error_line : str) :
  search (Seq [Lit (pystr "expected:"); Star Dot; Lit (pystr "got '");
               Alts [Lit (pystr "Given"); Lit (pystr "When");
                     Lit (pystr "Then"); Lit (pystr "And"); Lit (pystr "But")];
               Star Dot; Lit (pystr "'")]) error_line = true →
  expected_got_shape [] error_line.
Proof.
  intros Hfound.
  apply (search_expected_got _
           [pystr "Given"; pystr "When"; pystr "Then"; pystr "And"; pystr "But"])
    in Hfound as (kw & Hkw & Hshape).
  - apply (expected_got_shape_weaken kw); [|done].
    repeat (apply elem_of_cons in Hkw as [->|Hkw]; [by apply keyword_no_newline|]).
    by apply elem_of_nil in Hkw.
  - intros w. apply (Matches_expected_got_alts
      [pystr "Given"; pystr "When"; pystr "Then"; pystr "And"; pystr "But"]).
Qed.

(** Every pattern of the list finds only lines that the last pattern
    finds. *)
Lemma last_pattern_finds_all (p p7 : error_pattern) (error_line : str) :
  p ∈ ERROR_PATTERNS → ERROR_PATTERNS !! 6 = Some p7 →
  search (pattern p) error_line = true →
  search (pattern p7) error_line = true.
Proof.
  intros (j & Hj)%list_elem_of_lookup H7. pattern_entry H7. subst p7.
  cbn [pattern]. intros Hfound.
  apply (search_expected_got_one (pystr "got '") []); [done|].
  exists []. split; [apply list_elem_of_here|]. revert Hfound.
  destruct j as [|j]; [pattern_entry Hj; subst p;
    by apply (one_keyword_shape _ (pystr "Feature"))|].
  destruct j as [|j]; [pattern_entry Hj; subst p; apply step_keywords_shape|].
  destruct j as [|j]; [pattern_entry Hj; subst p;
    by apply (one_keyword_shape _ (pystr "Background"))|].
  destruct j as [|j]; [pattern_entry Hj; subst p;
    by apply (one_keyword_shape _ (pystr "Scenario"))|].
  destruct j as [|j]; [pattern_entry Hj; subst p;
    by apply (one_keyword_shape _ (pystr "Given"))|].
  destruct j as [|j]; [pattern_entry Hj; subst p;
    by apply (one_keyword_shape _ (pystr "Rule"))|].
  destruct j as [|j]; [pattern_entry Hj; subst p;
    by apply (one_keyword_shape _ [])|].
  done.
Qed.

(** X8: the unexpected-token rule is a catch-all: a line in which any
    pattern is found is a line in which the last pattern is found.  So the
    classifier returns, and leaves the failure to the generic error of the
    loader, exactly when no line of the diagnostic holds [expected:], later
    [got '] and later a quote, and it raises on every other diagnostic. *)
Theorem classifier_returns_iff_no_expected_got (raw_error : str) (line : Z)
    (line_content filename : str)
    (original_exception : option CompositeParserException) :
  handle_gherkin_parser_error raw_error line line_content filename
    original_exception = Ok tt
  ↔ ∀ error_line, error_line ∈ splitlines raw_error →
      ¬ expected_got_shape [] error_line.
Proof.
  assert (∃ p7, ERROR_PATTERNS !! 6 = Some p7) as [p7 H7]
    by (eexists; reflexivity).
  assert (∀ error_line, search (pattern p7) error_line = true
                        ↔ expected_got_shape [] error_line) as Hlast.
  { intros error_line. pose proof H7 as H7'. pattern_entry H7'. subst p7.
    cbn [pattern]. rewrite (search_expected_got_one (pystr "got '") []) by done.
    split.
    - by intros (kw & ->%list_elem_of_singleton & Hshape).
    - intros Hshape. exists []. split; [apply list_elem_of_here | done]. }
  unfold handle_gherkin_parser_error. split.
  - intros Hok error_line Hline Hshape. apply Hlast in Hshape.
    rewrite (check_lines_Ok _ _ _ _ _ _ Hok error_line p7 Hline) in Hshape;
      [done|]. by eapply list_elem_of_lookup_2.
  - intros Hnone. apply check_lines_unmatched. intros error_line p Hline Hp.
    destruct (search (pattern p) error_line) eqn:Hfound; [|done].
    destruct (Hnone error_line Hline). apply Hlast.
    by apply (last_pattern_finds_all p).
Qed.

(** ** The builders: what a built node holds *)

Lemma traverse_Ok {A B : Type} (f : A → result B) (l : list A) (ys : list B) :
  traverse f l = Ok ys ↔ Forall2 (fun x y => f x = Ok y) l ys.
Proof.
  revert ys. induction l as [|x l IH]; intros ys.
  - split; [intros [= <-]; constructor | by intros ->%Forall2_nil_inv_l].
  - cbn [traverse]. fold (traverse f l). split.
    + destruct (f x) as [y|] eqn:Hx; [|done]. cbn [bind].
      destruct (traverse f l) as [ys'|] eqn:Hl; [|done]. cbn [bind].
      intros [= <-]. constructor; [done | by apply IH].
    + intros (y & ys' & Hx & Hl & ->)%Forall2_cons_inv_l.
      apply IH in Hl. by rewrite Hx, Hl.
Qed.

Lemma for_each_Ok {B : Type} (f : raw → result B) (xs : raw) (ys : list B) :
  for_each f xs = Ok ys
  ↔ ∃ items, iter xs = Ok items ∧ Forall2 (fun x y => f x = Ok y) items ys.
Proof.
  unfold for_each. split.
  - destruct (iter xs) as [items|]; [|done]. cbn [bind].
    intros Hl%traverse_Ok. by exists items.
  - intros (items & -> & Hl). by apply traverse_Ok.
Qed.

Lemma subscript_Ok (d : list (str * raw)) (k : str) (v : raw) :
  subscript (RDict d) k = Ok v ↔ dict_get k d = Some v.
Proof.
  unfold subscript. destruct (dict_get k d); split; by intros [= ->].
Qed.

Lemma location_Ok (d : list (str * raw)) (location : Location.t) :
  (l <- subscript (RDict d) (pystr "location") ;; Location.from_dict l)
    = Ok location →
  location_built d location.
Proof.
  destruct (subscript (RDict d) (pystr "location")) as [item|] eqn:Hitem; [|done].
  apply subscript_Ok in Hitem. cbn [bind]. by exists item.
Qed.

Lemma items_Ok {A : Type} (f : raw → result A) (d : list (str * raw)) (k : str)
    (field : list A) :
  (xs <- subscript (RDict d) k ;; for_each f xs) = Ok field →
  items_built f d k field.
Proof.
  destruct (subscript (RDict d) k) as [xs|] eqn:Hxs; [|done].
  apply subscript_Ok in Hxs. cbn [bind].
  intros (items & Hiter & Hall)%for_each_Ok. by exists xs, items.
Qed.

(** Takes apart a chain of reads that returned. *)
Ltac reads_returned H :=
  repeat match type of H with
         | bind ?m _ = Ok _ =>
             let E := fresh "Hread" in
             destruct m eqn:E; cbn [bind] in H; [|discriminate H]
         end;
  injection H as <-.

(** X9: a table node that is built holds what the tree holds.  A row has
    the [id] of its dictionary, the location built from [location] and
    the cells built from the items of [cells], one for one and in order;
    a data table has the rows built from the items of [rows], or none
    when the key is absent; an examples table has the [name] of its
    dictionary, or [None], the header built from [tableHeader] when that
    is present and truthy, and the rows built from [tableBody], or none
    when the key is absent. *)
Theorem table_nodes_reflect_tree (d : list (str * raw)) :
  (∀ row, Row.from_dict (RDict d) = Ok row →
     dict_get (pystr "id") d = Some (Row.id row) ∧
     location_built d (Row.location row) ∧
     items_built Cell.from_dict d (pystr "cells") (Row.cells row)) ∧
  (∀ table, DataTable.from_dict (RDict d) = Ok table →
     location_built d (DataTable.location table) ∧
     match dict_get (pystr "rows") d with
     | Some _ => items_built Row.from_dict d (pystr "rows") (DataTable.rows table)
     | None => DataTable.rows table = []
     end) ∧
  (∀ table, ExamplesTable.from_dict (RDict d) = Ok table →
     location_built d (ExamplesTable.location table) ∧
     ExamplesTable.name table = default RNone (dict_get (pystr "name") d) ∧
     field_of Row.from_dict d (pystr "tableHeader")
       = Ok (ExamplesTable.table_header table) ∧
     match dict_get (pystr "tableBody") d with
     | Some _ =>
         items_built Row.from_dict d (pystr "tableBody")
           (ExamplesTable.table_body table)
     | None => ExamplesTable.table_body table = []
     end).
Proof.
  split; [|split].
  - intros row Hrow. unfold Row.from_dict in Hrow. reads_returned Hrow.
    cbn [Row.id Row.location Row.cells].
    split; [by apply subscript_Ok|]. split; [by apply location_Ok|].
    by apply items_Ok.
  - intros table Htable. unfold DataTable.from_dict in Htable.
    reads_returned Htable. cbn [DataTable.location DataTable.rows].
    split; [by apply location_Ok|].
    destruct (dict_get (pystr "rows") d) as [xs|] eqn:Hxs.
    + apply items_Ok. unfold subscript. rewrite Hxs.
      unfold get_default in *. by rewrite Hxs in *.
    + unfold get_default in *. rewrite Hxs in *. cbn [bind] in *.
      apply for_each_Ok in Hread0 as (items & [= <-] & Hall).
      by apply Forall2_nil_inv_l in Hall.
  - intros table Htable. unfold ExamplesTable.from_dict in Htable.
    reads_returned Htable.
    cbn [ExamplesTable.location ExamplesTable.name ExamplesTable.table_header
         ExamplesTable.table_body].
    split; [by apply location_Ok|]. split.
    { unfold get, get_default in *.
      destruct (dict_get (pystr "name") d); by injection Hread0 as <-. }
    split; [by rewrite <- optional_spec|].
    destruct (dict_get (pystr "tableBody") d) as [xs|] eqn:Hxs.
    + apply items_Ok. unfold subscript. rewrite Hxs.
      unfold get_default in *. by rewrite Hxs in *.
    + unfold get_default in *. rewrite Hxs in *. cbn [bind] in *.
      apply for_each_Ok in Hread2 as (items & [= <-] & Hall).
      by apply Forall2_nil_inv_l in Hall.
Qed.

(** X10: a leaf node that is built holds what the tree holds.  A tag and
    a comment hold the objects of their dictionary unchanged; a doc string
    holds the dedented [content], which is a string; a step holds its
    [keyword], a string, with the white space at both ends removed, its
    other fields unchanged, and a data table and a doc string exactly when
    [dataTable] and [docString] are present and truthy. *)
Theorem leaf_nodes_reflect_tree `{Externals} (d : list (str * raw)) :
  (∀ tag, Tag.from_dict (RDict d) = Ok tag →
     dict_get (pystr "id") d = Some (Tag.id tag) ∧
     location_built d (Tag.location tag) ∧
     dict_get (pystr "name") d = Some (Tag.name tag)) ∧
  (∀ comment, Comment.from_dict (RDict d) = Ok comment →
     location_built d (Comment.location comment) ∧
     dict_get (pystr "text") d = Some (Comment.text comment)) ∧
  (∀ doc_string, DocString.from_dict (RDict d) = Ok doc_string →
     (∃ text, dict_get (pystr "content") d = Some (RStr text) ∧
              DocString.content doc_string = dedent text) ∧
     dict_get (pystr "delimiter") d = Some (DocString.delimiter doc_string) ∧
     location_built d (DocString.location doc_string)) ∧
  (∀ step, Step.from_dict (RDict d) = Ok step →
     dict_get (pystr "id") d = Some (Step.id step) ∧
     (∃ keyword, dict_get (pystr "keyword") d = Some (RStr keyword) ∧
                 Step.keyword step = strip keyword) ∧
     dict_get (pystr "keywordType") d = Some (Step.keyword_type step) ∧
     location_built d (Step.location step) ∧
     dict_get (pystr "text") d = Some (Step.text step) ∧
     field_of DataTable.from_dict d (pystr "dataTable")
       = Ok (Step.data_table step) ∧
     field_of DocString.from_dict d (pystr "docString")
       = Ok (Step.doc_string step)).
Proof.
  split; [|split; [|split]].
  - intros tag Htag. unfold Tag.from_dict in Htag. reads_returned Htag.
    cbn [Tag.id Tag.location Tag.name].
    split; [by apply subscript_Ok|]. split; [by apply location_Ok|].
    by apply subscript_Ok.
  - intros comment Hcomment. unfold Comment.from_dict in Hcomment.
    reads_returned Hcomment. cbn [Comment.location Comment.text].
    split; [by apply location_Ok | by apply subscript_Ok].
  - intros doc_string Hdoc. unfold DocString.from_dict in Hdoc.
    reads_returned Hdoc.
    cbn [DocString.content DocString.delimiter DocString.location].
    split; [|split; [by apply subscript_Ok | by apply location_Ok]].
    destruct (subscript (RDict d) (pystr "content")) as [c|] eqn:Hc; [|done].
    apply subscript_Ok in Hc. cbn [bind] in *.
    destruct c as [| | |text| |]; try done. exists text.
    split; [done|]. by injection Hread as <-.
  - intros step Hstep. unfold Step.from_dict in Hstep. reads_returned Hstep.
    cbn [Step.id Step.keyword Step.keyword_type Step.location Step.text
         Step.data_table Step.doc_string].
    split; [by apply subscript_Ok|]. split.
    { destruct (subscript (RDict d) (pystr "keyword")) as [k|] eqn:Hk; [|done].
      apply subscript_Ok in Hk. cbn [bind] in *.
      destruct k as [| | |keyword| |]; try done. exists keyword.
      split; [done|]. cbn [as_str bind] in *. by injection Hread0 as <-. }
    split; [by apply subscript_Ok|]. split; [by apply location_Ok|].
    split; [by apply subscript_Ok|]. by rewrite <- !optional_spec.
Qed.

(** X11: a scenario and a background that are built hold the objects of
    their dictionary unchanged in [id], [keyword], [name] and
    [description], and the steps, and for a scenario the tags and the
    examples, built from the items of [steps], [tags] and [examples], one
    for one and in the order of the tree. *)
Theorem scenario_nodes_reflect_tree `{Externals} (d : list (str * raw)) :
  (∀ scenario, Scenario.from_dict (RDict d) = Ok scenario →
     dict_get (pystr "id") d = Some (Scenario.id scenario) ∧
     dict_get (pystr "keyword") d = Some (Scenario.keyword scenario) ∧
     location_built d (Scenario.location scenario) ∧
     dict_get (pystr "name") d = Some (Scenario.name scenario) ∧
     dict_get (pystr "description") d = Some (Scenario.description scenario) ∧
     items_built Step.from_dict d (pystr "steps") (Scenario.steps scenario) ∧
     items_built Tag.from_dict d (pystr "tags") (Scenario.tags scenario) ∧
     items_built ExamplesTable.from_dict d (pystr "examples")
       (Scenario.examples scenario)) ∧
  (∀ background, Background.from_dict (RDict d) = Ok background →
     dict_get (pystr "id") d = Some (Background.id background) ∧
     dict_get (pystr "keyword") d = Some (Background.keyword background) ∧
     location_built d (Background.location background) ∧
     dict_get (pystr "name") d = Some (Background.name background) ∧
     dict_get (pystr "description") d
       = Some (Background.description background) ∧
     items_built Step.from_dict d (pystr "steps") (Background.steps background)).
Proof.
  split.
  - intros scenario Hs. unfold Scenario.from_dict in Hs. reads_returned Hs.
    cbn [Scenario.id Scenario.keyword Scenario.location Scenario.name
         Scenario.description Scenario.steps Scenario.tags Scenario.examples].
    repeat split;
      first [ by apply subscript_Ok | by apply location_Ok | by apply items_Ok ].
  - intros background Hb. unfold Background.from_dict in Hb. reads_returned Hb.
    cbn [Background.id Background.keyword Background.location Background.name
         Background.description Background.steps].
    repeat split;
      first [ by apply subscript_Ok | by apply location_Ok | by apply items_Ok ].
Qed.

(** X12: the nodes of the document tree that are built hold what the tree
    holds.  A rule and a feature hold the objects of their dictionary
    unchanged in their plain fields, and the tags and the children built
    from the items of [tags] and [children], one for one and in the order
    of the tree; a document holds the feature built from [feature] and
    the comments built from the items of [comments], in order. *)
Theorem tree_nodes_reflect_tree `{Externals} (d : list (str * raw)) :
  (∀ rule, Rule.from_dict (RDict d) = Ok rule →
     dict_get (pystr "id") d = Some (Rule.id rule) ∧
     dict_get (pystr "keyword") d = Some (Rule.keyword rule) ∧
     location_built d (Rule.location rule) ∧
     dict_get (pystr "name") d = Some (Rule.name rule) ∧
     dict_get (pystr "description") d = Some (Rule.description rule) ∧
     items_built Tag.from_dict d (pystr "tags") (Rule.tags rule) ∧
     items_built Child.from_dict d (pystr "children") (Rule.children rule)) ∧
  (∀ feature, Feature.from_dict (RDict d) = Ok feature →
     dict_get (pystr "keyword") d = Some (Feature.keyword feature) ∧
     location_built d (Feature.location feature) ∧
     items_built Tag.from_dict d (pystr "tags") (Feature.tags feature) ∧
     dict_get (pystr "name") d = Some (Feature.name feature) ∧
     dict_get (pystr "description") d = Some (Feature.description feature) ∧
     items_built Child.from_dict d (pystr "children")
       (Feature.children feature)) ∧
  (∀ document, GherkinDocument.from_dict (RDict d) = Ok document →
     (∃ item, dict_get (pystr "feature") d = Some item ∧
              Feature.from_dict item = Ok (GherkinDocument.feature document)) ∧
     items_built Comment.from_dict d (pystr "comments")
       (GherkinDocument.comments document)).
Proof.
  split; [|split].
  - intros rule Hr. rewrite Rule_from_dict_eq in Hr. reads_returned Hr.
    cbn [Rule.id Rule.keyword Rule.location Rule.name Rule.description
         Rule.tags Rule.children].
    repeat split;
      first [ by apply subscript_Ok | by apply location_Ok | by apply items_Ok ].
  - intros feature Hf. unfold Feature.from_dict in Hf. reads_returned Hf.
    cbn [Feature.keyword Feature.location Feature.tags Feature.name
         Feature.description Feature.children].
    repeat split;
      first [ by apply subscript_Ok | by apply location_Ok | by apply items_Ok ].
  - intros document Hd. unfold GherkinDocument.from_dict in Hd.
    reads_returned Hd.
    cbn [GherkinDocument.feature GherkinDocument.comments].
    split; [|by apply items_Ok].
    destruct (subscript (RDict d) (pystr "feature")) as [item|] eqn:Hitem; [|done].
    apply subscript_Ok in Hitem. by exists item.
Qed.

Lemma tree_nodes_reflect_tree_witness :
  ∃ background scenario,
    Feature.children
      <$> (match @Feature.from_dict parsing_world raw_feature with
           | Ok feature => Some feature
           | Raise _ => None
           end)
    = Some [mkChild (Some background) None None;
            mkChild None None (Some scenario)].
Proof.
  destruct (@Feature.from_dict parsing_world raw_feature) as [feature|]
    eqn:Hfeature; [|by vm_compute in Hfeature].
  pose proof Hfeature as Hbuilt.
  apply (proj1 (proj2 (@tree_nodes_reflect_tree parsing_world _))) in Hbuilt
    as (_ & _ & _ & _ & _ & xs & items & Hxs & Hitems & Hchildren).
  injection Hxs as <-. injection Hitems as <-.
  apply Forall2_cons_inv_l in Hchildren as (c1 & cs & H1 & Hchildren & Heq).
  apply Forall2_cons_inv_l in Hchildren as (c2 & cs' & H2 & Hchildren & ->).
  apply Forall2_nil_inv_l in Hchildren as ->.
  vm_compute in H1. injection H1 as <-. vm_compute in H2. injection H2 as <-.
  cbn [fmap option_fmap option_map]. rewrite Heq. by do 2 eexists.
Defined.

(** ** The builders: what they raise *)

(** X13: the builders raise nothing but [KeyError], [TypeError] and
    [AttributeError], on any object whatever: a malformed tree never
    surfaces as a [ValueError], an [IndexError] or one of the parse errors
    of the package. *)
Theorem builders_raise_only_structural `{Externals} (data : raw) :
  raises_structurally (Location.from_dict data) ∧
  raises_structurally (Comment.from_dict data) ∧
  raises_structurally (Cell.from_dict data) ∧
  raises_structurally (Row.from_dict data) ∧
  raises_structurally (ExamplesTable.from_dict data) ∧
  raises_structurally (DataTable.from_dict data) ∧
  raises_structurally (DocString.from_dict data) ∧
  raises_structurally (Step.from_dict data) ∧
  raises_structurally (Tag.from_dict data) ∧
  raises_structurally (Scenario.from_dict data) ∧
  raises_structurally (Rule.from_dict data) ∧
  raises_structurally (Background.from_dict data) ∧
  raises_structurally (Child.from_dict data) ∧
  raises_structurally (Feature.from_dict data) ∧
  raises_structurally (GherkinDocument.from_dict data).
Proof.
  repeat apply conj.
  - apply Location_structural.
  - apply Comment_structural.
  - apply Cell_structural.
  - apply Row_structural.
  - apply ExamplesTable_structural.
  - apply DataTable_structural.
  - apply DocString_structural.
  - apply Step_structural.
  - apply Tag_structural.
  - apply Scenario_structural.
  - apply Rule_structural.
  - apply Background_structural.
  - apply Child_structural.
  - apply Feature_structural.
  - apply GherkinDocument_structural.
Qed.

(** X14: the default of [rows] and of [tableBody] stands in for an absent
    key only.  When the key is present and holds [None], a number or a
    boolean, the comprehension cannot iterate and the builder raises
    [TypeError], although the location builds. *)
Theorem present_rows_must_be_iterable (d : list (str * raw)) (k : str)
    (xs : raw) (location : Location.t) :
  dict_get k d = Some xs →
  iter xs = Raise TypeError →
  location_built d location →
  (k = pystr "rows" → DataTable.from_dict (RDict d) = Raise TypeError) ∧
  (k = pystr "tableBody" →
     (∃ header, field_of Row.from_dict d (pystr "tableHeader") = Ok header) →
     ExamplesTable.from_dict (RDict d) = Raise TypeError).
Proof.
  intros Hxs Hiter (item & Hitem & Hlocation). split.
  - intros ->. unfold DataTable.from_dict, subscript, get_default, for_each.
    rewrite Hitem, Hxs. cbn [bind]. rewrite Hlocation. cbn [bind].
    by rewrite Hiter.
  - intros -> [header Hheader].
    unfold ExamplesTable.from_dict. rewrite optional_spec, Hheader.
    unfold subscript, get, get_default, for_each.
    rewrite Hitem, Hxs. cbn [bind]. rewrite Hlocation. cbn [bind].
    destruct (dict_get (pystr "name") d); cbn [bind]; by rewrite Hiter.
Qed.

Lemma present_rows_must_be_iterable_witness :
  DataTable.from_dict
    (RDict [(pystr "location", raw_location 3 7); (pystr "rows", RNone)])
  = Raise TypeError.
Proof.
  refine (proj1 (present_rows_must_be_iterable _ (pystr "rows") RNone (at_ 3 7)
                   _ _ _) eq_refl).
  - reflexivity.
  - reflexivity.
  - by exists (raw_location 3 7).
Defined.

(** ** [Step.from_dict]: the keyword *)

Lemma lstrip_spec (s : str) :
  ∃ l, s = l ++ lstrip s ∧ Forall (fun c => isspace c = true) l ∧
       ∀ c, head (lstrip s) = Some c → isspace c = false.
Proof.
  induction s as [|c s (l & Hs & Hl & Hhead)]; [by exists []|].
  cbn [lstrip]. destruct (isspace c) eqn:Hc.
  - exists (c :: l). split; [by rewrite Hs at 1|]. split; [by constructor | done].
  - exists []. split; [done|]. split; [constructor|]. by intros c' [= <-].
Qed.

Lemma rstrip_spec (s : str) :
  ∃ r, s = rstrip s ++ r ∧ Forall (fun c => isspace c = true) r ∧
       ∀ c, last (rstrip s) = Some c → isspace c = false.
Proof.
  induction s as [|c s (r & Hs & Hr & Hlast)]; [by exists []|].
  cbn [rstrip]. destruct (rstrip s) as [|x t] eqn:Hstrip.
  - simpl in Hs. subst r. destruct (isspace c) eqn:Hc.
    + exists (c :: s). split; [done|]. split; [by constructor | done].
    + exists s. split; [done|]. split; [done|]. by intros c' [= <-].
  - exists r. split; [by rewrite Hs at 1|]. split; [done|].
    intros c' Hc'. apply Hlast. by rewrite last_cons_cons in Hc'.
Qed.

Lemma lstrip_last (s : str) (c : N) :
  last (lstrip s) = Some c → last s = Some c.
Proof.
  destruct (lstrip_spec s) as (l & Hs & _ & _). intros Hlast.
  rewrite Hs. destruct (lstrip s) as [|x t] eqn:Hstrip; [done|].
  by rewrite last_app_cons.
Qed.

Lemma Step_keyword_Ok `{Externals} (d : list (str * raw)) (step : Step.t) :
  Step.from_dict (RDict d) = Ok step →
  ∃ keyword, dict_get (pystr "keyword") d = Some (RStr keyword) ∧
             Step.keyword step = strip keyword.
Proof.
  intros Hstep. unfold Step.from_dict in Hstep. reads_returned Hstep.
  cbn [Step.keyword].
  destruct (subscript (RDict d) (pystr "keyword")) as [k|] eqn:Hk; [|done].
  apply subscript_Ok in Hk. cbn [bind] in *.
  destruct k as [| | |keyword| |]; try done. exists keyword.
  split; [done|]. cbn [as_str bind] in *. by injection Hread0 as <-.
Qed.

(** X15: the keyword of a built step is the keyword of the tree without
    the white space around it: the text of the tree is the stored keyword
    between two stretches of white space, and the stored keyword neither
    starts nor ends with white space. *)
Theorem step_keyword_is_stripped `{Externals} (d : list (str * raw))
    (step : Step.t) :
  Step.from_dict (RDict d) = Ok step →
  ∃ keyword before after,
    dict_get (pystr "keyword") d = Some (RStr keyword) ∧
    keyword = before ++ Step.keyword step ++ after ∧
    Forall (fun c => isspace c = true) before ∧
    Forall (fun c => isspace c = true) after ∧
    (∀ c, head (Step.keyword step) = Some c → isspace c = false) ∧
    (∀ c, last (Step.keyword step) = Some c → isspace c = false).
Proof.
  intros (keyword & Hkeyword & ->)%Step_keyword_Ok. unfold strip.
  destruct (rstrip_spec keyword) as (after & Hafter & Hspace_after & Hlast).
  destruct (lstrip_spec (rstrip keyword))
    as (before & Hbefore & Hspace_before & Hhead).
  exists keyword, before, after. split; [done|]. split.
  { rewrite (assoc_L (++)), <- Hbefore. done. }
  split; [done|]. split; [done|]. split; [done|].
  intros c Hc. by apply Hlast, lstrip_last.
Qed.

Lemma step_keyword_is_stripped_witness :
  ∃ keyword before after,
    dict_get (pystr "keyword") raw_step_items = Some (RStr keyword) ∧
    keyword = before ++ pystr "Given" ++ after ∧
    Forall (fun c => isspace c = true) before ∧
    Forall (fun c => isspace c = true) after ∧
    (∀ c, head (pystr "Given") = Some c → isspace c = false) ∧
    (∀ c, last (pystr "Given") = Some c → isspace c = false).
Proof.
  exact (@step_keyword_is_stripped parsing_world raw_step_items
           (Step.mk (RStr (pystr "0")) (pystr "Given") (RStr (pystr "Context"))
              (at_ 5 5) (RStr (pystr "a step")) None None)
           eq_refl).
Defined.

(** ** [_to_raw_string]: nothing is lost *)

Lemma escape_backslashes_cons (c : N) (s : str) :
  escape_backslashes (c :: s)
  = (if N.eqb c 92 then [92%N; 92%N] else [c]) ++ escape_backslashes s.
Proof. done. Qed.

(** X16: [_to_raw_string] loses nothing: turning every pair of
    backslashes of its result into one backslash gives the string back, so
    two strings with the same result are the same string; and the result
    is longer than the string by the number of its backslashes. *)
Theorem to_raw_string_round_trip (s : str) :
  unescape_backslashes (_to_raw_string s) = s ∧
  length (_to_raw_string s) = length s + count_backslashes s ∧
  ∀ s', _to_raw_string s' = _to_raw_string s → s' = s.
Proof.
  assert (∀ s, unescape_backslashes (escape_backslashes s) = s) as Hround.
  { clear s. induction s as [|c s IH]; [done|].
    rewrite escape_backslashes_cons. destruct (N.eqb c 92) eqn:Hc.
    - apply N.eqb_eq in Hc as ->. cbn [app unescape_backslashes].
      rewrite N.eqb_refl. cbn [andb]. by rewrite IH.
    - cbn [app unescape_backslashes]. rewrite Hc. cbn [andb].
      destruct (escape_backslashes s) as [|c' s''] eqn:Hs.
      + by rewrite <- IH.
      + by rewrite IH. }
  rewrite !to_raw_string_escapes. split; [apply Hround|]. split.
  - unfold count_backslashes. induction s as [|c s IH]; [done|].
    rewrite escape_backslashes_cons, length_app, IH, filter_cons.
    destruct (N.eqb_spec c 92) as [->|Hc].
    + rewrite decide_True by done. simpl. lia.
    + rewrite decide_False by done. simpl. lia.
  - intros s' Heq. rewrite !to_raw_string_escapes in Heq.
    by rewrite <- (Hround s'), Heq.
Qed.

(** ** The loader: its outcomes *)

Lemma rstrip_char_last (x : N) (s : str) (c : N) :
  last (rstrip_char x s) = Some c → c ≠ x.
Proof.
  induction s as [|d s IH]; [done|]. cbn [rstrip_char].
  destruct (rstrip_char x s) as [|y t] eqn:Hstrip.
  - destruct (N.eqb_spec d x); [done|]. by intros [= <-].
  - rewrite last_cons_cons. apply IH.
Qed.

(** X17: the outcomes of the loader.  A failure to read the file is
    raised unchanged.  When the parser returns a tree, the loader returns
    what [GherkinDocument.from_dict] returns for it, and raises nothing
    but the structural exceptions of the builders.  When the parser fails,
    the loader never returns: without a sub-error it raises [IndexError],
    and otherwise a parse error of the package that carries the line of
    the first sub-error, the text of that line of the file without a
    newline at its end, the path, and the composite exception as its
    cause; its class is the generic [GherkinParseError] exactly when no
    pattern is found in any line of the diagnostic. *)
Theorem loader_outcomes `{Externals} (abs_filename encoding : str) :
  (∀ e, read_text abs_filename encoding = Raise e →
     get_gherkin_document abs_filename encoding = Raise e) ∧
  (∀ text tree,
     read_text abs_filename encoding = Ok text → parse text = inl tree →
     get_gherkin_document abs_filename encoding
       = GherkinDocument.from_dict tree ∧
     raises_structurally (get_gherkin_document abs_filename encoding)) ∧
  (∀ text e,
     read_text abs_filename encoding = Ok text → parse text = inr e →
     match errors e with
     | [] => get_gherkin_document abs_filename encoding = Raise IndexError
     | error0 :: _ =>
         ∃ cls message line_content,
           get_gherkin_document abs_filename encoding
           = Raise (GherkinError cls message (pe_line error0) line_content
                      abs_filename (Some e)) ∧
           line_content
           = rstrip_char 10 (getline abs_filename (pe_line error0)) ∧
           (∀ c, last line_content = Some c → c ≠ 10%N) ∧
           (cls = GherkinParseError
            ↔ ∀ error_line p, error_line ∈ splitlines (args0 e) →
                p ∈ ERROR_PATTERNS → search (pattern p) error_line = false)
     end).
Proof.
  split; [|split].
  - intros e Hread. unfold get_gherkin_document. by rewrite Hread.
  - intros text tree Hread Hparse.
    assert (get_gherkin_document abs_filename encoding
            = GherkinDocument.from_dict tree) as ->
      by (unfold get_gherkin_document; by rewrite Hread; cbn [bind]; rewrite Hparse).
    split; [done | apply GherkinDocument_structural].
  - intros text e Hread Hparse. unfold get_gherkin_document.
    rewrite Hread. cbn [bind]. rewrite Hparse.
    destruct (errors e) as [|error0 more]; [done|].
    cbn [index lookup list_lookup bind].
    set (line := pe_line error0).
    set (line_content := rstrip_char 10 (getline abs_filename line)).
    unfold handle_gherkin_parser_error.
    destruct (check_lines ERROR_PATTERNS (splitlines (args0 e)) line
                line_content abs_filename (Some e)) as [[]|x] eqn:Hcheck;
      cbn [bind].
    + exists GherkinParseError, (pystr "Unknown parsing error: " ++ args0 e),
        line_content.
      split; [done|]. split; [done|]. split; [apply rstrip_char_last|].
      split; [intros _ | done]. by apply (check_lines_Ok _ _ _ _ _ _ Hcheck).
    + pose proof Hcheck as Hraise.
      apply check_lines_raise in Hraise as (error_line & Hline & Htry).
      apply try_patterns_raise in Htry as (j & p & Hj & Hp & _ & ->).
      apply list_elem_of_lookup_2 in Hj.
      exists (exception p), (hint p), line_content.
      split; [done|]. split; [done|]. split; [apply rstrip_char_last|]. split.
      * intros Hcls. by destruct (pattern_class_not_generic p Hj).
      * intros Hnone. by rewrite (Hnone error_line p Hline Hj) in Hp.
Qed.

Example load_sample_document :
  ∃ document,
    @get_gherkin_document parsing_world (pystr "a.feature") default_encoding
    = Ok document ∧
    length (Feature.children (GherkinDocument.feature document)) = 2 ∧
    length (GherkinDocument.comments document) = 1.
Proof. eexists. split; [vm_compute; reflexivity|]. split; reflexivity. Qed.

(** ** [DataTable.to_dict]: when no column is lost *)

Lemma size_list_to_set_bound (l : list (list N)) :
  size (list_to_set l : gset (list N)) ≤ length l ∧
  (size (list_to_set l : gset (list N)) = length l → NoDup l).
Proof.
  induction l as [|x l [IHle IHeq]]; [split; [done | constructor]|].
  rewrite list_to_set_cons. destruct (decide (x ∈ l)) as [Hin|Hout].
  - rewrite subseteq_union_1_L
      by (by apply singleton_subseteq_l, elem_of_list_to_set).
    simpl. split; lia.
  - rewrite size_union, size_singleton
      by (by apply disjoint_singleton_l; rewrite elem_of_list_to_set).
    simpl. split; [lia|]. intros Heq. constructor; [done|]. apply IHeq. lia.
Qed.

Lemma dict_loop_keys (header : list str) (tv : list (list str))
    (idxs : list nat) (acc result_dict : gmap str (list str)) :
  DataTable.dict_loop header tv idxs acc = Ok result_dict →
  ∀ key, is_Some (result_dict !! key)
         ↔ is_Some (acc !! key) ∨ ∃ i, i ∈ idxs ∧ header !! i = Some key.
Proof.
  revert acc. induction idxs as [|i0 idxs IH]; intros acc Hloop key.
  - injection Hloop as <-. split; [by left|].
    by intros [?|(i & ?%elem_of_nil & _)].
  - cbn [DataTable.dict_loop] in Hloop. unfold index in Hloop.
    destruct (header !! i0) as [key0|] eqn:Hk0; [|done]. cbn [bind] in Hloop.
    destruct (tv !! i0) as [values0|] eqn:Hv0; [|done]. cbn [bind] in Hloop.
    rewrite (IH _ Hloop key). rewrite lookup_insert. split.
    + intros [Hacc|(i & Hi & Hkey)].
      * case_decide as Heq; [|by left].
        subst key0. right. exists i0. split; [apply list_elem_of_here | done].
      * right. exists i. split; [by apply list_elem_of_further | done].
    + intros [Hacc|(i & [->|Hi]%elem_of_cons & Hkey)].
      * left. by case_decide.
      * left. rewrite Hk0 in Hkey. injection Hkey as ->.
        by rewrite decide_True.
      * right. by exists i.
Qed.

(** X18: whenever [to_dict] returns, on any table, the keys of the
    dictionary are the values of the header cells, so it has at most one
    entry per header cell; and it has one entry for every header cell, no
    column being overwritten, exactly when the values of the header cells
    are pairwise distinct. *)
Theorem to_dict_lossless_iff_distinct (T : DataTable.t)
    (result_dict : gmap str (list str)) :
  DataTable.to_dict T = Ok result_dict →
  ∃ header_row,
    DataTable.rows T !! 0 = Some header_row ∧
    dom result_dict = list_to_set (Cell.value <$> Row.cells header_row) ∧
    size result_dict ≤ length (Row.cells header_row) ∧
    (size result_dict = length (Row.cells header_row)
     ↔ NoDup (Cell.value <$> Row.cells header_row)).
Proof.
  intros Hdict.
  destruct (DataTable.rows T) as [|row0 [|row1 rows]] eqn:Hrows.
  - unfold DataTable.to_dict in Hdict. by rewrite Hrows in Hdict.
  - unfold DataTable.to_dict in Hdict. by rewrite Hrows in Hdict.
  - rewrite (to_dict_rows T _ _ _ Hrows) in Hdict.
    set (header := Cell.value <$> Row.cells row0) in *.
    assert (length header = length (Row.cells row0)) as Hlen
      by (subst header; by rewrite length_fmap).
    assert (dom result_dict = list_to_set header) as Hdom.
    { apply set_eq. intros key.
      rewrite elem_of_dom, elem_of_list_to_set, (dict_loop_keys _ _ _ _ _ Hdict).
      rewrite lookup_empty. split.
      - intros [[? ?]|(i & _ & Hi)]; [done|]. by eapply list_elem_of_lookup_2.
      - intros (i & Hi)%list_elem_of_lookup. right. exists i. split; [|done].
        apply elem_of_seq. apply lookup_lt_Some in Hi. lia. }
    exists row0. split; [done|]. split; [done|].
    rewrite <- (size_dom result_dict), Hdom, <- Hlen.
    destruct (size_list_to_set_bound header) as [Hle Heq].
    split; [done|]. split; [done|]. apply size_list_to_set.
Qed.

Lemma to_dict_lossless_iff_distinct_witness :
  size (<[pystr "b" := [pystr "2"]]> (<[pystr "a" := [pystr "1"]]> ∅)
          : gmap (list N) (list (list N))) = 2.
Proof.
  destruct (to_dict_lossless_iff_distinct sample_table
              (<[pystr "b" := [pystr "2"]]> (<[pystr "a" := [pystr "1"]]> ∅)))
    as (header_row & Hrow & _ & _ & Hsize).
  - vm_compute. reflexivity.
  - injection Hrow as <-. apply Hsize.
    apply NoDup_cons. split; [|apply NoDup_singleton].
    intros Hin%list_elem_of_singleton. discriminate Hin.
Defined.

(** ** [to_dict] after [transpose]: a table with its keys in a column *)

Lemma grid_transpose (T : DataTable.t) :
  DataTable.rows T ≠ [] →
  grid (DataTable.transpose T)
  = (fun i => Cell.value <$> (cell_at i <$> (Row.cells <$> DataTable.rows T)))
      <$> seq 0 (DataTable.max_columns (Row.cells <$> DataTable.rows T)).
Proof.
  intros Hrows. rewrite grid_cells, (transpose_matrix T Hrows).
  unfold transposed_matrix. by rewrite <- list_fmap_compose.
Qed.

(** X19: how [transpose] and [to_dict] compose.  On a table of rows of
    one width, of two cells at least, [to_dict] of the transposed table
    returns a dictionary that sends the value of the first cell of a row
    to the values of the other cells of that row, in order; of several
    rows with the same first value, the last one supplies the entry. *)
Theorem to_dict_of_transpose (T : DataTable.t) (width : nat) :
  DataTable.rows T ≠ [] →
  (∀ row, row ∈ DataTable.rows T → length (Row.cells row) = width) →
  2 ≤ width →
  ∃ result_dict,
    DataTable.to_dict (DataTable.transpose T) = Ok result_dict ∧
    ∀ k row first,
      DataTable.rows T !! k = Some row → Row.cells row !! 0 = Some first →
      (∀ k' row' first', k < k' → DataTable.rows T !! k' = Some row' →
         Row.cells row' !! 0 = Some first' →
         Cell.value first' ≠ Cell.value first) →
      result_dict !! Cell.value first
      = Some (Cell.value <$> drop 1 (Row.cells row)).
Proof.
  intros Hrows Hwidth Hwide.
  set (m := Row.cells <$> DataTable.rows T).
  assert (m ≠ []) as Hm by (subst m; by destruct (DataTable.rows T)).
  assert (∀ cells, cells ∈ m → length cells = width) as Hall.
  { intros cells (row & -> & Hrow)%list_elem_of_fmap. by apply Hwidth. }
  set (n := length (DataTable.rows T)).
  assert (length m = n) as Hn by (subst m n; by rewrite length_fmap).
  set (column := fun i => Cell.value <$> (cell_at i <$> m)).
  assert (∀ i, length (column i) = n) as Hcolumn
    by (intros i; subst column; cbn; by rewrite !length_fmap).
  assert (∀ i k row, DataTable.rows T !! k = Some row →
            column i !! k = Some (Cell.value (cell_at i (Row.cells row))))
    as Hentry.
  { intros i k row Hk. subst column m. cbn.
    by rewrite !list_lookup_fmap, Hk. }
  rewrite to_dict_grid, (grid_transpose T Hrows). fold m.
  rewrite (max_columns_uniform m width Hm Hall).
  destruct width as [|[|width]]; [lia..|]. clear Hwide.
  cbn [seq fmap list_fmap to_dict_of_grid drop]. fold (column 0). fold (column 1).
  change (list_fmap nat (list (list N)) column (seq 2 width))
    with (column <$> seq 2 width).
  rewrite Hcolumn.
  set (data := column 1 :: (column <$> seq 2 width)).
  assert (data = column <$> seq 1 (S width)) as Hdata by done.
  assert (∀ k row, DataTable.rows T !! k = Some row →
            zip_star data !! k = Some (Cell.value <$> drop 1 (Row.cells row)))
    as Hzip.
  { intros k row Hk. rewrite zip_star_lookup by done. apply mapM_Some.
    assert (length (Row.cells row) = S (S width)) as Hrow
      by (by eapply Hwidth, list_elem_of_lookup_2).
    apply Forall2_same_length_lookup_2.
    - rewrite Hdata, !length_fmap, length_seq, length_drop, Hrow. lia.
    - intros i l y Hl Hy. rewrite Hdata, list_lookup_fmap in Hl.
      destruct (seq 1 (S width) !! i) as [j|] eqn:Hj; [|done].
      apply lookup_seq in Hj as [-> Hi]. injection Hl as <-.
      rewrite (Hentry _ _ _ Hk). rewrite cell_at_lookup.
      rewrite list_lookup_fmap, lookup_drop in Hy.
      change (1 + i) with (S i) in *.
      destruct (Row.cells row !! S i) as [cell|]; [|done].
      by injection Hy as <-. }
  assert (∃ result_dict,
            DataTable.dict_loop (column 0) (zip_star data) (seq 0 n) ∅
            = Ok result_dict) as [result_dict Hloop].
  { apply dict_loop_Ok. intros k [_ Hk]%elem_of_seq. split.
    - apply lookup_lt_is_Some. rewrite Hcolumn. lia.
    - destruct (lookup_lt_is_Some_2 (DataTable.rows T) k) as [row Hrow];
        [fold n; lia|].
      by rewrite (Hzip k row Hrow). }
  exists result_dict. split; [done|].
  intros k row first Hk Hfirst Hlast.
  destruct (dict_loop_lookup _ _ _ _ _ Hloop) as [_ Hlookup].
  assert (k < n) as Hlt by (by eapply lookup_lt_Some).
  rewrite (Hlookup (Cell.value first) (seq 0 k) k (seq (S k) (n - S k))).
  - by apply Hzip.
  - by apply seq_split_at.
  - rewrite (Hentry _ _ _ Hk), cell_at_lookup. by rewrite Hfirst.
  - intros k' [Hk' Hk'n]%elem_of_seq Heq.
    destruct (lookup_lt_is_Some_2 (DataTable.rows T) k') as [row' Hrow'];
      [fold n; lia|].
    rewrite (Hentry _ _ _ Hrow'), cell_at_lookup in Heq.
    assert (length (Row.cells row') = S (S width)) as Hlen'
      by (by eapply Hwidth, list_elem_of_lookup_2).
    destruct (Row.cells row' !! 0) as [first'|] eqn:Hfirst'.
    + injection Heq as Heq. apply (Hlast k' row' first'); [lia|done..].
    + apply lookup_ge_None in Hfirst'. lia.
Qed.

Lemma to_dict_of_transpose_witness :
  DataTable.to_dict (DataTable.transpose vertical_table)
  = Ok (<[pystr "b" := [pystr "3"; pystr "4"]]>
          (<[pystr "a" := [pystr "1"; pystr "2"]]> ∅)).
Proof.
  destruct (to_dict_of_transpose vertical_table 3) as (result_dict & Hdict & _).
  - done.
  - intros row Hrow.
    repeat (apply elem_of_cons in Hrow as [->|Hrow]; [reflexivity|]).
    by apply elem_of_nil in Hrow.
  - lia.
  - rewrite Hdict. vm_compute in Hdict. by injection Hdict as <-.
Defined.

(** ** The builders on objects that are not dictionaries *)

(** X20: an object that is not a dictionary, where a builder expects one,
    is refused at the first access: [Child.from_dict] starts with
    [data.get], which such an object does not have, and raises
    [AttributeError]; every other builder starts with a subscript and
    raises [TypeError]. *)
Theorem builders_refuse_non_dictionaries `{Externals} (data : raw) :
  (∀ d, data ≠ RDict d) →
  Location.from_dict data = Raise TypeError ∧
  Comment.from_dict data = Raise TypeError ∧
  Cell.from_dict data = Raise TypeError ∧
  Row.from_dict data = Raise TypeError ∧
  ExamplesTable.from_dict data = Raise TypeError ∧
  DataTable.from_dict data = Raise TypeError ∧
  DocString.from_dict data = Raise TypeError ∧
  Step.from_dict data = Raise TypeError ∧
  Tag.from_dict data = Raise TypeError ∧
  Scenario.from_dict data = Raise TypeError ∧
  Rule.from_dict data = Raise TypeError ∧
  Background.from_dict data = Raise TypeError ∧
  Feature.from_dict data = Raise TypeError ∧
  GherkinDocument.from_dict data = Raise TypeError ∧
  Child.from_dict data = Raise AttributeError.
Proof.
  intros Hdata.
  assert (∀ k, subscript data k = Raise TypeError) as Hsub.
  { intros k. destruct data; try done. by destruct (Hdata d). }
  repeat apply conj.
  - unfold Location.from_dict. by rewrite Hsub.
  - unfold Comment.from_dict. by rewrite Hsub.
  - unfold Cell.from_dict. by rewrite Hsub.
  - unfold Row.from_dict. by rewrite Hsub.
  - unfold ExamplesTable.from_dict. by rewrite Hsub.
  - unfold DataTable.from_dict. by rewrite Hsub.
  - unfold DocString.from_dict. by rewrite Hsub.
  - unfold Step.from_dict. by rewrite Hsub.
  - unfold Tag.from_dict. by rewrite Hsub.
  - unfold Scenario.from_dict. by rewrite Hsub.
  - rewrite Rule_from_dict_eq. by rewrite Hsub.
  - unfold Background.from_dict. by rewrite Hsub.
  - unfold Feature.from_dict. by rewrite Hsub.
  - unfold GherkinDocument.from_dict. by rewrite Hsub.
  - by apply Child_from_dict_not_dict.
Qed.

Lemma builders_refuse_non_dictionaries_witness :
  @Feature.from_dict parsing_world RNone = Raise TypeError ∧
  @Child.from_dict parsing_world (RStr (pystr "scenario")) = Raise AttributeError.
Proof.
  split.
  - by apply (@builders_refuse_non_dictionaries parsing_world RNone).
  - by apply (@builders_refuse_non_dictionaries parsing_world
                (RStr (pystr "scenario"))).
Defined.

(** ** Built nodes: instances *)

Lemma table_nodes_reflect_tree_witness :
  items_built Row.from_dict raw_table_items (pystr "rows")
    [Row.mk (RStr (pystr "4")) (at_ 3 7) [Cell.mk (at_ 3 9) (pystr "a")]].
Proof.
  exact (proj2 (proj1 (proj2 (table_nodes_reflect_tree raw_table_items))
                  (DataTable.mk (at_ 3 7)
                     [Row.mk (RStr (pystr "4")) (at_ 3 7)
                        [Cell.mk (at_ 3 9) (pystr "a")]])
                  eq_refl)).
Defined.

Lemma leaf_nodes_reflect_tree_witness :
  dict_get (pystr "name") raw_tag_items = Some (RStr (pystr "@slow")).
Proof.
  exact (proj2 (proj2 (proj1 (@leaf_nodes_reflect_tree parsing_world raw_tag_items)
                         (Tag.mk (RStr (pystr "7")) (at_ 1 1) (RStr (pystr "@slow")))
                         eq_refl))).
Defined.

Lemma scenario_nodes_reflect_tree_witness :
  items_built (@Step.from_dict parsing_world) raw_background_items (pystr "steps")
    [Step.mk (RStr (pystr "0")) (pystr "Given") (RStr (pystr "Context"))
       (at_ 5 5) (RStr (pystr "a step")) None None].
Proof.
  destruct (proj2 (@scenario_nodes_reflect_tree parsing_world raw_background_items)
              (Background.mk (RStr (pystr "1")) (RStr (pystr "Background"))
                 (at_ 2 3) (RStr []) (RStr [])
                 [Step.mk (RStr (pystr "0")) (pystr "Given")
                    (RStr (pystr "Context")) (at_ 5 5) (RStr (pystr "a step"))
                    None None])
              eq_refl) as (_ & _ & _ & _ & _ & Hsteps).
  exact Hsteps.
Defined.
